(** * bark_infinity/api.py: long-form generation controller, history-prompt
      store and unique path allocation

    A shallow embedding of the orchestration code of [bark_infinity/api.py]:
    - [process_history_prompt], [generate_unique_filepath] over a file-system
      model (a finite map from paths to files);
    - the history-prompt validator ([generate_text_semantic_report],
      [generate_coarse_report], [generate_fine_report],
      [history_prompt_is_valid]) over a model of integer numpy arrays;
    - [generate_audio_barki] and [generate_audio_long] in a small
      state-and-exception monad whose state holds the two module globals
      ([gradio_try_to_cancel], [done_cancelling]) and a log of the calls made
      to the external collaborators;
    - the rest of the module that can be told from its text: the writers of
      a segment, [generate_unique_dirpath], [load_npz],
      [history_prompt_detailed_report], [set_seed],
      [resize_semantic_history], [gather_speakers] and [list_speakers].

    Python exceptions are the [Raise] results, [None] is [None]. *)

From Stdlib Require Import ZArith Lia Ascii String Floats Uint63.
From stdpp Require Import base option list gmap strings pretty sorting.

Local Open Scope Z_scope.

(** ** Python results *)

Inductive exn : Type :=
  | KeyError | TypeError | ValueError | ZeroDivisionError | IndexError | OSError.

Inductive result (A : Type) : Type :=
  | Ok (a : A)
  | Raise (e : exn).
Arguments Ok {A} a.
Arguments Raise {A} e.

Global Instance result_ret : MRet result := λ A a, Ok a.
Global Instance result_bind : MBind result := λ A B k r,
  match r with
  | Ok a => k a
  | Raise e => Raise e
  end.

(** ** [os.path] on POSIX path strings *)

Module ospath.

Definition sep : ascii := "/"%char.
Definition extsep : ascii := "."%char.

(** [p.rfind(c)]: the index of the last occurrence, [-1] when absent. *)
Fixpoint rfind_from (c : ascii) (p : string) (i : Z) (found : Z) : Z :=
  match p with
  | EmptyString => found
  | String a p' => rfind_from c p' (i + 1) (if Ascii.eqb a c then i else found)
  end.
Definition rfind (c : ascii) (p : string) : Z := rfind_from c p 0 (-1).

(** [p[:i]] and [p[i:]] for [0 <= i]. *)
Definition upto (i : Z) (p : string) : string := substring 0 (Z.to_nat i) p.
Definition from (i : Z) (p : string) : string :=
  substring (Z.to_nat i) (String.length p - Z.to_nat i) p.

(** The scan of [genericpath._splitext] over the characters between the
    last separator and the last dot: some character there is not a dot. *)
Fixpoint has_non_dot (n : nat) (filenameIndex : nat) (p : string) : bool :=
  match n with
  | O => false
  | S n' =>
      match String.get filenameIndex p with
      | Some a =>
          if Ascii.eqb a extsep then has_non_dot n' (S filenameIndex) p else true
      | None => true
      end
  end.

Definition splitext (p : string) : string * string :=
  let sepIndex := rfind sep p in
  let dotIndex := rfind extsep p in
  if (sepIndex <? dotIndex)
     && has_non_dot (Z.to_nat (dotIndex - (sepIndex + 1))) (Z.to_nat (sepIndex + 1)) p
  then (upto dotIndex p, from dotIndex p)
  else (p, EmptyString).

Fixpoint all_sep (p : string) : bool :=
  match p with
  | EmptyString => true
  | String a p' => Ascii.eqb a sep && all_sep p'
  end.

(** [head.rstrip('/')] *)
Fixpoint rstrip_sep (p : string) : string :=
  match p with
  | EmptyString => EmptyString
  | String a p' => if all_sep p then EmptyString else String a (rstrip_sep p')
  end.

Definition dirname (p : string) : string :=
  let i := rfind sep p + 1 in
  let head := upto i p in
  if negb (String.eqb head EmptyString) && negb (all_sep head)
  then rstrip_sep head else head.

Definition startswith_sep (p : string) : bool :=
  match p with
  | String a _ => Ascii.eqb a sep
  | EmptyString => false
  end.

Fixpoint endswith_sep (p : string) : bool :=
  match p with
  | EmptyString => false
  | String a EmptyString => Ascii.eqb a sep
  | String _ p' => endswith_sep p'
  end.

(** [os.path.basename(p)] *)
Definition basename (p : string) : string := from (rfind sep p + 1) p.

(** [os.path.join(a, b)] *)
Definition join (a b : string) : string :=
  if startswith_sep b then b
  else if String.eqb a EmptyString || endswith_sep a then a +:+ b
  else a +:+ String sep b.

End ospath.

(** ** Integer numpy arrays *)

Record ndarray : Type := NdArray { shape : list nat; data : list Z }.

Global Instance ndarray_eq_dec : EqDecision ndarray.
Proof. solve_decision. Defined.

(** [a.size] *)
Definition arr_size (a : ndarray) : nat := foldr Nat.mul 1%nat (shape a).

(** A well-formed array holds exactly [a.size] values. *)
Definition wf_ndarray (a : ndarray) : Prop := length (data a) = arr_size a.

(** [len(a)]: the first dimension; a 0-d array is unsized. *)
Definition arr_len (a : ndarray) : result nat :=
  match shape a with
  | [] => Raise TypeError
  | n :: _ => Ok n
  end.

(** [a.min()] and [a.max()] raise on a zero-size array. *)
Definition arr_min (a : ndarray) : result Z :=
  match data a with
  | [] => Raise ValueError
  | x :: l => Ok (foldr Z.min x l)
  end.

Definition arr_max (a : ndarray) : result Z :=
  match data a with
  | [] => Raise ValueError
  | x :: l => Ok (foldr Z.max x l)
  end.

(** [np.argmin(a)] / [np.argmax(a)]: first flat index of the extremum. *)
Fixpoint index_of (v : Z) (l : list Z) : nat :=
  match l with
  | [] => 0%nat
  | x :: l' => if Z.eqb x v then 0%nat else S (index_of v l')
  end.

Definition arr_argmin (a : ndarray) : result nat :=
  m ← arr_min a; Ok (index_of m (data a)).
Definition arr_argmax (a : ndarray) : result nat :=
  m ← arr_max a; Ok (index_of m (data a)).

(** [a[lo:hi]] along the first axis, for non-negative bounds. *)
Definition row_width (a : ndarray) : nat := foldr Nat.mul 1%nat (tail (shape a)).

Definition slice0 (lo hi : nat) (a : ndarray) : ndarray :=
  match shape a with
  | [] => a
  | n :: rest =>
      let start := Nat.min lo n in
      let stop := Nat.min hi n in
      let count := (stop - start)%nat in
      NdArray (count :: rest)
              (take (count * row_width a) (drop (start * row_width a) (data a)))
  end.

(** The history prompt: a dict from key to array. *)
Abbreviation history_prompt_dict := (gmap string ndarray).

Definition getitem (d : history_prompt_dict) (k : string) : result ndarray :=
  match d !! k with
  | Some a => Ok a
  | None => Raise KeyError
  end.

(** ** Files *)

Inductive file : Type :=
  | NpzFile (arrays : history_prompt_dict)
  | OtherFile.

Abbreviation filesystem := (gmap string file).

(** [os.path.exists] *)
Definition path_exists (fs : filesystem) (p : string) : bool :=
  bool_decide (is_Some (fs !! p)).

(** [Optional[Union[Dict, str]]] *)
Inductive history_prompt_value : Type :=
  | HPName (name : string)
  | HPDict (d : history_prompt_dict).

(** ** Python floats (binary64) *)

Definition float_of_Z (z : Z) : float := PrimFloat.of_uint63 (Uint63.of_Z z).
Definition float_of_nat (n : nat) : float := float_of_Z (Z.of_nat n).

(** [a / b] on Python ints. *)
Definition py_truediv (a b : nat) : result float :=
  if (b =? 0)%nat then Raise ZeroDivisionError
  else Ok (float_of_nat a / float_of_nat b)%float.

(** The exact value of a binary64 number times ten, rounded half-even to an
    integer: the decimal digit string [round(x, 1)] goes through. *)
Definition tenths (x : float) : Z :=
  match Prim2SF x with
  | S754_finite s m e =>
      let n := 10 * Z.pos m in
      let q :=
        if 0 <=? e then n * 2 ^ e
        else
          let d := 2 ^ (- e) in
          let q := n / d in
          let r := n mod d in
          if 2 * r <? d then q
          else if d <? 2 * r then q + 1
          else if Z.even q then q else q + 1 in
      if s then - q else q
  | _ => 0
  end.

(** [round(x, 1)] for a finite non-negative [x]: the binary64 number nearest
    to the rounded decimal. *)
Definition py_round1 (x : float) : float := (float_of_Z (tenths x) / 10)%float.

(** ** History-prompt validation

    The values of a bundle are integer numpy arrays here, so the
    [isinstance] tests that open each report pass and are not written. *)

Definition SEMANTIC_RATE_HZ : float := 0x1.8f33333333333p+5%float. (* 49.9 *)
Definition SEMANTIC_VOCAB_SIZE : Z := 10000.
Definition CODEBOOK_SIZE : Z := 1024.
Definition N_COARSE_CODEBOOKS : nat := 2.
Definition N_FINE_CODEBOOKS : nat := 8.
Definition COARSE_RATE_HZ : Z := 75.

Inductive message : Type :=
  | MsgNot1d (shp : list nat)
  | MsgNot2d (shp : list nat)
  | MsgEmpty
  | MsgRows (expected actual : nat)
  | MsgMinimum (actual : Z)
  | MsgMaximum (bound actual : Z)
  | MsgSurrounding (tokens : ndarray)
  | MsgSurroundingInRow (row : nat) (tokens : ndarray)
  | MsgRatio (expected actual : float).

Record report : Type := Report { valid : bool; messages : list message }.

(** [report["valid"] = False] followed by [report["messages"].append] calls *)
Definition fail (r : report) (msgs : list message) : report :=
  Report false (messages r ++ msgs).

Definition generate_text_semantic_report
    (history_prompt : history_prompt_dict) (token_samples : nat) : result report :=
  semantic_history ← getitem history_prompt "semantic_prompt";
  let report := Report true [] in
  if negb (length (shape semantic_history) =? 1)%nat then
    Ok (fail report [MsgNot1d (shape semantic_history)])
  else
    n ← arr_len semantic_history;
    if (n =? 0)%nat then Ok (fail report [MsgEmpty])
    else
      lo ← arr_min semantic_history;
      if lo <? 0 then
        index ← arr_argmin semantic_history;
        let surrounding :=
          slice0 (index - token_samples) (Nat.min n (index + token_samples))
                 semantic_history in
        Ok (fail report [MsgMinimum lo; MsgSurrounding surrounding])
      else
        hi ← arr_max semantic_history;
        if SEMANTIC_VOCAB_SIZE <=? hi then
          index ← arr_argmax semantic_history;
          let surrounding :=
            slice0 (index - token_samples) (Nat.min n (index + token_samples))
                   semantic_history in
          Ok (fail report [MsgMaximum SEMANTIC_VOCAB_SIZE hi; MsgSurrounding surrounding])
        else Ok report.

Definition semantic_to_coarse_ratio : float :=
  (float_of_Z COARSE_RATE_HZ / SEMANTIC_RATE_HZ * float_of_nat N_COARSE_CODEBOOKS)%float.

Definition generate_coarse_report
    (history_prompt : history_prompt_dict) (token_samples : nat) : result report :=
  semantic_history ← getitem history_prompt "semantic_prompt";
  coarse_history ← getitem history_prompt "coarse_prompt";
  let report := Report true [] in
  (* the semantic array, checked once more *)
  report ←
    (if negb (length (shape semantic_history) =? 1)%nat then
       Ok (fail report [MsgNot1d (shape semantic_history)])
     else
       n ← arr_len semantic_history;
       if (n =? 0)%nat then Ok (fail report [MsgEmpty])
       else
         lo ← arr_min semantic_history;
         if lo <? 0 then
           index ← arr_argmin semantic_history;
           let surrounding :=
             slice0 (index - token_samples) (Nat.min n (index + token_samples))
                    semantic_history in
           Ok (fail report [MsgMinimum lo; MsgSurrounding surrounding])
         else
           hi ← arr_max semantic_history;
           if SEMANTIC_VOCAB_SIZE <=? hi then
             index ← arr_argmax semantic_history;
             let surrounding :=
               slice0 (index - token_samples) (Nat.min n (index + token_samples))
                      semantic_history in
             Ok (fail report
                   [MsgMaximum SEMANTIC_VOCAB_SIZE hi; MsgSurrounding surrounding])
           else Ok report);
  (* the coarse array *)
  match shape coarse_history with
  | [rows; cols] =>
      if negb (rows =? N_COARSE_CODEBOOKS)%nat then
        Ok (fail report [MsgRows N_COARSE_CODEBOOKS rows])
      else if (arr_size coarse_history =? 0)%nat then Ok (fail report [MsgEmpty])
      else
        lo ← arr_min coarse_history;
        report ←
          (if lo <? 0 then
             flat ← arr_argmin coarse_history;
             let indices := ((flat / cols)%nat, (flat mod cols)%nat) in
             let surrounding :=
               slice0 (indices.2 - token_samples)
                      (Nat.min cols (indices.2 + token_samples)) coarse_history in
             Ok (fail report
                   [MsgMinimum lo; MsgSurroundingInRow indices.1 surrounding])
           else
             hi ← arr_max coarse_history;
             if CODEBOOK_SIZE <=? hi then
               flat ← arr_argmax coarse_history;
               let indices := ((flat / cols)%nat, (flat mod cols)%nat) in
               let surrounding :=
                 slice0 (indices.2 - token_samples)
                        (Nat.min cols (indices.2 + token_samples)) coarse_history in
               Ok (fail report
                     [MsgMaximum CODEBOOK_SIZE hi;
                      MsgSurroundingInRow indices.1 surrounding])
             else Ok report);
        n ← arr_len semantic_history;
        quotient ← py_truediv cols n;
        let ratio := py_round1 quotient in
        let expected :=
          py_round1 (semantic_to_coarse_ratio / float_of_nat N_COARSE_CODEBOOKS)%float in
        if negb (PrimFloat.eqb ratio expected) then
          Ok (fail report [MsgRatio expected ratio])
        else Ok report
  | shp => Ok (fail report [MsgNot2d shp])
  end.

Definition generate_fine_report
    (history_prompt : history_prompt_dict) (token_samples : nat) : result report :=
  fine_history ← getitem history_prompt "fine_prompt";
  let report := Report true [] in
  match shape fine_history with
  | [rows; cols] =>
      if (arr_size fine_history =? 0)%nat then Ok (fail report [MsgEmpty])
      else if negb (rows =? N_FINE_CODEBOOKS)%nat then
        Ok (fail report [MsgRows N_FINE_CODEBOOKS rows])
      else
        lo ← arr_min fine_history;
        if lo <? 0 then
          flat ← arr_argmin fine_history;
          let indices := ((flat / cols)%nat, (flat mod cols)%nat) in
          let surrounding :=
            slice0 (indices.2 - token_samples)
                   (Nat.min cols (indices.2 + token_samples)) fine_history in
          Ok (fail report [MsgMinimum lo; MsgSurroundingInRow indices.1 surrounding])
        else
          hi ← arr_max fine_history;
          if CODEBOOK_SIZE <=? hi then
            flat ← arr_argmax fine_history;
            let indices := ((flat / cols)%nat, (flat mod cols)%nat) in
            let surrounding :=
              slice0 (indices.2 - token_samples)
                     (Nat.min cols (indices.2 + token_samples)) fine_history in
            Ok (fail report
                  [MsgMaximum CODEBOOK_SIZE hi;
                   MsgSurroundingInRow indices.1 surrounding])
          else Ok report
  | shp => Ok (fail report [MsgNot2d shp])
  end.

(** The three fixed keys of a bundle are all there. *)
Definition has_all_keys (d : history_prompt_dict) : bool :=
  bool_decide (is_Some (d !! "semantic_prompt"))
  && bool_decide (is_Some (d !! "coarse_prompt"))
  && bool_decide (is_Some (d !! "fine_prompt")).

(** Modelled from the spec: [generation._load_history_prompt], which is not
    part of [api.py].  A path is read from storage as a container of arrays
    and a dict is taken as it is; loading fails when the file is absent or
    unreadable, or when one of the three keys is absent. *)
Definition _load_history_prompt
    (fs : filesystem) (history_prompt_input : history_prompt_value)
  : result history_prompt_dict :=
  match history_prompt_input with
  | HPName p =>
      match fs !! p with
      | Some (NpzFile d) => if has_all_keys d then Ok d else Raise KeyError
      | _ => Raise OSError
      end
  | HPDict d => if has_all_keys d then Ok d else Raise KeyError
  end.

(** Returns [None] when loading failed (the error is printed), the
    conjunction of the three verdicts otherwise.  An exception raised by a
    report is not caught. *)
Definition history_prompt_is_valid
    (fs : filesystem) (history_prompt : history_prompt_value) : result (option bool) :=
  match _load_history_prompt fs history_prompt with
  | Raise _ => Ok None
  | Ok history_prompt =>
      semantic_report ← generate_text_semantic_report history_prompt 3;
      coarse_report ← generate_coarse_report history_prompt 3;
      fine_report ← generate_fine_report history_prompt 3;
      Ok (Some (valid semantic_report && valid coarse_report && valid fine_report))
  end.

(** ** External collaborators

    The model stages, the text splitters, the path sanitizer and the
    configuration live outside [api.py]; the code is parametric in them.
    Sampling parameters and seeds are handed to the stages unchanged and are
    left out, as are console output and timing. *)

Abbreviation audio := (list float).

Inductive segment_tag : Type :=
  | SegNumber (n : Z)
  | SegBaseHistory          (* "base_history" *)
  | SegFinal.               (* "final" *)

(** The user's options, which no function assigns to. *)
Record options : Type := Options {
  stable_mode_interval : option Z;
  dry_run : bool;
  text_splits_only : bool;
  hoarder_mode : bool;
  seperate_prompts : bool;
  seperate_prompts_flipper : bool;
  semantic_history_only : bool;
  absolute_semantic_history_only : bool;
  absolute_semantic_history_only_every_x : option Z;
  prompt_text_prefix : option string;
  add_silence_between_segments : float;
  process_text_by_each : option string;
  group_text_by_counting : option string;
  split_character_goal_length : Z;
  split_character_max_length : Z;
}.

(** [**kwargs]: the options and the entries the controller assigns to. *)
Record kwargs : Type := Kwargs {
  opts : options;
  history_prompt : option history_prompt_value;
  history_prompt_string : option string;
  text_prompt : string;
  previous_segment_type : string;
  segment_number : option segment_tag;
  total_segments : Z;
  output_full : bool;
}.

Definition set_history_prompt (v : option history_prompt_value) (k : kwargs) : kwargs :=
  Kwargs (opts k) v (history_prompt_string k) (text_prompt k)
         (previous_segment_type k) (segment_number k) (total_segments k) (output_full k).
Definition set_history_prompt_string (v : option string) (k : kwargs) : kwargs :=
  Kwargs (opts k) (history_prompt k) v (text_prompt k)
         (previous_segment_type k) (segment_number k) (total_segments k) (output_full k).
Definition set_text_prompt (v : string) (k : kwargs) : kwargs :=
  Kwargs (opts k) (history_prompt k) (history_prompt_string k) v
         (previous_segment_type k) (segment_number k) (total_segments k) (output_full k).
Definition set_previous_segment_type (v : string) (k : kwargs) : kwargs :=
  Kwargs (opts k) (history_prompt k) (history_prompt_string k) (text_prompt k)
         v (segment_number k) (total_segments k) (output_full k).
Definition set_segment_number (v : segment_tag) (k : kwargs) : kwargs :=
  Kwargs (opts k) (history_prompt k) (history_prompt_string k) (text_prompt k)
         (previous_segment_type k) (Some v) (total_segments k) (output_full k).
Definition set_total_segments (v : Z) (k : kwargs) : kwargs :=
  Kwargs (opts k) (history_prompt k) (history_prompt_string k) (text_prompt k)
         (previous_segment_type k) (segment_number k) v (output_full k).
Definition set_output_full (v : bool) (k : kwargs) : kwargs :=
  Kwargs (opts k) (history_prompt k) (history_prompt_string k) (text_prompt k)
         (previous_segment_type k) (segment_number k) (total_segments k) v.

Class External : Type := {
  (* pathvalidate *)
  sanitize_filepath : string → string;
  (* config *)
  VALID_HISTORY_PROMPT_DIRS : list string;
  (* generation *)
  generate_text_semantic : string → option history_prompt_value → ndarray;
  generate_coarse : ndarray → option history_prompt_value → ndarray;
  generate_fine : ndarray → option history_prompt_value → ndarray;
  codec_decode : ndarray → audio;
  (* text_processing *)
  split_general_purpose : string → Z → Z → list string;
  split_text : string → option string → option string → list string;
  (* the name [determine_output_filename] returns, derived from the
     parameters, the clock and the disk; what it does to the disk on the way
     is in [determine_output_filename_on_disk] *)
  determine_output_filename : kwargs → string;
  (* the UI thread: has it asked to cancel by the n-th read of the flag *)
  cancel_requested : nat → bool;
}.

(** ** Unique path allocation *)

Section unique_paths.
Context `{External}.

(** The [while os.path.exists(unique_filename)] loop; [fuel] bounds the
    number of tests of the condition. *)
Fixpoint unique_filepath_loop (fs : filesystem) (name ext : string)
    (fuel : nat) (unique_filename : string) (counter : nat) : option string :=
  match fuel with
  | O => None
  | S fuel' =>
      if path_exists fs unique_filename then
        unique_filepath_loop fs name ext fuel'
          (name +:+ "_" +:+ pretty counter +:+ ext) (S counter)
      else Some unique_filename
  end.

(** One test per existing file and one more always suffice (see
    [generate_unique_filepath_total]). *)
Definition generate_unique_filepath (fs : filesystem) (filepath : string)
  : option string :=
  let unique_filename := sanitize_filepath filepath in
  let '(name, ext) := ospath.splitext filepath in
  unique_filepath_loop fs name ext (S (S (size fs))) unique_filename 1.

(** The caller writes the file at the returned path; [n] allocations in a
    row for the same [filepath]. *)
Fixpoint allocate_in_a_row (fs : filesystem) (filepath : string) (content : file)
    (n : nat) : option (list string) :=
  match n with
  | O => Some []
  | S n' =>
      p ← generate_unique_filepath fs filepath;
      ps ← allocate_in_a_row (<[p := content]> fs) filepath content n';
      Some (p :: ps)
  end.

(** ** Resolution of a speaker name *)

Definition truthy (v : option bool) : bool := default false v.

Definition process_history_prompt (fs : filesystem)
    (user_history_prompt : option string) : result (option string) :=
  match user_history_prompt with
  | None => Ok None
  | Some user_history_prompt =>
      let '(file_name, file_extension) := ospath.splitext user_history_prompt in
      let file_extension :=
        if String.eqb file_extension "" then ".npz"%string else file_extension in
      let full_path := file_name +:+ file_extension in
      let history_prompt_returned :=
        if negb (String.eqb (ospath.dirname full_path) "") then
          if path_exists fs full_path then Some full_path else None
        else
          foldl (λ found directory,
                   let full_path_in_dir :=
                     ospath.join directory (file_name +:+ file_extension) in
                   if path_exists fs full_path_in_dir
                   then Some full_path_in_dir else found)
                None VALID_HISTORY_PROMPT_DIRS in
      match history_prompt_returned with
      | None => Ok None
      | Some found =>
          ok ← history_prompt_is_valid fs (HPName found);
          if negb (truthy ok) then Ok None else Ok (Some found)
      end
  end.

End unique_paths.

(** ** The world of a run

    The two module globals, the number of times the cancellation flag has
    been read, and the log of what the run did, oldest entry first: the calls
    of the collaborators and of [write_one_segment], the logger's messages
    that tell the branch taken, and each call of [generate_audio_barki] by
    the controller with what it returned. *)

(** What [generate_audio_barki] returns: a pair, or the audio alone. *)
Inductive barki_result : Type :=
  | Pair (full_generation : option history_prompt_dict) (audio_arr : option audio)
  | Audio (audio_arr : audio).

Inductive event : Type :=
  | EvChunkUpText (text : string)
  | EvSpeakerNotFound (name : string)
  | EvGenerateAudioBarki (text : string) (kw : kwargs)
  | EvBarkiReturned (out : barki_result)
  | EvGenerateTextSemantic (text : string) (hp : option history_prompt_value)
  | EvGenerateCoarse (x_semantic : ndarray) (hp : option history_prompt_value)
  | EvGenerateFine (x_coarse_gen : ndarray) (hp : option history_prompt_value)
  | EvCodecDecode (fine_tokens : ndarray)
  | EvWriteOneSegment (tag : option segment_tag) (audio_arr : option audio)
                      (full_generation : option history_prompt_dict)
  | EvStableModeInterval (counter : option Z) (interval : Z)
  | EvResetToBase (interval : Z)
  | EvStableModeError (interval : Z)
  | EvHistoryPromptDisabled
  | EvCancelled.

Record world : Type := World {
  gradio_try_to_cancel : bool;
  done_cancelling : bool;
  flag_reads : nat;
  log : list event;
}.

Definition M (A : Type) : Type := world → result A * world.

Global Instance M_ret : MRet M := λ A a w, (Ok a, w).
Global Instance M_bind : MBind M := λ A B k m w,
  match m w with
  | (Ok a, w') => k a w'
  | (Raise e, w') => (Raise e, w')
  end.

Definition raise {A} (e : exn) : M A := λ w, (Raise e, w).
Definition lift {A} (r : result A) : M A := λ w, (r, w).
Definition emit (e : event) : M unit := λ w,
  (Ok (), World (gradio_try_to_cancel w) (done_cancelling w) (flag_reads w) (log w ++ [e])).
Definition set_done_cancelling (b : bool) : M unit := λ w,
  (Ok (), World (gradio_try_to_cancel w) b (flag_reads w) (log w)).
Definition set_gradio_try_to_cancel (b : bool) : M unit := λ w,
  (Ok (), World b (done_cancelling w) (flag_reads w) (log w)).

Section pipeline.
Context `{External}.

(** What the [n]-th read of [gradio_try_to_cancel] sees: the flag as this
    module left it, or as the UI thread has set it since. *)
Definition flag_at (w : world) (n : nat) : bool :=
  gradio_try_to_cancel w || cancel_requested n.

Definition read_gradio_try_to_cancel : M bool := λ w,
  (Ok (flag_at w (flag_reads w)),
   World (gradio_try_to_cancel w) (done_cancelling w) (S (flag_reads w)) (log w)).

(** [if gradio_try_to_cancel: done_cancelling = True; return None, None] *)
Definition unless_cancelled (rest : M barki_result) : M barki_result :=
  cancel ← read_gradio_try_to_cancel;
  if cancel : bool then
    _ ← set_done_cancelling true; mret (Pair None None)
  else rest.

Definition every_x_override (kw : kwargs) : result bool :=
  match absolute_semantic_history_only_every_x (opts kw) with
  | Some x =>
      if 0 <? x then
        match segment_number kw with
        | Some (SegNumber n) => Ok (n mod x =? 0)
        | Some _ => Raise TypeError
        | None => Ok false
        end
      else Ok false
  | None => Ok false
  end.

Definition generate_audio_barki (text : string) (kw : kwargs) : M barki_result :=
  let history_prompt := history_prompt kw in
  unless_cancelled (
    _ ← emit (EvGenerateTextSemantic text history_prompt);
    let semantic_tokens := generate_text_semantic text history_prompt in
    unless_cancelled (
    unless_cancelled (
      let history_prompt :=
        if String.eqb (previous_segment_type kw) "base_history"
           && semantic_history_only (opts kw)
        then None else history_prompt in
      let history_prompt :=
        if absolute_semantic_history_only (opts kw) then None else history_prompt in
      every_x ← lift (every_x_override kw);
      let history_prompt := if every_x : bool then None else history_prompt in
      _ ← emit (EvGenerateCoarse semantic_tokens history_prompt);
      let coarse_tokens := generate_coarse semantic_tokens history_prompt in
      unless_cancelled (
        _ ← emit (EvGenerateFine coarse_tokens history_prompt);
        let fine_tokens := generate_fine coarse_tokens history_prompt in
        unless_cancelled (
          _ ← emit (EvCodecDecode fine_tokens);
          let audio_arr := codec_decode fine_tokens in
          let full_generation : history_prompt_dict :=
            <["semantic_prompt" := semantic_tokens]>
              (<["coarse_prompt" := coarse_tokens]>
                 (<["fine_prompt" := fine_tokens]> ∅)) in
          unless_cancelled (
            _ ← (if hoarder_mode (opts kw) && (1 <? total_segments kw)
                 then emit (EvWriteOneSegment (segment_number kw)
                              (Some audio_arr) (Some full_generation))
                 else mret ());
            if output_full kw
            then mret (Pair (Some full_generation) (Some audio_arr))
            else mret (Audio audio_arr))))))).

End pipeline.

(** ** The long-form controller

    [write_one_segment] and the renaming of the hoarder-mode output directory
    touch the disk only; a call of the former is an entry of the log, the
    latter is left out. *)

(** [int(x)] for a float: truncation toward zero.  The silence between the
    segments of a run is taken to be a finite number: for an infinite float
    [int] raises [OverflowError], which [py_int_of_float] has and this
    function has not. *)
Definition py_int (x : float) : Z :=
  match Prim2SF x with
  | S754_finite s m e =>
      let q := if 0 <=? e then Z.pos m * 2 ^ e else Z.pos m / 2 ^ (- e) in
      if s then - q else q
  | _ => 0
  end.

Definition SAMPLE_RATE : float := 24000%float.

(** The local variables of [generate_audio_long] that the loop assigns to. *)
Record loop_state : Type := LoopState {
  kw : kwargs;
  history_prompt_for_next_segment : option history_prompt_dict;
  base_history : option history_prompt_dict;
  stable_mode_interval_counter : option Z;
  history_prompt_flipper : bool;
  full_generation_segments : list history_prompt_dict;
  audio_arr_segments : list audio;
}.

(** The returned triple; [None] stands for [(None, None, None)]. *)
Abbreviation long_result :=
  (option (list history_prompt_dict * list audio * string)).

Inductive control : Type :=
  | Continue (st : loop_state)
  | Return (r : long_result).

(** [for i, segment_text in enumerate(audio_segments)] *)
Fixpoint for_each_segment (body : nat → string → loop_state → M control)
    (i : nat) (audio_segments : list string) (st : loop_state) : M control :=
  match audio_segments with
  | [] => mret (Continue st)
  | segment_text :: rest =>
      c ← body i segment_text st;
      match c with
      | Continue st' => for_each_segment body (S i) rest st'
      | Return r => mret (Return r)
      end
  end.

Section controller.
Context `{External}.

Definition np_load (fs : filesystem) (p : string) : result history_prompt_dict :=
  match fs !! p with
  | Some (NpzFile d) => Ok d
  | _ => Raise OSError
  end.

(** The random jitter of the two lengths is left out. *)
Definition chunk_up_text (kw : kwargs) : list string :=
  split_general_purpose (text_prompt kw)
    (split_character_goal_length (opts kw)) (split_character_max_length (opts kw)).

Definition chunk_up_text_prev (kw : kwargs) : list string :=
  split_text (text_prompt kw)
    (process_text_by_each (opts kw)) (group_text_by_counting (opts kw)).

(** Lines 979-1002: what this segment is conditioned on. *)
Definition select_history_prompt (st : loop_state) : M loop_state :=
  let next := history_prompt_for_next_segment st in
  if seperate_prompts_flipper (opts (kw st)) then
    if seperate_prompts (opts (kw st)) then
      if history_prompt_flipper st then
        _ ← emit EvHistoryPromptDisabled;
        mret (LoopState (set_history_prompt None (kw st)) None (base_history st)
                (stable_mode_interval_counter st) false
                (full_generation_segments st) (audio_arr_segments st))
      else
        mret (LoopState (set_history_prompt (HPDict <$> next) (kw st)) next
                (base_history st) (stable_mode_interval_counter st) true
                (full_generation_segments st) (audio_arr_segments st))
    else
      mret (LoopState (set_history_prompt (HPDict <$> next) (kw st)) next
              (base_history st) (stable_mode_interval_counter st)
              (history_prompt_flipper st)
              (full_generation_segments st) (audio_arr_segments st))
  else
    if seperate_prompts (opts (kw st)) then
      _ ← emit EvHistoryPromptDisabled;
      mret (LoopState (kw st) None (base_history st)
              (stable_mode_interval_counter st) (history_prompt_flipper st)
              (full_generation_segments st) (audio_arr_segments st))
    else
      mret (LoopState (set_history_prompt (HPDict <$> next) (kw st)) next
              (base_history st) (stable_mode_interval_counter st)
              (history_prompt_flipper st)
              (full_generation_segments st) (audio_arr_segments st)).

(** Lines 1042-1086: the stability-interval rule and the accumulators,
    after a segment has been generated. *)
Definition after_segment (stable_mode_interval : Z) (st : loop_state)
    (full_generation : history_prompt_dict) (audio_arr : audio) : M control :=
  let base_history :=
    match base_history st with
    | None => full_generation
    | Some b => b
    end in
  _ ← emit (EvStableModeInterval (stable_mode_interval_counter st) stable_mode_interval);
  let accumulate (previous : string) (next : history_prompt_dict) (counter : option Z) :=
    let silence : list audio :=
      if (0 <? add_silence_between_segments (opts (kw st)))%float then
        [replicate
           (Z.to_nat (py_int (add_silence_between_segments (opts (kw st)) * SAMPLE_RATE)))
           0%float]
      else [] in
    mret (Continue
            (LoopState (set_previous_segment_type previous (kw st)) (Some next)
               (Some base_history) counter (history_prompt_flipper st)
               (full_generation_segments st ++ [full_generation])
               (audio_arr_segments st ++ [audio_arr] ++ silence))) in
  if stable_mode_interval =? 0 then
    accumulate "full_generation"%string full_generation (stable_mode_interval_counter st)
  else if stable_mode_interval =? 1 then
    accumulate "base_history"%string base_history (stable_mode_interval_counter st)
  else if 2 <=? stable_mode_interval then
    match stable_mode_interval_counter st with
    | Some counter =>
        if counter =? 1 then
          _ ← emit (EvResetToBase stable_mode_interval);
          accumulate "base_history"%string base_history (Some stable_mode_interval)
        else
          accumulate "full_generation"%string full_generation (Some (counter - 1))
    | None => raise TypeError
    end
  else
    _ ← emit (EvStableModeError stable_mode_interval);
    mret (Return None).

(** The body of the loop over the segments. *)
Definition segment_body (stable_mode_interval : Z) (dry_run : bool)
    (i : nat) (segment_text : string) (st : loop_state) : M control :=
  let segment_text :=
    match prompt_text_prefix (opts (kw st)) with
    | Some prefix => prefix +:+ " " +:+ segment_text
    | None => segment_text
    end in
  let segment_number := Z.of_nat i + 1 in
  let st :=
    LoopState (set_segment_number (SegNumber segment_number)
                 (set_text_prompt segment_text (kw st)))
      (history_prompt_for_next_segment st) (base_history st)
      (stable_mode_interval_counter st) (history_prompt_flipper st)
      (full_generation_segments st) (audio_arr_segments st) in
  if dry_run then mret (Continue st)
  else
    st ← select_history_prompt st;
    cancel ← read_gradio_try_to_cancel;
    if cancel : bool then
      _ ← set_done_cancelling true;
      _ ← emit EvCancelled;
      mret (Return None)
    else
      _ ← emit (EvGenerateAudioBarki segment_text (kw st));
      out ← generate_audio_barki segment_text (kw st);
      _ ← emit (EvBarkiReturned out);
      match out with
      | Audio _ => raise ValueError
      | Pair full_generation audio_arr =>
          cancel ← read_gradio_try_to_cancel;
          match cancel, full_generation, audio_arr with
          | false, Some full_generation, Some audio_arr =>
              after_segment stable_mode_interval st full_generation audio_arr
          | _, _, _ =>
              _ ← set_done_cancelling true;
              _ ← emit EvCancelled;
              mret (Return None)
          end
      end.

(** Lines 904-1109: the run once the base history prompt is settled. *)
Definition generate_audio_long_segments (stable_mode_interval : Z)
    (stable_mode_interval_counter : option Z) (dry_run_local : bool)
    (audio_segments : list string) (kwargs : kwargs)
    (base_history : option history_prompt_dict) : M long_result :=
  _ ← (if hoarder_mode (opts kwargs)
          && negb (String.eqb (default "" (history_prompt_string kwargs)) "")
       then emit (EvWriteOneSegment (Some SegBaseHistory) None base_history)
       else mret ());
  let kwargs :=
    if hoarder_mode (opts kwargs)
       && negb (String.eqb (default "" (history_prompt_string kwargs)) "")
    then set_segment_number SegBaseHistory kwargs else kwargs in
  let kwargs := set_output_full true kwargs in
  let kwargs := set_total_segments (Z.of_nat (length audio_segments)) kwargs in
  c ← for_each_segment (segment_body stable_mode_interval dry_run_local) 0 audio_segments
        (LoopState kwargs base_history base_history stable_mode_interval_counter
           false [] []);
  match c with
  | Return r => mret r
  | Continue st =>
      cancel ← read_gradio_try_to_cancel;
      if cancel : bool then
        _ ← set_done_cancelling true;
        _ ← emit EvCancelled;
        mret None
      else
        let kwargs := set_segment_number SegFinal (kw st) in
        let final_filename_will_be := determine_output_filename kwargs in
        if negb (dry_run (opts kwargs)) then
          match audio_arr_segments st, full_generation_segments st with
          | [], _ => raise ValueError
          | _, [] => raise IndexError
          | _ :: _, first :: _ =>
              _ ← emit (EvWriteOneSegment (Some SegFinal)
                          (Some (concat (audio_arr_segments st))) (Some first));
              mret (Some (full_generation_segments st, audio_arr_segments st,
                          final_filename_will_be))
          end
        else
          mret (Some (full_generation_segments st, audio_arr_segments st,
                      final_filename_will_be))
  end.

Definition generate_audio_long (fs : filesystem) (kwargs : kwargs) : M long_result :=
  let history_prompt := history_prompt kwargs in
  let kwargs := set_history_prompt None kwargs in
  let stable_mode_interval := default 1 (stable_mode_interval (opts kwargs)) in
  let stable_mode_interval :=
    if stable_mode_interval <? 0 then 0 else stable_mode_interval in
  let stable_mode_interval_counter :=
    if 2 <=? stable_mode_interval then Some stable_mode_interval else None in
  (* the local [dry_run], which [text_splits_only] forces *)
  let dry_run_local := dry_run (opts kwargs) || text_splits_only (opts kwargs) in
  _ ← emit (EvChunkUpText (text_prompt kwargs));
  let audio_segments :=
    if bool_decide (is_Some (group_text_by_counting (opts kwargs)))
       && bool_decide (is_Some (process_text_by_each (opts kwargs)))
    then chunk_up_text_prev kwargs else chunk_up_text kwargs in
  if text_splits_only (opts kwargs) then mret None
  else
    match history_prompt with
    | None =>
        generate_audio_long_segments stable_mode_interval stable_mode_interval_counter
          dry_run_local audio_segments kwargs None
    | Some (HPDict _) => raise TypeError
    | Some (HPName history_prompt_string) =>
        resolved ← lift (process_history_prompt fs (Some history_prompt_string));
        match resolved with
        | Some path =>
            base_history ← lift (np_load fs path);
            let kwargs := set_history_prompt_string (Some history_prompt_string) kwargs in
            let kwargs := set_previous_segment_type "base_history" kwargs in
            generate_audio_long_segments stable_mode_interval
              stable_mode_interval_counter dry_run_local audio_segments kwargs
              (Some base_history)
        | None =>
            _ ← emit (EvSpeakerNotFound history_prompt_string);
            _ ← set_gradio_try_to_cancel true;
            _ ← set_done_cancelling true;
            mret None
        end
    end.

End controller.

(** * Specification vocabulary

    The words of the claims: properties of paths, of bundles and of logs,
    the invariants of the loop, and a weakest-precondition predicate for
    runs of the monad. *)

Section vocabulary.
Context `{External}.

Local Open Scope nat_scope.

Definition candidate (name ext : string) (counter : nat) : string :=
  name +:+ "_" +:+ pretty counter +:+ ext.

(** The file name looked for: the name as given, with [.npz] when it has no
    extension. *)
Definition prompt_file_name (user_history_prompt : string) : string :=
  let '(file_name, file_extension) := ospath.splitext user_history_prompt in
  file_name +:+ (if String.eqb file_extension "" then ".npz"%string else file_extension).

(** The configured directories that contain the file, in configured order. *)
Definition directories_with (fs : filesystem) (file : string) : list string :=
  filter (λ directory, path_exists fs (ospath.join directory file) = true)
         VALID_HISTORY_PROMPT_DIRS.

(** C4 as the spec words it: the first directory that has the file wins. *)
Definition first_match_wins (fs : filesystem) (user_history_prompt : string) : Prop :=
  ospath.dirname (prompt_file_name user_history_prompt) = ""%string →
  ∀ directory,
    head (directories_with fs (prompt_file_name user_history_prompt)) = Some directory →
    process_history_prompt fs (Some user_history_prompt)
    = Ok (Some (ospath.join directory (prompt_file_name user_history_prompt))).

Local Open Scope Z_scope.

(** All values lie in [[0, bound)]. *)
Definition in_range (bound : Z) (a : ndarray) : Prop :=
  Forall (λ v, 0 ≤ v < bound) (data a).

(** The test of the coarse report on the two lengths. *)
Definition coarse_ratio_ok (cols n : nat) : bool :=
  PrimFloat.eqb
    (py_round1 (float_of_nat cols / float_of_nat n)%float)
    (py_round1 (semantic_to_coarse_ratio / float_of_nat N_COARSE_CODEBOOKS)%float).

Definition semantic_ok (s : ndarray) : Prop :=
  ∃ n, shape s = [n] ∧ (0 < n)%nat ∧ in_range SEMANTIC_VOCAB_SIZE s.

(** The second half of [generate_coarse_report]: the checks of the coarse
    array, entered with the report of the checks of the semantic array. *)
Definition coarse_checks (semantic_history coarse_history : ndarray)
    (token_samples : nat) : report → result report := λ report,
  match shape coarse_history with
  | [rows; cols] =>
      if negb (rows =? N_COARSE_CODEBOOKS)%nat then
        Ok (fail report [MsgRows N_COARSE_CODEBOOKS rows])
      else if (arr_size coarse_history =? 0)%nat then Ok (fail report [MsgEmpty])
      else
        lo ← arr_min coarse_history;
        report ←
          (if lo <? 0 then
             flat ← arr_argmin coarse_history;
             let indices := ((flat / cols)%nat, (flat mod cols)%nat) in
             let surrounding :=
               slice0 (indices.2 - token_samples)
                      (Nat.min cols (indices.2 + token_samples)) coarse_history in
             Ok (fail report
                   [MsgMinimum lo; MsgSurroundingInRow indices.1 surrounding])
           else
             hi ← arr_max coarse_history;
             if CODEBOOK_SIZE <=? hi then
               flat ← arr_argmax coarse_history;
               let indices := ((flat / cols)%nat, (flat mod cols)%nat) in
               let surrounding :=
                 slice0 (indices.2 - token_samples)
                        (Nat.min cols (indices.2 + token_samples)) coarse_history in
               Ok (fail report
                     [MsgMaximum CODEBOOK_SIZE hi;
                      MsgSurroundingInRow indices.1 surrounding])
             else Ok report);
        n ← arr_len semantic_history;
        quotient ← py_truediv cols n;
        let ratio := py_round1 quotient in
        let expected :=
          py_round1 (semantic_to_coarse_ratio / float_of_nat N_COARSE_CODEBOOKS)%float in
        if negb (PrimFloat.eqb ratio expected) then
          Ok (fail report [MsgRatio expected ratio])
        else Ok report
  | shp => Ok (fail report [MsgNot2d shp])
  end.

Definition coarse_ok (s c : ndarray) : Prop :=
  ∃ n rest cols,
    shape s = n :: rest ∧ shape c = [N_COARSE_CODEBOOKS; cols] ∧ (0 < cols)%nat ∧
    in_range CODEBOOK_SIZE c ∧ n ≠ 0%nat ∧ coarse_ratio_ok cols n = true.

Definition fine_ok (f : ndarray) : Prop :=
  ∃ cols, shape f = [N_FINE_CODEBOOKS; cols] ∧ (0 < cols)%nat ∧ in_range CODEBOOK_SIZE f.

(** C7 as the spec words it. *)
Definition valid_by_the_spec (d : history_prompt_dict) : Prop :=
  ∃ s c f n T,
    d !! "semantic_prompt"%string = Some s ∧ d !! "coarse_prompt"%string = Some c ∧
    d !! "fine_prompt"%string = Some f ∧
    shape s = [n] ∧ in_range SEMANTIC_VOCAB_SIZE s ∧
    shape c = [N_COARSE_CODEBOOKS; T] ∧ in_range CODEBOOK_SIZE c ∧
    shape f = [N_FINE_CODEBOOKS; T] ∧ in_range CODEBOOK_SIZE f.

Local Open Scope nat_scope.

Inductive stage : Type := StSemantic | StCoarse | StFine | StDecode.

Definition stage_of (e : event) : option stage :=
  match e with
  | EvGenerateTextSemantic _ _ => Some StSemantic
  | EvGenerateCoarse _ _ => Some StCoarse
  | EvGenerateFine _ _ => Some StFine
  | EvCodecDecode _ => Some StDecode
  | _ => None
  end.

(** The stages that have run when the [j]-th test of the flag inside
    [generate_audio_barki] is reached (the flag is tested twice in a row
    between the semantic and the coarse stage). *)
Definition stages_before (j : nat) : list stage :=
  match j with
  | 0 => []
  | 1 | 2 => [StSemantic]
  | 3 => [StSemantic; StCoarse]
  | 4 => [StSemantic; StCoarse; StFine]
  | _ => [StSemantic; StCoarse; StFine; StDecode]
  end.

(** What [generate_audio_barki] may add to the log: calls of the stages, and
    the hoarder-mode write of the finished segment under its own number. *)
Definition pipeline_event (tag : option segment_tag) (e : event) : Prop :=
  is_Some (stage_of e) ∨ ∃ audio_arr full_generation, e = EvWriteOneSegment tag audio_arr full_generation.

(** From [w] to [w']: the module's own flag is untouched, the log grows by
    [evs], and flag reads are only added. *)
Definition extends (w w' : world) (evs : list event) : Prop :=
  gradio_try_to_cancel w' = gradio_try_to_cancel w ∧
  flag_reads w ≤ flag_reads w' ∧
  log w' = log w ++ evs.

Definition no_flag_between (w : world) (lo hi : nat) : Prop :=
  ∀ n, lo ≤ n < hi → flag_at w n = false.

(** Every call the controller makes carries a segment number, never one of
    the two string tags. *)
Definition numbered (kw : kwargs) : Prop :=
  ∀ tag, segment_number kw = Some tag → ∃ n, tag = SegNumber n.

(** [w] with [evs] appended to its log. *)
Definition logged (w : world) (evs : list event) : world :=
  World (gradio_try_to_cancel w) (done_cancelling w) (flag_reads w) (log w ++ evs).

(** Weakest precondition of a run from [w]. *)
Inductive wp {A} (m : M A) (w : world) (Q : result A → world → Prop) : Prop :=
  | wp_intro : Q (m w).1 (m w).2 → wp m w Q.

Definition is_final_write (e : event) : Prop :=
  ∃ audio_arr full_generation, e = EvWriteOneSegment (Some SegFinal) audio_arr full_generation.

(** The entries [after_segment] writes. *)
Definition bookkeeping_event (e : event) : Prop :=
  match e with
  | EvStableModeInterval _ _ | EvResetToBase _ | EvStableModeError _ => True
  | _ => False
  end.

(** Since [w0]: the module's own flag is untouched, flag reads were only
    added, and the log grew by entries that satisfy [P]. *)
Definition since (P : event → Prop) (w0 w' : world) : Prop :=
  gradio_try_to_cancel w' = gradio_try_to_cancel w0 ∧
  flag_reads w0 ≤ flag_reads w' ∧
  ∃ evs, log w' = log w0 ++ evs ∧ Forall P evs.

Definition not_final_write (e : event) : Prop := ¬ is_final_write e.

(** The post-condition for cancellation: nothing final was written, and
    either no read of the flag saw it set or the run was abandoned. *)
Definition abandoned_or_unflagged {A} (w0 : world) (abandoned : A)
    (r : result A) (w' : world) : Prop :=
  since not_final_write w0 w' ∧
  (no_flag_between w0 (flag_reads w0) (flag_reads w') ∨ r = Ok abandoned).

Definition cancel_post (w : world) (r : result long_result) (w' : world) : Prop :=
  flag_reads w ≤ flag_reads w' ∧
  ∃ evs, log w' = log w ++ evs ∧
         (no_flag_between w (flag_reads w) (flag_reads w')
          ∨ r = Ok None ∧ Forall not_final_write evs).



(** The calls of the pipeline in a log, and the bundles it returned. *)
Definition call_of (e : event) : option kwargs :=
  match e with
  | EvGenerateAudioBarki _ kw => Some kw
  | _ => None
  end.

Definition calls (evs : list event) : list kwargs := omap call_of evs.

Definition output_of (e : event) : option history_prompt_dict :=
  match e with
  | EvBarkiReturned (Pair (Some full_generation) _) => Some full_generation
  | _ => None
  end.

Definition outputs (evs : list event) : list history_prompt_dict := omap output_of evs.

(** C1 on a log: the call for segment [j + 1] is given the base bundle when
    [k] divides [j], and what the call before it returned otherwise. *)
Definition periodic (k : Z) (base : history_prompt_dict) (evs : list event) : Prop :=
  ∀ j kwj,
    calls evs !! j = Some kwj →
    segment_number kwj = Some (SegNumber (Z.of_nat j + 1)) ∧
    if decide ((Z.of_nat j mod k)%Z = 0%Z)
    then history_prompt kwj = Some (HPDict base)
    else ∃ full_generation,
           outputs evs !! (j - 1) = Some full_generation ∧
           history_prompt kwj = Some (HPDict full_generation).



(** The segments the text is split into. *)
Definition audio_segments_of (kwargs : kwargs) : list string :=
  if bool_decide (is_Some (group_text_by_counting (opts kwargs)))
     && bool_decide (is_Some (process_text_by_each (opts kwargs)))
  then chunk_up_text_prev kwargs else chunk_up_text kwargs.






(** C6 as the spec words it: cancelled, the error reported, nothing
    generated, and the text not split. *)
Definition cancelled_before_segmenting (fs : filesystem) (kwargs : kwargs)
    (w : world) : Prop :=
  let run := generate_audio_long fs kwargs w in
  run.1 = Ok None ∧
  (∃ name, EvSpeakerNotFound name ∈ log run.2) ∧
  (∀ text kw, EvGenerateAudioBarki text kw ∉ log run.2) ∧
  (∀ text, EvChunkUpText text ∉ log run.2).

End vocabulary.

Local Open Scope nat_scope.

(** ** Concrete inputs *)

Definition zeros (rows cols : nat) : ndarray :=
  NdArray [rows; cols] (replicate (rows * cols) 0%Z).

Definition bundle (semantic coarse fine : ndarray) : history_prompt_dict :=
  <["semantic_prompt"%string := semantic]>
    (<["coarse_prompt"%string := coarse]> (<["fine_prompt"%string := fine]> ∅)).

(** Two valid speakers, stored under the same name in two directories. *)
Definition speaker_a : history_prompt_dict :=
  bundle (NdArray [2] [0; 0]%Z) (zeros 2 3) (zeros 8 3).
Definition speaker_b : history_prompt_dict :=
  bundle (NdArray [2] [1; 1]%Z) (zeros 2 3) (zeros 8 3).

Definition example_files : filesystem :=
  <["dirA/spk.npz"%string := NpzFile speaker_a]>
    (<["dirB/spk.npz"%string := NpzFile speaker_b]> ∅).

(** Coarse and fine of different lengths. *)
Definition mismatched_bundle : history_prompt_dict :=
  bundle (NdArray [2] [0; 0]%Z) (zeros 2 3) (zeros 8 5).

(** An empty semantic array next to a well-shaped coarse array. *)
Definition empty_semantic_bundle : history_prompt_dict :=
  bundle (NdArray [0] []) (zeros 2 3) (zeros 8 3).

(** Stages that tell their inputs apart, a splitter on blanks, and a UI
    that asks to cancel at the flag reads [cancel_at] tells. *)
Definition example_external (cancel_at : nat → bool) : External := {|
  sanitize_filepath := id;
  VALID_HISTORY_PROMPT_DIRS := ["dirA"; "dirB"]%string;
  generate_text_semantic := λ text _, NdArray [2] [Z.of_nat (String.length text); 7%Z];
  generate_coarse := λ _ _, zeros 2 3;
  generate_fine := λ _ _, zeros 8 3;
  codec_decode := λ _, [];
  split_general_purpose := λ text _ _, String.words text;
  split_text := λ text _ _, [text];
  determine_output_filename := λ _, "out.wav"%string;
  cancel_requested := cancel_at |}.

Definition never : nat → bool := λ _, false.

Definition example_options (interval : Z) (separate : bool) : options :=
  Options (Some interval) false false false separate false false false None None
          0%float None None 200 300.

Definition example_kwargs (interval : Z) (separate : bool) (speaker : string) : kwargs :=
  Kwargs (example_options interval separate) (Some (HPName speaker)) None
         "a bb ccc" "" None 1 false.

Definition fresh_world : world := World false false 0 [].

(** A directory where [a/x.wav] and [a/x_1.wav] are taken. *)
Definition taken_files : filesystem :=
  <["a/x.wav"%string := OtherFile]> (<["a/x_1.wav"%string := OtherFile]> ∅).

(** * The rest of the module

    The allocation of a fresh directory, the writers of a segment, the
    loader of a bundle, the report printed for a bundle, the seeding of the
    generators, the resizing of a semantic history and the listing of the
    speakers. *)

(** ** Exceptions and numbers

    [AssertionError] and [OverflowError], which the code above does not
    raise. *)

Inductive exception : Type :=
  | Exn (e : exn)
  | AssertionError
  | OverflowError.

Inductive outcome (A : Type) : Type :=
  | Returns (a : A)
  | Throws (e : exception).
Arguments Returns {A} a.
Arguments Throws {A} e.

Global Instance outcome_ret : MRet outcome := λ A a, Returns a.
Global Instance outcome_bind : MBind outcome := λ A B k r,
  match r with
  | Returns a => k a
  | Throws e => Throws e
  end.

Definition of_result {A} (r : result A) : outcome A :=
  match r with
  | Ok a => Returns a
  | Raise e => Throws (Exn e)
  end.

(** [float(z)] for a Python int: the nearest binary64 number, and
    [OverflowError] when there is none. *)
Definition py_float (z : Z) : outcome float :=
  match SpecFloat.binary_normalize prec emax z 0 false with
  | S754_infinity _ => Throws OverflowError
  | x => Returns (SF2Prim x)
  end.

(** [int(x)] for a float: truncation toward zero; a NaN and the infinities
    have no integer. *)
Definition py_int_of_float (x : float) : outcome Z :=
  match Prim2SF x with
  | S754_nan => Throws (Exn ValueError)
  | S754_infinity _ => Throws OverflowError
  | _ => Returns (py_int x)
  end.

(** [s.endswith(suffix)] *)
Definition endswith (s suffix : string) : bool :=
  (String.length suffix <=? String.length s)
  && String.eqb (substring (String.length s - String.length suffix)
                   (String.length suffix) s) suffix.

(** ** A fresh directory

    A directory is an entry of the file system like any other path. *)

Section unique_dirs.
Context `{External}.

(** The [while os.path.exists(unique_dirpath)] loop; [fuel] bounds the
    number of tests of the condition. *)
Fixpoint unique_dirpath_loop (fs : filesystem) (parent_dir base_name : string)
    (fuel : nat) (unique_dirpath : string) (counter : nat) : option string :=
  match fuel with
  | O => None
  | S fuel' =>
      if path_exists fs unique_dirpath then
        unique_dirpath_loop fs parent_dir base_name fuel'
          (ospath.join parent_dir (base_name +:+ "_" +:+ pretty counter)) (S counter)
      else Some unique_dirpath
  end.

Definition generate_unique_dirpath (fs : filesystem) (dirpath : string)
  : option string :=
  let unique_dirpath := sanitize_filepath dirpath in
  let base_name := ospath.basename dirpath in
  let parent_dir := ospath.dirname dirpath in
  unique_dirpath_loop fs parent_dir base_name (S (S (size fs))) unique_dirpath 1.

End unique_dirs.

(** ** Writing a segment to disk

    Files come and go in the file system; parent directories are taken to
    exist and the encoders to succeed.  A loop that runs out of fuel has no
    result. *)

Definition IO (A : Type) : Type := filesystem → option (result A * filesystem).

Global Instance IO_ret : MRet IO := λ A a fs, Some (Ok a, fs).
Global Instance IO_bind : MBind IO := λ A B k m fs,
  match m fs with
  | Some (Ok a, fs') => k a fs'
  | Some (Raise e, fs') => Some (Raise e, fs')
  | None => None
  end.

Definition io_lift {A} (r : result A) : IO A := λ fs, Some (r, fs).

(** Creating or replacing the file at [p]. *)
Definition write_file (p : string) (content : file) : IO unit := λ fs,
  Some (Ok (), <[p := content]> fs).

(** [os.remove(p)] *)
Definition os_remove (p : string) : IO unit := λ fs,
  if path_exists fs p then Some (Ok (), delete p fs) else Some (Raise OSError, fs).

(** [np.savez(file, ...)]: the name gets [.npz] when it does not end in it. *)
Definition np_savez (file : string) (arrays : history_prompt_dict) : IO unit :=
  write_file (if endswith file ".npz" then file else file +:+ ".npz") (NpzFile arrays).

(** [scipy.io.wavfile.write(filename, rate, data)] *)
Definition write_wav (filename : string) (rate : float) (data : audio) : IO unit :=
  write_file filename OtherFile.

(** [AudioSegment.from_wav(p)] reads the file at [p]. *)
Definition from_wav (p : string) : IO unit := λ fs,
  if path_exists fs p then Some (Ok (), fs) else Some (Raise OSError, fs).

(** [audio.export(p, format=...)] *)
Definition export (p format : string) : IO unit := write_file p OtherFile.

(** The entries of [**kwargs] that only the writers read, each with its
    default when absent. *)
Record writer_options : Type := WriterOptions {
  always_save_speaker : bool;            (* default [True] *)
  output_format : option string;         (* default [None] *)
  special_one_off_path : option string;  (* default [None] *)
  output_dir : option string;            (* default [None] *)
}.

(** What [determine_output_filename] reads besides the file system. *)
Class Disk : Type := {
  (* lines 299-341: the file name made from the text, the speaker, the
     clock, the segment number and the format *)
  base_output_filename : kwargs → writer_options → string;
  (* os.makedirs(p, exist_ok=True) *)
  os_makedirs : string → IO unit;
}.

Section writers.
Context `{External} `{Disk}.

Definition unique_filepath (filepath : string) : IO string := λ fs,
  p ← generate_unique_filepath fs filepath; Some (Ok p, fs).

(** Lines 291-351, with what they do to the disk: the output directory is
    made and a free name allocated in it, in a dry run too.  The controller
    above uses the name only, and has it from [External]. *)
Definition determine_output_filename_on_disk (kw : kwargs) (wo : writer_options)
  : IO string :=
  if negb (String.eqb (default "" (special_one_off_path wo)) "") then
    mret (sanitize_filepath (default "" (special_one_off_path wo)))
  else
    let base_output_filename := base_output_filename kw wo in
    output_dir ← io_lift (match output_dir wo with
                          | Some output_dir => Ok output_dir
                          | None => Raise TypeError
                          end);
    let output_filepath := ospath.join output_dir base_output_filename in
    _ ← os_makedirs output_dir;
    unique_filepath output_filepath.

(** [kwargs.get("segment_number", 1) == "base_history"] *)
Definition is_base_history (kw : kwargs) : bool :=
  match segment_number kw with
  | Some SegBaseHistory => true
  | _ => false
  end.

Definition log_params (log_filepath : string) (kw : kwargs) : IO unit :=
  log_filepath ← unique_filepath log_filepath;
  write_file log_filepath OtherFile.

Definition write_seg_npz (filepath : string) (full_generation : history_prompt_dict)
    (kw : kwargs) (wo : writer_options) : IO unit :=
  let filepath :=
    if is_base_history kw then filepath +:+ "_initial_prompt.npz" else filepath in
  if negb (dry_run (opts kw)) && always_save_speaker wo then
    filepath ← unique_filepath filepath;
    if bool_decide (is_Some (full_generation !! "semantic_prompt")) then
      semantic_prompt ← io_lift (getitem full_generation "semantic_prompt");
      coarse_prompt ← io_lift (getitem full_generation "coarse_prompt");
      fine_prompt ← io_lift (getitem full_generation "fine_prompt");
      np_savez filepath (bundle semantic_prompt coarse_prompt fine_prompt)
    else mret ()
  else mret ().

Definition write_audiofile (output_filepath : string) (audio_arr : audio)
    (kw : kwargs) (wo : writer_options) : IO unit :=
  output_filepath ← unique_filepath output_filepath;
  let dry_run := dry_run (opts kw) in
  let output_format := default "mp3"%string (output_format wo) in
  if bool_decide (output_format ∈ ["mp3"; "ogg"; "flac"; "mp4"]%string) then
    (* not an f-string: the name is this text as it stands *)
    let temp_wav := "{output_filepath}.tmp.wav"%string in
    _ ← (if negb dry_run then write_wav temp_wav SAMPLE_RATE audio_arr else mret ());
    if negb dry_run then
      _ ← from_wav temp_wav;
      _ ← export output_filepath output_format;
      os_remove temp_wav
    else mret ()
  else
    if negb dry_run then write_wav output_filepath SAMPLE_RATE audio_arr else mret ().

Definition write_seg_wav (filepath : string) (audio_arr : audio)
    (kw : kwargs) (wo : writer_options) : IO unit :=
  if negb (dry_run (opts kw)) then
    filepath ← unique_filepath filepath;
    write_audiofile filepath audio_arr kw wo
  else mret ().

Definition write_one_segment (audio_arr : option audio)
    (full_generation : option history_prompt_dict)
    (kw : kwargs) (wo : writer_options) : IO unit :=
  filepath ← determine_output_filename_on_disk kw wo;
  _ ← match full_generation with
      | Some full_generation => write_seg_npz filepath full_generation kw wo
      | None => mret ()
      end;
  _ ← match audio_arr with
      | Some audio_arr =>
          if negb (is_base_history kw) then write_seg_wav filepath audio_arr kw wo
          else mret ()
      | None => mret ()
      end;
  if hoarder_mode (opts kw) && negb (dry_run (opts kw))
  then log_params (filepath +:+ "_info.txt") kw
  else mret ().

End writers.

Definition load_npz (fs : filesystem) (filename : string) : result history_prompt_dict :=
  npz_data ← np_load fs filename;
  semantic_prompt ← getitem npz_data "semantic_prompt";
  coarse_prompt ← getitem npz_data "coarse_prompt";
  fine_prompt ← getitem npz_data "fine_prompt";
  Ok (bundle semantic_prompt coarse_prompt fine_prompt).

(** ** The printed report of a bundle *)

(** The lines [history_prompt_detailed_report] prints. *)
Inductive line : Type :=
  | LineLoadError (e : exn)                       (* Error: ... *)
  | LineSection (name : string)                   (*   Semantic: *)
  | LineValid                                     (* valid *)
  | LineFailed                                    (* history_prompt failed the following checks: *)
  | LineCheck (i : nat) (m : message)             (*   Error i: ... *)
  | LineReportError (name : string) (e : exn).    (* Error generating ... Report: ... *)

Definition display_history_prompt_report (report : report) : list line :=
  if valid report then [LineValid]
  else LineFailed :: imap (λ i message, LineCheck (S i) message) (messages report).

(** Each report is printed inside its own [try]; the name of the file is
    looked for in what [_load_history_prompt] returned, which is a dict. *)
Definition history_prompt_detailed_report (fs : filesystem)
    (history_prompt : history_prompt_value) (token_samples : nat) : list line :=
  match _load_history_prompt fs history_prompt with
  | Raise e => [LineLoadError e]
  | Ok history_prompt =>
      (match generate_text_semantic_report history_prompt token_samples with
       | Ok text_semantic_report =>
           LineSection "Semantic" :: display_history_prompt_report text_semantic_report
       | Raise e => [LineReportError "Text Semantic" e]
       end)
      ++ (match generate_coarse_report history_prompt token_samples with
          | Ok coarse_report =>
              LineSection "Coarse" :: display_history_prompt_report coarse_report
          | Raise e => [LineReportError "Coarse" e]
          end)
      ++ (match generate_fine_report history_prompt token_samples with
          | Ok fine_report =>
              LineSection "Fine" :: display_history_prompt_report fine_report
          | Raise e => [LineReportError "Fine" e]
          end)
  end.

(** ** Seeding the generators *)

(** The switches and seeds [set_seed] assigns to. *)
Record seeds : Type := Seeds {
  cudnn_deterministic : bool;
  cudnn_benchmark : bool;
  CUBLAS_WORKSPACE_CONFIG : option string;
  deterministic_algorithms : bool;
  numpy_seed : option Z;
  random_seed : option Z;
  torch_seed : option Z;
  cuda_seed : option Z;
  PYTHONHASHSEED : option string;
}.

(** [drawn] is what [np.random.default_rng().integers(1, 2**32 - 1)]
    returns when it is called: a [numpy.int64].  [np.random.seed] takes it;
    [random.seed] seeds with its hash, which is its value, before Python
    3.11, and from 3.11 on raises [TypeError] for a seed that is not an
    [int], [float], [str], [bytes] or [bytearray]: [strict] tells which of
    the two [random.seed] it is. *)
Definition set_seed (strict : bool) (drawn : Z) (seed : Z) (st : seeds)
  : outcome Z * seeds :=
  let original_seed := seed in
  let st :=
    if (seed =? -1)%Z then
      Seeds false true None false
            (numpy_seed st) (random_seed st) (torch_seed st) (cuda_seed st)
            (PYTHONHASHSEED st)
    else
      Seeds true false (Some ":4096:8"%string) true
            (numpy_seed st) (random_seed st) (torch_seed st) (cuda_seed st)
            (PYTHONHASHSEED st) in
  let is_numpy_int64 := (seed <=? 0)%Z in
  let seed := if (seed <=? 0)%Z then drawn else seed in
  if negb ((0 <? seed)%Z && (seed <? 2 ^ 32)%Z) then (Throws AssertionError, st)
  else
    (* np.random.seed(seed) *)
    let st :=
      Seeds (cudnn_deterministic st) (cudnn_benchmark st) (CUBLAS_WORKSPACE_CONFIG st)
            (deterministic_algorithms st)
            (Some seed) (random_seed st) (torch_seed st) (cuda_seed st)
            (PYTHONHASHSEED st) in
    (* random.seed(seed) *)
    if is_numpy_int64 && strict then (Throws (Exn TypeError), st)
    else
      (Returns (if negb (original_seed =? 0)%Z then original_seed else seed),
       Seeds (cudnn_deterministic st) (cudnn_benchmark st) (CUBLAS_WORKSPACE_CONFIG st)
             (deterministic_algorithms st)
             (numpy_seed st) (Some seed) (Some seed) (Some seed) (Some (pretty seed))).

(** ** Resizing a semantic history *)

Definition SEMANTIC_PAD_TOKEN : Z := 10000.

(** [a[-k:]] along the first axis. *)
Definition last_rows (k : Z) (a : ndarray) : ndarray :=
  match shape a with
  | [] => a
  | n :: _ =>
      let start :=
        if (0 <? k)%Z then Z.to_nat (Z.of_nat n - k) else Z.to_nat (- k) in
      slice0 start n a
  end.

(** [np.pad(a, (0, width), constant_values=c, mode="constant")]: [width]
    values are added at the end of every axis. *)
Fixpoint pad_after (width : nat) (c : Z) (shp : list nat) (d : list Z) : list Z :=
  match shp with
  | [] => d
  | n :: rest =>
      let w := foldr Nat.mul 1 rest in
      let w' := foldr Nat.mul 1 ((λ k, k + width) <$> rest) in
      mjoin ((λ i, pad_after width c rest (take w (drop (i * w) d))) <$> seq 0 n)
      ++ replicate (width * w') c
  end.

Definition np_pad (width : nat) (c : Z) (a : ndarray) : ndarray :=
  NdArray ((λ k, k + width) <$> shape a) (pad_after width c (shape a) (data a)).

(** [a.astype(np.int64)] for an integer array: each value modulo [2^64],
    taken in [-2^63, 2^63). *)
Definition int64 (z : Z) : Z := ((z + 2 ^ 63) mod 2 ^ 64 - 2 ^ 63)%Z.

Definition astype_int64 (a : ndarray) : ndarray :=
  NdArray (shape a) (int64 <$> data a).

Definition resize_semantic_history (semantic_history : ndarray) (weight : float)
    (max_len : Z) : outcome ndarray :=
  max_len ← py_float max_len;
  new_len ← py_int_of_float (max_len * weight)%float;
  let semantic_history := astype_int64 semantic_history in
  n ← of_result (arr_len semantic_history);
  (* Trim *)
  if (new_len <? Z.of_nat n)%Z then Returns (last_rows new_len semantic_history)
  (* Pad *)
  else Returns (np_pad (Z.to_nat (new_len - Z.of_nat n)) SEMANTIC_PAD_TOKEN
                  semantic_history).

(** ** The speakers on disk *)

(** What the listing reads besides the configured directories. *)
Class Speakers : Type := {
  (* os.walk(directory): the triples (root, dirs, files) *)
  os_walk : string → list (string * list string * list string);
  (* generation.SUPPORTED_LANGS: the pairs (lang, code) *)
  SUPPORTED_LANGS : list (string * string);
}.

Definition is_lower (a : ascii) : bool :=
  let n := nat_of_ascii a in (97 <=? n) && (n <=? 122).

(** [re.match(r"^([a-z]{2})_.*", filename)]: its first group when it
    matches. *)
Definition match_lang_code (filename : string) : option string :=
  match filename with
  | String a (String b (String c _)) =>
      if is_lower a && is_lower b && Ascii.eqb c "_"
      then Some (String a (String b EmptyString)) else None
  | _ => None
  end.

(** [d[key].append(x)] on a [defaultdict(list)] *)
Definition append_at (key x : string) (d : gmap string (list string))
  : gmap string (list string) :=
  <[key := default [] (d !! key) ++ [x]]> d.

Section speakers.
Context `{External} `{Speakers}.

Definition LANG_CODE_DICT : gmap string string :=
  foldl (λ d '(lang, code), <[code := lang]> d) ∅ SUPPORTED_LANGS.

Definition gather_speakers (directory : string)
  : gmap string (list string) * list string :=
  foldl (λ acc '(root, dirs, files),
           foldl (λ '(speakers, unsupported_files) filename,
                    if endswith filename ".npz" then
                      match match_lang_code filename with
                      | Some code =>
                          if bool_decide (is_Some (LANG_CODE_DICT !! code))
                          then (append_at code (ospath.join root filename) speakers,
                                unsupported_files)
                          else (speakers,
                                unsupported_files ++ [ospath.join root filename])
                      | None =>
                          (speakers, unsupported_files ++ [ospath.join root filename])
                      end
                    else (speakers, unsupported_files))
                 acc files)
        (∅, []) (os_walk directory).

(** [all_speakers.update(speakers)] puts the lists of [speakers] in the
    place of the ones [all_speakers] had under the same codes.  The call of
    [print_speakers] prints what is returned and is left out. *)
Definition list_speakers : gmap string (list string) * list string :=
  foldl (λ '(all_speakers, all_unsupported_files) directory,
           let '(speakers, unsupported_files) := gather_speakers directory in
           (speakers ∪ all_speakers, all_unsupported_files ++ unsupported_files))
        (∅, []) VALID_HISTORY_PROMPT_DIRS.

End speakers.

(** ** Vocabulary for the rest of the module *)

(** A report carries a message exactly when it is not valid. *)
Definition coherent (r : result report) : Prop :=
  match r with
  | Ok r => valid r = true ↔ messages r = []
  | Raise _ => True
  end.

(** What a report says, its messages left aside. *)
Definition verdict (r : result report) : result bool :=
  match r with
  | Ok r => Ok (valid r)
  | Raise e => Raise e
  end.

(** The report printed for a bundle that passes every check. *)
Definition all_valid : list line :=
  [LineSection "Semantic"; LineValid; LineSection "Coarse"; LineValid;
   LineSection "Fine"; LineValid].

(** The path tried for a directory at [counter]. *)
Definition dir_candidate (dirpath : string) (counter : nat) : string :=
  ospath.join (ospath.dirname dirpath)
    (ospath.basename dirpath +:+ "_" +:+ pretty counter).

(** The name [np.savez] writes under. *)
Definition npz_name (file : string) : string :=
  if endswith file ".npz" then file else file +:+ ".npz".

(** The name of the temporary file of [write_audiofile]. *)
Definition temp_wav : string := "{output_filepath}.tmp.wav".

Definition export_formats : list string := ["mp3"; "ogg"; "flac"; "mp4"]%string.

(** [int(max_len * weight)] *)
Definition target_length (weight : float) (max_len : Z) : outcome Z :=
  max_len ← py_float max_len; py_int_of_float (max_len * weight)%float.

(** The four generators are seeded with [s]. *)
Definition seeded_with (s : Z) (st : seeds) : Prop :=
  numpy_seed st = Some s ∧ random_seed st = Some s ∧ torch_seed st = Some s ∧
  cuda_seed st = Some s ∧ PYTHONHASHSEED st = Some (pretty s).

Section speaker_vocabulary.
Context `{External} `{Speakers}.

(** The language a file name is filed under: its two-letter prefix when
    that is the code of a supported language. *)
Definition language_of (filename : string) : option string :=
  code ← match_lang_code filename;
  if bool_decide (is_Some (LANG_CODE_DICT !! code)) then Some code else None.

(** The [.npz] files below [directory], each with the directory it is in,
    in the order of the walk. *)
Definition npz_files (directory : string) : list (string * string) :=
  '(root, dirs, files) ← os_walk directory;
  filename ← files;
  if endswith filename ".npz" then [(root, filename)] else [].

(** The paths of the files of [directory] that are filed under [language]. *)
Definition paths_under (language : option string) (directory : string) : list string :=
  (λ '(root, filename), ospath.join root filename)
    <$> filter (λ '(root, filename), language_of filename = language) (npz_files directory).

(** The configured directories that have a speaker of language [code]. *)
Definition directories_speaking (code : string) : list string :=
  filter (λ directory, paths_under (Some code) directory ≠ []) VALID_HISTORY_PROMPT_DIRS.

(** What the body of the inner loop does with one file name. *)
Definition file_one (root : string) (acc : gmap string (list string) * list string)
    (filename : string) : gmap string (list string) * list string :=
  let '(speakers, unsupported_files) := acc in
  if endswith filename ".npz" then
    match match_lang_code filename with
    | Some code =>
        if bool_decide (is_Some (LANG_CODE_DICT !! code))
        then (append_at code (ospath.join root filename) speakers, unsupported_files)
        else (speakers, unsupported_files ++ [ospath.join root filename])
    | None => (speakers, unsupported_files ++ [ospath.join root filename])
    end
  else (speakers, unsupported_files).

(** The paths of the entries filed under [language]. *)
Definition filed (language : option string) (entries : list (string * string)) : list string :=
  (λ '(root, filename), ospath.join root filename)
    <$> filter (λ '(root, filename), language_of filename = language) entries.

End speaker_vocabulary.

Section controller_vocabulary.
Context `{External}.

(** The bundle a run starts from: none when no speaker is named, the bundle
    of the resolved file otherwise. *)
Definition loaded (fs : filesystem) (kwargs : kwargs)
    (initial : option history_prompt_dict) : Prop :=
  match history_prompt kwargs with
  | None => initial = None
  | Some (HPName name) =>
      ∃ path base, process_history_prompt fs (Some name) = Ok (Some path) ∧
                   np_load fs path = Ok base ∧ initial = Some base
  | Some (HPDict _) => False
  end.

(** [stable_mode_interval] as the controller settles it. *)
Definition interval_of (kwargs : kwargs) : Z :=
  let k := default 1%Z (stable_mode_interval (opts kwargs)) in
  if (k <? 0)%Z then 0%Z else k.

(** The text handed to the pipeline for a segment. *)
Definition prefixed (kw : kwargs) (segment_text : string) : string :=
  match prompt_text_prefix (opts kw) with
  | Some prefix => prefix +:+ " " +:+ segment_text
  | None => segment_text
  end.

(** The state with which the body of the loop reaches line 972. *)
Definition entering (i : nat) (segment_text : string) (st : loop_state) : loop_state :=
  LoopState (set_segment_number (SegNumber (Z.of_nat i + 1))
               (set_text_prompt (prefixed (kw st) segment_text) (kw st)))
    (history_prompt_for_next_segment st) (base_history st)
    (stable_mode_interval_counter st) (history_prompt_flipper st)
    (full_generation_segments st) (audio_arr_segments st).

(** The silence [after_segment] appends after the audio of each segment. *)
Definition silence_of (kw : kwargs) : list audio :=
  if (0 <? add_silence_between_segments (opts kw))%float then
    [replicate (Z.to_nat (py_int (add_silence_between_segments (opts kw) * SAMPLE_RATE)))
       0%float]
  else [].

(** Lines 1082-1086: the silence appended after the audio of a segment, as
    the code builds it; [int] raises for a product that is infinite. *)
Definition silence_after (kw : kwargs) : outcome (list audio) :=
  let add_silence_between_segments := add_silence_between_segments (opts kw) in
  if (0 <? add_silence_between_segments)%float then
    n ← py_int_of_float (add_silence_between_segments * SAMPLE_RATE)%float;
    Returns [replicate (Z.to_nat n) 0%float]
  else Returns [].

(** The audio of the segments, each followed by [silence]. *)
Definition each_followed_by (silence : list audio) (l : list audio) : list audio :=
  audio_arr ← l; audio_arr :: silence.

(** What the stability rule leaves for the next segment. *)
Definition base_after (st : loop_state) (full_generation : history_prompt_dict)
  : history_prompt_dict :=
  default full_generation (base_history st).

Definition back_to_base (interval : Z) (st : loop_state) : bool :=
  (interval =? 1)%Z
  || (2 <=? interval)%Z && bool_decide (stable_mode_interval_counter st = Some 1%Z).

Definition state_after (interval : Z) (st : loop_state)
    (full_generation : history_prompt_dict) (audio_arr : audio) : loop_state :=
  LoopState
    (set_previous_segment_type
       (if back_to_base interval st then "base_history" else "full_generation")%string
       (kw st))
    (Some (if back_to_base interval st then base_after st full_generation
           else full_generation))
    (Some (base_after st full_generation))
    (if (2 <=? interval)%Z
     then (λ counter, if (counter =? 1)%Z then interval else (counter - 1)%Z)
            <$> stable_mode_interval_counter st
     else stable_mode_interval_counter st)
    (history_prompt_flipper st)
    (full_generation_segments st ++ [full_generation])
    (audio_arr_segments st ++ [audio_arr] ++ silence_of (kw st)).

(** Lines 1097-1109: what follows the loop. *)
Definition finish (st : loop_state) : M long_result :=
  cancel ← read_gradio_try_to_cancel;
  if cancel : bool then
    _ ← set_done_cancelling true;
    _ ← emit EvCancelled;
    mret None
  else
    let kwargs := set_segment_number SegFinal (kw st) in
    let final_filename_will_be := determine_output_filename kwargs in
    if negb (dry_run (opts kwargs)) then
      match audio_arr_segments st, full_generation_segments st with
      | [], _ => raise ValueError
      | _, [] => raise IndexError
      | _ :: _, first :: _ =>
          _ ← emit (EvWriteOneSegment (Some SegFinal)
                      (Some (concat (audio_arr_segments st))) (Some first));
          mret (Some (full_generation_segments st, audio_arr_segments st,
                      final_filename_will_be))
      end
    else
      mret (Some (full_generation_segments st, audio_arr_segments st,
                  final_filename_will_be)).

(** What the log holds when the loop is entered. *)
Definition prelude_event (e : event) : Prop :=
  match e with
  | EvChunkUpText _ | EvWriteOneSegment (Some SegBaseHistory) None _ => True
  | _ => False
  end.

(** The state with which the loop is entered. *)
Definition starts_from (kwargs : kwargs) (initial : option history_prompt_dict)
    (st : loop_state) : Prop :=
  opts (kw st) = opts kwargs ∧ output_full (kw st) = true ∧
  total_segments (kw st) = Z.of_nat (length (audio_segments_of kwargs)) ∧
  history_prompt_for_next_segment st = initial ∧ base_history st = initial ∧
  stable_mode_interval_counter st
  = (if (2 <=? interval_of kwargs)%Z then Some (interval_of kwargs) else None) ∧
  history_prompt_flipper st = false ∧
  full_generation_segments st = [] ∧ audio_arr_segments st = [].

(** The audio the pipeline returned, call by call. *)
Definition audio_of (e : event) : option audio :=
  match e with
  | EvBarkiReturned (Pair (Some _) (Some audio_arr)) => Some audio_arr
  | _ => None
  end.

Definition audios (evs : list event) : list audio := omap audio_of evs.

(** What every iteration keeps of the state and of the world. *)
Definition running (w : world) (kwargs : kwargs) (st : loop_state) (w' : world) : Prop :=
  gradio_try_to_cancel w' = gradio_try_to_cancel w ∧
  flag_reads w ≤ flag_reads w' ∧
  opts (kw st) = opts kwargs ∧ output_full (kw st) = true ∧
  total_segments (kw st) = Z.of_nat (length (audio_segments_of kwargs)) ∧
  ((2 ≤ interval_of kwargs)%Z → is_Some (stable_mode_interval_counter st)).

(** The audio of the segments with the silence after each. *)
Definition with_silence (kwargs : kwargs) (l : list audio) : list audio :=
  audio_arr ← l; audio_arr :: silence_of kwargs.

(** The accumulators hold what the calls returned so far. *)
Definition collected (w : world) (kwargs : kwargs) (i : nat) (st : loop_state)
    (w' : world) : Prop :=
  done_cancelling w' = done_cancelling w ∧
  ∃ evs, log w' = log w ++ evs ∧
         full_generation_segments st = outputs evs ∧
         audio_arr_segments st = with_silence kwargs (audios evs) ∧
         length (calls evs) = i ∧ length (outputs evs) = i ∧ length (audios evs) = i ∧
         Forall not_final_write evs.

(** The calls of the pipeline in a log, each with its text. *)
Definition call_event_of (e : event) : option (string * kwargs) :=
  match e with
  | EvGenerateAudioBarki text kw => Some (text, kw)
  | _ => None
  end.

Definition call_events (evs : list event) : list (string * kwargs) :=
  omap call_event_of evs.

(** The calls go through the segments in order: call [j] is handed segment
    [j] of the text, with the prefix when there is one, its number [j + 1]
    and the number of segments. *)
Definition in_order (kwargs : kwargs) (evs : list event) : Prop :=
  ∀ j text kwj,
    call_events evs !! j = Some (text, kwj) →
    ∃ segment_text,
      audio_segments_of kwargs !! j = Some segment_text ∧
      text = prefixed kwargs segment_text ∧ text_prompt kwj = text ∧
      segment_number kwj = Some (SegNumber (Z.of_nat j + 1)) ∧
      total_segments kwj = Z.of_nat (length (audio_segments_of kwargs)) ∧
      opts kwj = opts kwargs ∧ output_full kwj = true.

(** Call [j] is conditioned on what [rule] picks from the bundles returned
    before it. *)
Definition follows
    (rule : nat → list history_prompt_dict → option history_prompt_dict)
    (evs : list event) : Prop :=
  ∀ j kwj, calls evs !! j = Some kwj →
           history_prompt kwj = HPDict <$> rule j (outputs evs).

(** Each segment on the output of the one before it. *)
Definition drift (initial : option history_prompt_dict) (j : nat)
    (outs : list history_prompt_dict) : option history_prompt_dict :=
  match j with
  | 0 => initial
  | S j' => outs !! j'
  end.

(** Each segment on the base: the bundle loaded, or else the output of the
    first segment. *)
Definition anchor (initial : option history_prompt_dict) (j : nat)
    (outs : list history_prompt_dict) : option history_prompt_dict :=
  match initial with
  | Some base => Some base
  | None => match j with
            | 0 => None
            | S _ => outs !! 0
            end
  end.

(** Every second call is given no history prompt; the first is given the
    bundle the run starts from and the other odd-numbered segments a bundle. *)
Definition alternating (initial : option history_prompt_dict) (evs : list event) : Prop :=
  ∀ j kwj, calls evs !! j = Some kwj →
           if Nat.odd j then history_prompt kwj = None
           else match j with
                | 0 => history_prompt kwj = HPDict <$> initial
                | S _ => is_Some (history_prompt kwj)
                end.





(** The history prompt the coarse and fine stages are given. *)
Definition waveform_prompt (kw : kwargs) (every_x : bool) : option history_prompt_value :=
  if String.eqb (previous_segment_type kw) "base_history" && semantic_history_only (opts kw)
     || absolute_semantic_history_only (opts kw) || every_x
  then None else history_prompt kw.

End controller_vocabulary.

(** ** More concrete inputs *)

(** The options of [example_kwargs] with the switches of a run chosen. *)
Definition switched_options (interval : Z) (dry separate flipper : bool) : options :=
  Options (Some interval) dry false false separate flipper false false None None
          0%float None None 200 300.

Definition switched_kwargs (interval : Z) (dry separate flipper : bool) : kwargs :=
  Kwargs (switched_options interval dry separate flipper) (Some (HPName "spk")) None
         "a bb ccc" "" None 1 false.

(** No text and no speaker. *)
Definition silent_kwargs : kwargs :=
  Kwargs (example_options 1 false) None None "" "" None 1 false.

(** The defaults of the writers, with an output directory. *)
Definition default_writers : writer_options :=
  WriterOptions true None None (Some "bark_samples"%string).

(** A disk on which a directory is an entry like a file, and the name made
    for a segment is [out.wav]. *)
Definition example_disk : Disk := {|
  base_output_filename := λ _ _, "out.wav"%string;
  os_makedirs := λ p fs,
    Some (Ok (), if path_exists fs p then fs else <[p := OtherFile]> fs) |}.

(** A semantic array alone. *)
Definition semantic_only : history_prompt_dict :=
  <["semantic_prompt"%string := NdArray [2] [0; 0]%Z]> ∅.

Definition unseeded : seeds := Seeds false false None false None None None None None.

(** English speakers in both directories, a German one below [dirB], and a
    file whose prefix is no language. *)
Definition example_speakers : Speakers := {|
  os_walk := λ directory,
    if String.eqb directory "dirA" then
      [("dirA", [], ["en_a.npz"; "zz_b.npz"; "notes.txt"])]%string
    else if String.eqb directory "dirB" then
      [("dirB", ["sub"], ["en_c.npz"]); ("dirB/sub", [], ["de_d.npz"])]%string
    else [];
  SUPPORTED_LANGS := [("English", "en"); ("German", "de")]%string |}.

(** * Facts *)

Section facts.
Context `{External}.

Local Open Scope nat_scope.

Lemma string_length_app (s t : string) :
  String.length (s +:+ t) = String.length s + String.length t.
Proof.
  induction s as [|a s IH]; [done|].
  change (S (String.length (s +:+ t)) = S (String.length s) + String.length t).
  by rewrite IH.
Qed.

Lemma string_app_inj_r (t s1 s2 : string) : s1 +:+ t = s2 +:+ t → s1 = s2.
Proof.
  revert s2. induction s1 as [|a s1 IH]; intros [|b s2] Heq.
  - done.
  - apply (f_equal String.length) in Heq.
    rewrite !string_length_app in Heq. simpl in Heq. lia.
  - apply (f_equal String.length) in Heq.
    rewrite !string_length_app in Heq. simpl in Heq. lia.
  - change (String a (s1 +:+ t) = String b (s2 +:+ t)) in Heq.
    injection Heq as -> Heq. f_equal. by apply IH.
Qed.

Global Instance candidate_inj name ext : Inj (=) (=) (candidate name ext).
Proof.
  intros c1 c2 Heq. unfold candidate in Heq.
  do 2 apply String.app_inj in Heq.
  apply string_app_inj_r in Heq. by apply (inj pretty).
Qed.

Lemma path_exists_true fs p : path_exists fs p = true ↔ p ∈ dom fs.
Proof. unfold path_exists. rewrite bool_decide_eq_true. by rewrite elem_of_dom. Qed.

Lemma path_exists_insert fs p q content :
  path_exists (<[q := content]> fs) p = bool_decide (p = q) || path_exists fs p.
Proof.
  unfold path_exists. destruct (decide (p = q)) as [->|Hne].
  - rewrite lookup_insert_eq. rewrite bool_decide_eq_true_2; [|done].
    by rewrite bool_decide_eq_true_2.
  - rewrite lookup_insert_ne; [|done]. by rewrite (bool_decide_eq_false_2 (p = q)).
Qed.

(** The loop returns a path that does not exist: the one it started from, or
    the first free candidate at or after [counter]. *)
Lemma unique_filepath_loop_sound fs name ext fuel cur counter r :
  unique_filepath_loop fs name ext fuel cur counter = Some r →
  path_exists fs r = false ∧
  (r = cur ∨
   path_exists fs cur = true ∧
   ∃ c, counter ≤ c ∧ r = candidate name ext c ∧
        ∀ j, counter ≤ j < c → path_exists fs (candidate name ext j) = true).
Proof.
  revert cur counter. induction fuel as [|fuel IH]; intros cur counter; simpl; [done|].
  destruct (path_exists fs cur) eqn:Hcur.
  - intros Hr. apply IH in Hr as [Hfree Hr]. split; [done|]. right. split; [done|].
    destruct Hr as [->|[Hc (c & Hle & -> & Hbelow)]].
    + exists counter. split; [lia|]. split; [done|]. intros j Hj. lia.
    + exists c. split; [lia|]. split; [done|]. intros j Hj.
      destruct (decide (j = counter)) as [->|Hne]; [done|]. apply Hbelow. lia.
  - intros [= <-]. auto.
Qed.

(** When the fuel runs out, every path tested exists. *)
Lemma unique_filepath_loop_None fs name ext fuel cur counter :
  unique_filepath_loop fs name ext (S fuel) cur counter = None →
  ∀ j, counter ≤ j < counter + fuel → path_exists fs (candidate name ext j) = true.
Proof.
  revert cur counter. induction fuel as [|fuel IH]; intros cur counter Hnone j Hj; [lia|].
  cbn [unique_filepath_loop] in Hnone. destruct (path_exists fs cur); [|done].
  fold (candidate name ext counter) in Hnone.
  destruct (path_exists fs (candidate name ext counter)) eqn:Hc; [|done].
  destruct (decide (j = counter)) as [->|Hne]; [done|].
  apply (IH (candidate name ext counter) (S counter)); [|lia].
  cbn [unique_filepath_loop]. by rewrite Hc.
Qed.

(** At most [size fs] candidates exist: they are distinct paths. *)
Lemma candidates_bounded fs name ext counter n :
  (∀ j, counter ≤ j < counter + n → path_exists fs (candidate name ext j) = true) →
  n ≤ size fs.
Proof.
  intros Hall.
  set (l := candidate name ext <$> seq counter n).
  assert (NoDup l) as Hnd.
  { apply (NoDup_fmap_2 _). apply NoDup_seq. }
  assert (list_to_set l ⊆ dom fs) as Hsub.
  { intros p Hp. apply elem_of_list_to_set in Hp. unfold l in Hp.
    apply list_elem_of_fmap in Hp as (j & -> & Hj). apply elem_of_seq in Hj.
    apply path_exists_true. apply Hall. lia. }
  apply subseteq_size in Hsub. rewrite size_list_to_set in Hsub; [|done].
  rewrite size_dom in Hsub. unfold l in Hsub.
  by rewrite length_fmap, length_seq in Hsub.
Qed.

Lemma generate_unique_filepath_total fs filepath :
  is_Some (generate_unique_filepath fs filepath).
Proof.
  unfold generate_unique_filepath. destruct (ospath.splitext filepath) as [name ext].
  destruct (unique_filepath_loop _ _ _ _ _ _) as [r|] eqn:Hloop; [by eexists|].
  pose proof (unique_filepath_loop_None _ _ _ _ _ _ Hloop) as Hall.
  apply candidates_bounded in Hall. lia.
Qed.

(** One allocation: the result is free; it is the sanitized path when that is
    free, and the first free candidate otherwise. *)
Lemma generate_unique_filepath_spec fs filepath :
  ∃ r, generate_unique_filepath fs filepath = Some r ∧
       path_exists fs r = false ∧
       (path_exists fs (sanitize_filepath filepath) = false → r = sanitize_filepath filepath) ∧
       (path_exists fs (sanitize_filepath filepath) = true →
        ∃ c, 1 ≤ c ∧
             r = candidate (ospath.splitext filepath).1 (ospath.splitext filepath).2 c ∧
             ∀ j, 1 ≤ j < c →
                  path_exists fs (candidate (ospath.splitext filepath).1
                                    (ospath.splitext filepath).2 j) = true).
Proof.
  destruct (generate_unique_filepath_total fs filepath) as [r Hr]. exists r.
  split; [done|]. unfold generate_unique_filepath in Hr.
  destruct (ospath.splitext filepath) as [name ext]. simpl.
  apply unique_filepath_loop_sound in Hr as [Hfree Hr]. split; [done|]. split.
  - intros Hsan. destruct Hr as [->|[Hex _]]; [done|]. congruence.
  - intros Hsan. destruct Hr as [->|[_ Hc]]; [congruence|]. done.
Qed.

(** Allocations in a row once the sanitized path exists and the candidates
    below [c0] are taken: the counters go up strictly from [c0] on. *)
Lemma allocate_in_a_row_candidates fs filepath content n c0 :
  let name := (ospath.splitext filepath).1 in
  let ext := (ospath.splitext filepath).2 in
  path_exists fs (sanitize_filepath filepath) = true →
  (∀ j, 1 ≤ j < c0 → path_exists fs (candidate name ext j) = true) →
  ∃ cs, allocate_in_a_row fs filepath content n = Some (candidate name ext <$> cs) ∧
        length cs = n ∧
        Forall (λ c, 1 ≤ c ∧ c0 ≤ c) cs ∧
        StronglySorted lt cs ∧
        Forall (λ c, path_exists fs (candidate name ext c) = false) cs.
Proof.
  intros name ext. revert fs c0.
  induction n as [|n IH]; intros fs c0 Hsan Hbelow.
  { exists []. repeat split; constructor. }
  cbn [allocate_in_a_row].
  destruct (generate_unique_filepath_spec fs filepath) as (r & -> & Hfree & _ & Hcand).
  destruct (Hcand Hsan) as (c & Hc1 & -> & Hmin). fold name ext in Hfree, Hmin |- *.
  cbn [mbind option_bind].
  assert (c0 ≤ c) as Hc0.
  { destruct (decide (c0 ≤ c)); [done|]. rewrite Hbelow in Hfree; [done|lia]. }
  destruct (IH (<[candidate name ext c := content]> fs) (S c)) as (cs & -> & Hlen & Hge & Hsort & Hfree').
  { rewrite path_exists_insert, Hsan. apply orb_true_r. }
  { intros j Hj. rewrite path_exists_insert.
    destruct (decide (j = c)) as [->|Hne].
    - by rewrite bool_decide_eq_true_2.
    - rewrite Hmin; [apply orb_true_r|lia]. }
  exists (c :: cs). cbn [mbind option_bind fmap list_fmap length].
  split; [done|]. split; [by rewrite Hlen|].
  split; [|split].
  - constructor; [lia|]. eapply Forall_impl; [exact Hge|]. simpl. lia.
  - constructor; [done|]. eapply Forall_impl; [exact Hge|]. simpl. lia.
  - constructor; [done|]. eapply Forall_impl; [exact Hfree'|]. simpl. intros j Hj.
    rewrite path_exists_insert in Hj. by apply orb_false_elim in Hj as [_ ?].
Qed.

Lemma StronglySorted_lt_NoDup (cs : list nat) : StronglySorted lt cs → NoDup cs.
Proof.
  induction 1 as [|c cs _ IH Hlt]; constructor; [|done].
  intros Hin. rewrite Forall_forall in Hlt. apply Hlt in Hin. lia.
Qed.

(** C8. [n] allocations in a row for the same path, each returned path being
    created before the next call, always succeed and return [n] distinct
    paths none of which existed before; the paths are the sanitized path
    (first, when it was free) followed by [name_c ext] for strictly
    increasing counters [c >= 1]; and a path whose sanitized form does not
    exist is returned as sanitized. *)
Theorem unique_path_allocation fs filepath content n :
  let name := (ospath.splitext filepath).1 in
  let ext := (ospath.splitext filepath).2 in
  let clean := sanitize_filepath filepath in
  ∃ ps cs,
    allocate_in_a_row fs filepath content n = Some ps ∧
    length ps = n ∧
    NoDup ps ∧
    Forall (λ p, path_exists fs p = false) ps ∧
    StronglySorted lt cs ∧ Forall (λ c, 1 ≤ c) cs ∧
    ps = (if path_exists fs clean then [] else take n [clean])
           ++ (candidate name ext <$> cs) ∧
    (path_exists fs clean = false →
     generate_unique_filepath fs filepath = Some clean).
Proof.
  intros name ext clean.
  assert (path_exists fs clean = false →
          generate_unique_filepath fs filepath = Some clean) as Hfirst.
  { intros Hfree.
    destruct (generate_unique_filepath_spec fs filepath) as (r & Hr & _ & Hsan & _).
    rewrite Hr. f_equal. by apply Hsan. }
  destruct (path_exists fs clean) eqn:Hclean.
  - destruct (allocate_in_a_row_candidates fs filepath content n 1)
      as (cs & Hrun & Hlen & Hge & Hsort & Hfree); [done|intros; lia|].
    exists (candidate name ext <$> cs), cs. fold name ext in Hrun, Hfree.
    split; [done|]. split; [by rewrite length_fmap|]. split.
    { apply (NoDup_fmap_2 _). by apply StronglySorted_lt_NoDup. }
    split; [by apply Forall_fmap|]. split; [done|]. split.
    { eapply Forall_impl; [exact Hge|]. simpl. lia. }
    done.
  - destruct n as [|n].
    { exists [], []. repeat split; try done; constructor. }
    cbn [allocate_in_a_row]. rewrite (Hfirst eq_refl). cbn [mbind option_bind].
    destruct (allocate_in_a_row_candidates (<[clean := content]> fs) filepath content n 1)
      as (cs & Hrun & Hlen & Hge & Hsort & Hfree).
    { rewrite path_exists_insert. by rewrite bool_decide_eq_true_2. }
    { intros; lia. }
    fold name ext in Hrun, Hfree. rewrite Hrun. cbn [mbind option_bind].
    exists (clean :: (candidate name ext <$> cs)), cs.
    split; [done|]. split; [by cbn; rewrite length_fmap, Hlen|]. split.
    { constructor.
      - intros Hin. apply list_elem_of_fmap in Hin as (c & Hc & Hin).
        rewrite Forall_forall in Hfree. apply Hfree in Hin. rewrite <- Hc in Hin.
        rewrite path_exists_insert in Hin. by rewrite bool_decide_eq_true_2 in Hin.
      - apply (NoDup_fmap_2 _). by apply StronglySorted_lt_NoDup. }
    split.
    { constructor; [done|]. apply Forall_fmap. eapply Forall_impl; [exact Hfree|].
      simpl. intros c Hc. rewrite path_exists_insert in Hc.
      by apply orb_false_elim in Hc as [_ ?]. }
    split; [done|]. split.
    { eapply Forall_impl; [exact Hge|]. simpl. lia. }
    split; [|done]. cbn [take]. by rewrite take_nil.
Qed.

Lemma foldl_keeps_last_match fs file (found : option string) (dirs : list string) :
  foldl (λ found directory,
           let full_path_in_dir := ospath.join directory file in
           if path_exists fs full_path_in_dir then Some full_path_in_dir else found)
        found dirs
  = match last (filter (λ directory, path_exists fs (ospath.join directory file) = true) dirs) with
    | Some directory => Some (ospath.join directory file)
    | None => found
    end.
Proof.
  revert found. induction dirs as [|d dirs IH]; intros found; [done|].
  cbn [foldl]. rewrite IH. rewrite filter_cons.
  destruct (path_exists fs (ospath.join d file)) eqn:Hd.
  - rewrite decide_True; [|done].
    destruct (filter _ dirs) as [|d' l] eqn:Hl; [done|].
    rewrite last_cons_cons. destruct (last (d' :: l)) eqn:Hlast; [done|].
    by apply last_None in Hlast.
  - rewrite decide_False; [done|]. congruence.
Qed.

(** C4, amended. For a name without a directory component, the last
    configured directory that has the file (with [.npz] appended when the
    name has no extension) is the one picked; its path is returned when the
    file there validates, and none is returned when it does not. *)
Theorem last_match_wins fs user_history_prompt directory :
  let file := prompt_file_name user_history_prompt in
  ospath.dirname file = ""%string →
  last (directories_with fs file) = Some directory →
  process_history_prompt fs (Some user_history_prompt)
  = (ok ← history_prompt_is_valid fs (HPName (ospath.join directory file));
     Ok (if truthy ok then Some (ospath.join directory file) else None)).
Proof.
  intros file Hdir Hlast. unfold process_history_prompt.
  subst file. unfold prompt_file_name in *.
  destruct (ospath.splitext user_history_prompt) as [file_name file_extension].
  rewrite Hdir. cbn [String.eqb negb].
  rewrite foldl_keeps_last_match. unfold directories_with in Hlast. rewrite Hlast.
  destruct (history_prompt_is_valid fs _) as [ok|e]; [|done].
  cbn [mbind result_bind]. by destruct (truthy ok).
Qed.

Local Open Scope Z_scope.

(** The ratio the coarse report expects is 1.5; three coarse columns for
    two semantic tokens match it, four do not. *)
Lemma expected_coarse_ratio :
  py_round1 (semantic_to_coarse_ratio / float_of_nat N_COARSE_CODEBOOKS)%float = 1.5%float
  ∧ coarse_ratio_ok 3 2 = true ∧ coarse_ratio_ok 4 2 = false.
Proof. repeat split; reflexivity. Qed.

Lemma foldr_min_nonneg x l : 0 ≤ foldr Z.min x l ↔ Forall (λ v, 0 ≤ v) (x :: l).
Proof.
  induction l as [|y l IH]; simpl.
  - split; [by repeat constructor | by inversion 1].
  - rewrite Z.min_glb_iff, IH, !Forall_cons. tauto.
Qed.

Lemma foldr_max_below bound x l :
  foldr Z.max x l < bound ↔ Forall (λ v, v < bound) (x :: l).
Proof.
  induction l as [|y l IH]; simpl.
  - split; [by repeat constructor | by inversion 1].
  - rewrite Z.max_lub_lt_iff, IH, !Forall_cons. tauto.
Qed.

Lemma in_range_extrema bound shp x l :
  in_range bound (NdArray shp (x :: l)) ↔ 0 ≤ foldr Z.min x l ∧ foldr Z.max x l < bound.
Proof.
  unfold in_range. simpl. rewrite foldr_min_nonneg, foldr_max_below.
  rewrite <- Forall_and. done.
Qed.

Lemma valid_fail r msgs : valid (fail r msgs) = false.
Proof. done. Qed.

(** A well-formed non-empty array has a first value. *)
Lemma wf_nonempty a : wf_ndarray a → arr_size a ≠ 0%nat → ∃ x l, data a = x :: l.
Proof.
  unfold wf_ndarray. intros Hwf Hsize. destruct (data a) as [|x l]; [|by eauto].
  simpl in Hwf. congruence.
Qed.

Lemma generate_text_semantic_report_valid d s :
  d !! "semantic_prompt"%string = Some s → wf_ndarray s →
  ∃ r, generate_text_semantic_report d 3 = Ok r ∧ (valid r = true ↔ semantic_ok s).
Proof.
  intros Hs Hwf. unfold generate_text_semantic_report, getitem. rewrite Hs.
  cbn [mbind result_bind]. unfold semantic_ok.
  destruct s as [shp dat]. cbn [shape] in *.
  destruct shp as [|n [|m shp]]; cbn [length Nat.eqb negb].
  - eexists; split; [done|]. rewrite valid_fail. split; [done|]. by intros (n & ? & _).
  - unfold arr_len. cbn [shape mbind result_bind].
    destruct (n =? 0)%nat eqn:Hn.
    { apply Nat.eqb_eq in Hn as ->. eexists; split; [done|]. rewrite valid_fail.
      split; [done|]. intros (n' & [= <-] & ? & _). lia. }
    apply Nat.eqb_neq in Hn.
    destruct (wf_nonempty _ Hwf) as (x & l & Hdat).
    { unfold arr_size. simpl. lia. }
    simpl in Hdat. subst dat. unfold arr_min, arr_max, arr_argmin, arr_argmax.
    cbn [data mbind result_bind arr_min arr_max].
    destruct (foldr Z.min x l <? 0) eqn:Hlo.
    { eexists; split; [done|]. rewrite valid_fail. split; [done|].
      intros (n' & _ & _ & Hr). apply in_range_extrema in Hr. lia. }
    destruct (SEMANTIC_VOCAB_SIZE <=? foldr Z.max x l) eqn:Hhi.
    { eexists; split; [done|]. rewrite valid_fail. split; [done|].
      intros (n' & _ & _ & Hr). apply in_range_extrema in Hr. lia. }
    eexists; split; [done|]. split; [|done]. intros _. exists n.
    split; [done|]. split; [lia|]. apply in_range_extrema. lia.
  - eexists; split; [done|]. rewrite valid_fail. split; [done|]. by intros (n' & ? & _).
Qed.

Lemma generate_coarse_report_unfold d token_samples :
  generate_coarse_report d token_samples
  = (semantic_history ← getitem d "semantic_prompt";
     coarse_history ← getitem d "coarse_prompt";
     report ← generate_text_semantic_report
                (<["semantic_prompt"%string := semantic_history]> ∅) token_samples;
     coarse_checks semantic_history coarse_history token_samples report).
Proof.
  unfold generate_coarse_report, generate_text_semantic_report, getitem.
  destruct (d !! "semantic_prompt"%string) as [s|]; [|done].
  destruct (d !! "coarse_prompt"%string) as [c|]; [|done].
  reflexivity.
Qed.

Lemma coarse_checks_valid s c r :
  wf_ndarray c →
  (∃ r', coarse_checks s c 3 r = Ok r' ∧ valid r' = true)
  ↔ valid r = true ∧ coarse_ok s c.
Proof.
  intros Hwf. unfold coarse_checks, coarse_ok. destruct c as [shp dat]. cbn [shape] in *.
  destruct shp as [|rows [|cols [|extra shp]]];
    try (split; [intros (r' & [= <-] & Hv); by rewrite valid_fail in Hv
                | by intros (_ & n0 & rest0 & cols0 & _ & ? & _)]).
  destruct (rows =? N_COARSE_CODEBOOKS)%nat eqn:Hrows; cbn [negb].
  2:{ apply Nat.eqb_neq in Hrows.
      split; [intros (r' & [= <-] & Hv); by rewrite valid_fail in Hv|].
      intros (_ & n & rest & cols' & _ & [= ? ?] & _). done. }
  apply Nat.eqb_eq in Hrows as ->.
  destruct (arr_size _ =? 0)%nat eqn:Hsize.
  { apply Nat.eqb_eq in Hsize. unfold arr_size in Hsize. simpl in Hsize.
    split; [intros (r' & [= <-] & Hv); by rewrite valid_fail in Hv|].
    intros (_ & n & rest & cols' & _ & [= <-] & ? & _). lia. }
  apply Nat.eqb_neq in Hsize.
  destruct (wf_nonempty _ Hwf Hsize) as (x & l & Hdat). simpl in Hdat. subst dat.
  unfold arr_size in Hsize. simpl in Hsize.
  unfold arr_min, arr_max, arr_argmin, arr_argmax, arr_len.
  cbn [data mbind result_bind arr_min arr_max].
  set (after := λ report : report, _ ← _ ; _).
  assert (∀ r0, (∃ r', after r0 = Ok r' ∧ valid r' = true)
                ↔ valid r0 = true ∧ ∃ n rest, shape s = n :: rest ∧ n ≠ 0%nat
                                     ∧ coarse_ratio_ok cols n = true) as Hafter.
  { intros r0. unfold after. destruct (shape s) as [|n rest]; cbn [mbind result_bind].
    { split; [by intros (? & ? & _)|]. by intros (_ & ? & ? & ? & _). }
    unfold py_truediv. destruct (n =? 0)%nat eqn:Hn; cbn [mbind result_bind].
    { apply Nat.eqb_eq in Hn. split; [by intros (? & ? & _)|].
      intros (_ & ? & ? & [= <- _] & ? & _). done. }
    apply Nat.eqb_neq in Hn. fold (coarse_ratio_ok cols n).
    destruct (coarse_ratio_ok cols n) eqn:Hratio; cbn [negb].
    - split.
      + intros (r' & [= <-] & Hv). split; [done|]. by exists n, rest.
      + intros (Hv & _). by exists r0.
    - split; [intros (r' & [= <-] & Hv); by rewrite valid_fail in Hv|].
      intros (_ & ? & ? & [= <- _] & _ & ?). congruence. }
  destruct (foldr Z.min x l <? 0) eqn:Hlo; cbn [mbind result_bind].
  { rewrite Hafter, valid_fail. split; [by intros [? _]|].
    intros (_ & n & rest & cols' & _ & _ & _ & Hr & _).
    apply in_range_extrema in Hr. lia. }
  destruct (CODEBOOK_SIZE <=? foldr Z.max x l) eqn:Hhi; cbn [mbind result_bind].
  { rewrite Hafter, valid_fail. split; [by intros [? _]|].
    intros (_ & n & rest & cols' & _ & _ & _ & Hr & _).
    apply in_range_extrema in Hr. lia. }
  rewrite Hafter. split.
  - intros (Hv & n & rest & Hs & Hn & Hratio). split; [done|].
    exists n, rest, cols. repeat split; try done; [lia|].
    apply in_range_extrema. lia.
  - intros (Hv & n & rest & cols' & Hs & [= <-] & _ & _ & Hn & Hratio).
    split; [done|]. by exists n, rest.
Qed.

Lemma generate_fine_report_valid d f :
  d !! "fine_prompt"%string = Some f → wf_ndarray f →
  ∃ r, generate_fine_report d 3 = Ok r ∧ (valid r = true ↔ fine_ok f).
Proof.
  intros Hf Hwf. unfold generate_fine_report, getitem, fine_ok. rewrite Hf.
  cbn [mbind result_bind]. destruct f as [shp dat]. cbn [shape] in *.
  destruct shp as [|rows [|cols [|extra shp]]];
    try (eexists; split; [done|]; rewrite valid_fail; split; [done|];
         by intros (cols0 & ? & _)).
  destruct (arr_size _ =? 0)%nat eqn:Hsize.
  { apply Nat.eqb_eq in Hsize. unfold arr_size in Hsize. simpl in Hsize.
    eexists; split; [done|]. rewrite valid_fail. split; [done|].
    intros (cols0 & [= -> <-] & ? & _). unfold N_FINE_CODEBOOKS in Hsize. lia. }
  apply Nat.eqb_neq in Hsize.
  destruct (wf_nonempty _ Hwf Hsize) as (x & l & Hdat). simpl in Hdat. subst dat.
  unfold arr_size in Hsize. simpl in Hsize.
  destruct (rows =? N_FINE_CODEBOOKS)%nat eqn:Hrows; cbn [negb].
  2:{ apply Nat.eqb_neq in Hrows. eexists; split; [done|]. rewrite valid_fail.
      split; [done|]. by intros (cols0 & [= ? ?] & _). }
  apply Nat.eqb_eq in Hrows as ->.
  unfold arr_min, arr_max, arr_argmin, arr_argmax.
  cbn [data mbind result_bind arr_min arr_max].
  destruct (foldr Z.min x l <? 0) eqn:Hlo.
  { eexists; split; [done|]. rewrite valid_fail. split; [done|].
    intros (cols0 & _ & _ & Hr). apply in_range_extrema in Hr. lia. }
  destruct (CODEBOOK_SIZE <=? foldr Z.max x l) eqn:Hhi.
  { eexists; split; [done|]. rewrite valid_fail. split; [done|].
    intros (cols0 & _ & _ & Hr). apply in_range_extrema in Hr. lia. }
  eexists; split; [done|]. split; [|done]. intros _. exists cols.
  split; [done|]. split; [lia|]. apply in_range_extrema. lia.
Qed.

Lemma has_all_keys_true d :
  has_all_keys d = true ↔
  ∃ s c f, d !! "semantic_prompt"%string = Some s ∧ d !! "coarse_prompt"%string = Some c
           ∧ d !! "fine_prompt"%string = Some f.
Proof.
  unfold has_all_keys. rewrite !andb_true_iff, !bool_decide_eq_true. split.
  - intros [[[s Hs] [c Hc]] [f Hf]]. by exists s, c, f.
  - intros (s & c & f & Hs & Hc & Hf). rewrite Hs, Hc, Hf. by repeat split.
Qed.

(** C7, amended. A bundle of well-formed arrays is valid exactly when the
    semantic array is 1-D, not empty and within the vocabulary; the coarse
    array has [N_COARSE_CODEBOOKS] rows of [T > 0] values within the codebook,
    with [T / len(semantic)] rounding to the expected one-decimal ratio; and
    the fine array has [N_FINE_CODEBOOKS] rows of a positive length, its own,
    within the codebook. *)
Theorem history_prompt_is_valid_iff fs d :
  (∀ k a, d !! k = Some a → wf_ndarray a) →
  history_prompt_is_valid fs (HPDict d) = Ok (Some true)
  ↔ ∃ s c f,
      d !! "semantic_prompt"%string = Some s ∧ d !! "coarse_prompt"%string = Some c ∧
      d !! "fine_prompt"%string = Some f ∧
      semantic_ok s ∧ coarse_ok s c ∧ fine_ok f.
Proof.
  intros Hwf. unfold history_prompt_is_valid, _load_history_prompt.
  destruct (has_all_keys d) eqn:Hkeys.
  2:{ split; [done|]. intros (s & c & f & Hs & Hc & Hf & _).
      assert (has_all_keys d = true) by (apply has_all_keys_true; by exists s, c, f).
      congruence. }
  apply has_all_keys_true in Hkeys as (s & c & f & Hs & Hc & Hf).
  destruct (generate_text_semantic_report_valid d s Hs (Hwf _ _ Hs)) as (rs & -> & Hrs).
  destruct (generate_fine_report_valid d f Hf (Hwf _ _ Hf)) as (rf & Hrf_eq & Hrf).
  cbn [mbind result_bind]. rewrite generate_coarse_report_unfold.
  unfold getitem at 1 2. rewrite Hs, Hc. cbn [mbind result_bind].
  destruct (generate_text_semantic_report_valid (<["semantic_prompt"%string := s]> ∅) s)
    as (rs' & -> & Hrs'); [apply lookup_insert_eq|by eapply Hwf|].
  cbn [mbind result_bind].
  pose proof (coarse_checks_valid s c rs' (Hwf _ _ Hc)) as Hcoarse.
  destruct (coarse_checks s c 3 rs') as [rc|e] eqn:Hrc; cbn [mbind result_bind].
  - rewrite Hrf_eq. cbn [mbind result_bind]. split.
    + intros [= Hall]. apply andb_true_iff in Hall as [Hall Hvf].
      apply andb_true_iff in Hall as [Hvs Hvc].
      exists s, c, f. repeat split; try done.
      * by apply Hrs.
      * apply Hcoarse. by exists rc.
      * by apply Hrf.
    + intros (s' & c' & f' & Hs' & Hc' & Hf' & Hsok & Hcok & Hfok).
      assert (s' = s) as -> by congruence. assert (c' = c) as -> by congruence.
      assert (f' = f) as -> by congruence.
      apply Hrs in Hsok. apply Hrf in Hfok.
      assert (valid rc = true) as Hvc.
      { destruct Hcoarse as [_ Hback]. destruct Hback as (r' & [= <-] & ?); [|done].
        split; [by apply Hrs'; apply Hrs|done]. }
      by rewrite Hsok, Hvc, Hfok.
  - split; [done|]. intros (s' & c' & f' & Hs' & Hc' & Hf' & Hsok & Hcok & Hfok).
    assert (s' = s) as -> by congruence. assert (c' = c) as -> by congruence.
    destruct Hcoarse as [_ Hback]. destruct Hback as (r' & ? & ?); [|done].
    split; [|done]. apply Hrs'. done.
Qed.

Local Open Scope nat_scope.

Lemma run_bind {A B} (m : M A) (k : A → M B) w :
  (m ≫= k) w = match m w with
               | (Ok a, w') => k a w'
               | (Raise e, w') => (Raise e, w')
               end.
Proof. reflexivity. Qed.

Lemma run_ret {A} (a : A) w : (mret a : M A) w = (Ok a, w).
Proof. reflexivity. Qed.

Lemma unless_cancelled_run rest w :
  unless_cancelled rest w
  = if flag_at w (flag_reads w)
    then (Ok (Pair None None),
          World (gradio_try_to_cancel w) true (S (flag_reads w)) (log w))
    else rest (World (gradio_try_to_cancel w) (done_cancelling w)
                 (S (flag_reads w)) (log w)).
Proof.
  unfold unless_cancelled. rewrite run_bind. cbn [read_gradio_try_to_cancel].
  by destruct (flag_at w (flag_reads w)).
Qed.

Lemma flag_at_world g d n l m :
  flag_at (World g d n l) m = g || cancel_requested m.
Proof. reflexivity. Qed.

Lemma pipeline_event_stage tag e : is_Some (stage_of e) → pipeline_event tag e.
Proof. by left. Qed.

Ltac poll E :=
  rewrite unless_cancelled_run;
  cbn [gradio_try_to_cancel done_cancelling flag_reads log];
  rewrite ?flag_at_world;
  match goal with
  | |- context [if ?c then (Ok (Pair None None), _) else _] => destruct c eqn:E
  end.

Ltac emit_step :=
  rewrite run_bind; unfold emit;
  cbn [gradio_try_to_cancel done_cancelling flag_reads log].

(* every flag read so far was false *)
Ltac flags_false :=
  let m := fresh "m" in
  let Hm := fresh "Hm" in
  intros m Hm; rewrite ?flag_at_world;
  repeat match goal with
         | E : _ || cancel_requested ?k = false |- _ || cancel_requested m = false =>
             destruct (decide (m = k)) as [->|?]; [exact E|clear E]
         end;
  lia.

Ltac stage_events :=
  repeat first [ apply Forall_nil_2
               | apply Forall_cons_2; [try apply pipeline_event_stage; by eexists|] ].

Ltac stage_events_then_write :=
  repeat first [ apply Forall_nil_2
               | apply Forall_cons_2;
                 [first [ apply pipeline_event_stage; by eexists
                        | right; by eexists _, _ ]|] ].

(* a leaf of the code: the result and the world are what the run produced *)
Ltac leaf_with tac :=
  eexists _, _, _; split; [reflexivity|];
  cbn [gradio_try_to_cancel done_cancelling flag_reads log];
  split; [split; [done|split; [lia|rewrite <- ?app_assoc; reflexivity]]|];
  split; [tac|].

Ltac leaf := leaf_with ltac:(stage_events).

Lemma generate_audio_barki_outcomes text kw w :
  ∃ r w' evs,
    generate_audio_barki text kw w = (r, w') ∧ extends w w' evs ∧
    Forall (pipeline_event (segment_number kw)) evs ∧
    ((∃ j, j < 6 ∧ flag_reads w' = S j + flag_reads w ∧
           flag_at w (j + flag_reads w) = true ∧
           no_flag_between w (flag_reads w) (j + flag_reads w) ∧
           r = Ok (Pair None None) ∧ done_cancelling w' = true ∧
           Forall (λ e, is_Some (stage_of e)) evs ∧
           omap stage_of evs = stages_before j)
     ∨ (∃ e, r = Raise e ∧ every_x_override kw = Raise e ∧
             no_flag_between w (flag_reads w) (flag_reads w'))
     ∨ (flag_reads w' = 6 + flag_reads w ∧
        no_flag_between w (flag_reads w) (flag_reads w') ∧
        done_cancelling w' = done_cancelling w ∧
        omap stage_of evs = stages_before 5 ∧
        ∃ full_generation audio_arr,
          r = Ok (if output_full kw
                  then Pair (Some full_generation) (Some audio_arr)
                  else Audio audio_arr))).
Proof.
  destruct w as [g d n l]. unfold generate_audio_barki, extends, no_flag_between.
  cbn [gradio_try_to_cancel done_cancelling flag_reads log].
  poll E0.
  { exists (Ok (Pair None None)), (World g true (S n) l), [].
    split; [done|]. cbn. rewrite app_nil_r. split; [split; [done|split; [lia|done]]|].
    split; [constructor|]. left. exists 0. cbn. rewrite flag_at_world.
    repeat split; try done; try lia; try constructor. }
  emit_step. poll E1.
  { leaf. left. exists 1. cbn. rewrite flag_at_world.
    repeat split; try done; try lia; [flags_false|stage_events]. }
  poll E2.
  { leaf. left. exists 2. cbn. rewrite flag_at_world.
    repeat split; try done; try lia; [flags_false|stage_events]. }
  rewrite run_bind. unfold lift. destruct (every_x_override kw) as [every_x|e] eqn:Ex.
  2:{ exists (Raise e), (World g d (S (S (S n))) (l ++ [EvGenerateTextSemantic text (history_prompt kw)])), [EvGenerateTextSemantic text (history_prompt kw)].
      split; [done|]. cbn. split; [split; [done|split; [lia|done]]|].
      split; [stage_events|]. right. left. exists e. repeat split; try done. flags_false. }
  emit_step. poll E3.
  { leaf. left. exists 3. cbn. rewrite flag_at_world.
    repeat split; try done; try lia; [flags_false|stage_events]. }
  emit_step. poll E4.
  { leaf. left. exists 4. cbn. rewrite flag_at_world.
    repeat split; try done; try lia; [flags_false|stage_events]. }
  emit_step. poll E5.
  { leaf. left. exists 5. cbn. rewrite flag_at_world.
    repeat split; try done; try lia; [flags_false|stage_events]. }
  rewrite run_bind. destruct (hoarder_mode (opts kw) && (1 <? total_segments kw)%Z).
  - unfold emit. cbn [gradio_try_to_cancel done_cancelling flag_reads log].
    destruct (output_full kw) eqn:Hfull; rewrite run_ret.
    + leaf_with ltac:(stage_events_then_write). right. right. cbn.
      split; [done|]. split; [flags_false|]. split; [done|]. split; [done|]. by eexists _, _.
    + leaf_with ltac:(stage_events_then_write). right. right. cbn.
      split; [done|]. split; [flags_false|]. split; [done|]. split; [done|]. exists ∅. by eexists.
  - rewrite run_ret. destruct (output_full kw) eqn:Hfull; rewrite run_ret.
    + leaf. right. right. cbn.
      split; [done|]. split; [flags_false|]. split; [done|]. split; [done|]. by eexists _, _.
    + leaf. right. right. cbn.
      split; [done|]. split; [flags_false|]. split; [done|]. split; [done|]. exists ∅. by eexists.
Qed.

Lemma every_x_override_numbered kw :
  numbered kw → ∃ every_x, every_x_override kw = Ok every_x.
Proof.
  intros Hnum. unfold every_x_override.
  destruct (absolute_semantic_history_only_every_x (opts kw)) as [x|]; [|by eexists].
  destruct (0 <? x)%Z; [|by eexists].
  destruct (segment_number kw) as [tag|] eqn:Htag; [|by eexists].
  destruct (Hnum tag Htag) as [n ->]. by eexists.
Qed.

(** C10. Whenever one of the six tests of the flag inside
    [generate_audio_barki] sees it set, the function returns the pair
    [(None, None)], whatever [output_full] is; with [output_full] false and
    the flag never seen set, it returns the audio array alone. *)
Theorem cancelled_call_returns_a_pair text kw w :
  numbered kw →
  (∀ j, j < 6 → flag_at w (j + flag_reads w) = true →
        (generate_audio_barki text kw w).1 = Ok (Pair None None)) ∧
  (output_full kw = false →
   no_flag_between w (flag_reads w) (6 + flag_reads w) →
   ∃ audio_arr, (generate_audio_barki text kw w).1 = Ok (Audio audio_arr)).
Proof.
  intros Hnum.
  destruct (generate_audio_barki_outcomes text kw w)
    as (r & w' & evs & -> & _ & _ & Hcases).
  destruct (every_x_override_numbered kw Hnum) as [every_x Hx].
  cbn [fst]. split.
  - intros j Hj Hflag.
    destruct Hcases as [(j' & _ & _ & _ & _ & -> & _)|[(e & _ & He & _)|(Hreads & Hnone & _)]].
    + done.
    + congruence.
    + rewrite Hnone in Hflag; [done|lia].
  - intros Hfull Hnone.
    destruct Hcases as [(j' & Hj' & _ & Hflag & _)|[(e & _ & He & _)|(_ & _ & _ & _ & fg & a & ->)]].
    + rewrite Hnone in Hflag; [done|lia].
    + congruence.
    + rewrite Hfull. by exists a.
Qed.

Lemma wp_elim {A} (m : M A) w Q : wp m w Q → Q (m w).1 (m w).2.
Proof. by intros [?]. Qed.

Lemma wp_ret {A} (a : A) w Q : Q (Ok a) w → wp (mret a) w Q.
Proof. by constructor. Qed.

Lemma wp_bind {A B} (m : M A) (k : A → M B) w Q :
  wp m w (λ r w', match r with
                  | Ok a => wp (k a) w' Q
                  | Raise e => Q (Raise e) w'
                  end) →
  wp (m ≫= k) w Q.
Proof.
  intros [Hm]. constructor. rewrite run_bind.
  destruct (m w) as [[a|e] w']; [|done]. by apply wp_elim.
Qed.

Lemma wp_raise {A} e w (Q : result A → world → Prop) : Q (Raise e) w → wp (raise e) w Q.
Proof. by constructor. Qed.

Lemma wp_lift {A} (r : result A) w Q : Q r w → wp (lift r) w Q.
Proof. by constructor. Qed.

Lemma wp_emit e w Q : Q (Ok ()) (logged w [e]) → wp (emit e) w Q.
Proof. by constructor. Qed.

Lemma wp_read w Q :
  Q (Ok (flag_at w (flag_reads w)))
    (World (gradio_try_to_cancel w) (done_cancelling w) (S (flag_reads w)) (log w)) →
  wp read_gradio_try_to_cancel w Q.
Proof. by constructor. Qed.

Lemma wp_set_done_cancelling b w Q :
  Q (Ok ()) (World (gradio_try_to_cancel w) b (flag_reads w) (log w)) →
  wp (set_done_cancelling b) w Q.
Proof. by constructor. Qed.

Lemma wp_set_gradio_try_to_cancel b w Q :
  Q (Ok ()) (World b (done_cancelling w) (flag_reads w) (log w)) →
  wp (set_gradio_try_to_cancel b) w Q.
Proof. by constructor. Qed.

Lemma wp_mono {A} (m : M A) w (Q Q' : result A → world → Prop) :
  wp m w Q → (∀ r w', Q r w' → Q' r w') → wp m w Q'.
Proof. intros [Hm] HQ. constructor. auto. Qed.

(** The loop rule: [I] holds at the head of every iteration, [Q] at the exit. *)
Lemma wp_for_each_segment body (I : nat → loop_state → world → Prop)
    (Q : result control → world → Prop) segs :
  ∀ i st w,
    I i st w →
    (∀ j text st w,
       i ≤ j → segs !! (j - i) = Some text → I j st w →
       wp (body j text st) w (λ r w', match r with
                                      | Ok (Continue st') => I (S j) st' w'
                                      | _ => Q r w'
                                      end)) →
    (∀ st w, I (i + length segs) st w → Q (Ok (Continue st)) w) →
    wp (for_each_segment body i segs st) w Q.
Proof.
  induction segs as [|text segs IH]; intros i st w HI Hbody Hexit.
  - apply wp_ret. apply Hexit. by rewrite Nat.add_0_r.
  - cbn [for_each_segment]. apply wp_bind.
    eapply wp_mono; [apply (Hbody i text st w); [done| by rewrite Nat.sub_diag | done]|].
    intros [[st'|r]|e] w' Hpost; [|by apply wp_ret|done].
    apply IH; [done| |].
    + intros j text' st'' w'' Hj Hlook. apply Hbody; [lia|].
      replace (j - i) with (S (j - S i)) by lia. done.
    + intros st'' w''. replace (S i + length segs) with (i + length (text :: segs))
        by (cbn [length]; lia). apply Hexit.
Qed.

Lemma wp_generate_audio_barki text kw w Q :
  (∀ r w' evs,
     extends w w' evs →
     Forall (pipeline_event (segment_number kw)) evs →
     omap (λ e, match e with
                | EvGenerateAudioBarki _ k => Some k
                | _ => None
                end) evs = [] →
     ((r = Ok (Pair None None) ∧ done_cancelling w' = true ∧
       ∃ n, flag_reads w ≤ n < flag_reads w' ∧ flag_at w n = true)
      ∨ (∃ e, r = Raise e ∧ every_x_override kw = Raise e ∧
              no_flag_between w (flag_reads w) (flag_reads w'))
      ∨ (no_flag_between w (flag_reads w) (flag_reads w') ∧
         flag_reads w' = 6 + flag_reads w ∧
         done_cancelling w' = done_cancelling w ∧
         ∃ full_generation audio_arr,
           r = Ok (if output_full kw
                   then Pair (Some full_generation) (Some audio_arr)
                   else Audio audio_arr))) →
     Q r w') →
  wp (generate_audio_barki text kw) w Q.
Proof.
  intros HQ. constructor.
  destruct (generate_audio_barki_outcomes text kw w)
    as (r & w' & evs & -> & Hext & Hevs & Hcases).
  cbn [fst snd]. apply (HQ r w' evs); [done|done| |].
  - clear -Hevs. induction Hevs as [|e evs He _ IH]; [done|]. cbn.
    destruct He as [[st Hst]|(a & g & ->)]; [|done]. by destruct e.
  - destruct Hcases as [(j & Hj & Hreads & Hflag & _ & -> & Hdone & _)|[Hraise|Hdone]].
    + left. split; [done|]. split; [done|]. exists (j + flag_reads w). split; [lia|done].
    + right. by left.
    + right. right. destruct Hdone as (? & ? & ? & _ & ?). done.
Qed.

Ltac wp_step :=
  first [ apply wp_bind | apply wp_ret | apply wp_emit | apply wp_read
        | apply wp_set_done_cancelling | apply wp_set_gradio_try_to_cancel
        | apply wp_raise | apply wp_lift ];
  cbv beta iota.

Ltac bookkeeping :=
  repeat first [apply Forall_nil_2 | apply Forall_cons_2; [exact I|]].

Ltac case_if :=
  match goal with
  | |- wp (if ?c then _ else _) _ _ => destruct c eqn:?
  end.

(* [since P w0 W] for a world [W] built from one that has [H : since P w0 _] *)
Ltac since_from H :=
  let Hg := fresh "Hg" in
  let Hn := fresh "Hn" in
  let evs0 := fresh "evs" in
  let Hlog := fresh "Hlog" in
  let Hall := fresh "Hall" in
  destruct H as (Hg & Hn & evs0 & Hlog & Hall);
  split; [cbn; congruence|]; split; [cbn in *; lia|];
  cbn; rewrite Hlog, <- ?app_assoc; eexists; split; [reflexivity|];
  repeat (apply Forall_app; split); try done;
  repeat constructor; try done; try (by intros (?&?&?)).

Lemma flag_at_same w w' n :
  gradio_try_to_cancel w' = gradio_try_to_cancel w → flag_at w' n = flag_at w n.
Proof. unfold flag_at. by intros ->. Qed.

Lemma logged_nil w : logged w [] = w.
Proof. destruct w. unfold logged. cbn. by rewrite app_nil_r. Qed.

Lemma since_refl P w : since P w w.
Proof. split; [done|]. split; [done|]. exists []. by rewrite app_nil_r. Qed.

Lemma since_logged P w0 w evs : since P w0 w → Forall P evs → since P w0 (logged w evs).
Proof.
  intros (Hg & Hn & evs0 & Hlog & Hevs) Hnew. split; [done|]. split; [done|].
  exists (evs0 ++ evs). cbn. rewrite Hlog, app_assoc. split; [done|].
  by apply Forall_app.
Qed.

Lemma since_read P w0 w b :
  since P w0 w →
  since P w0 (World (gradio_try_to_cancel w) b (S (flag_reads w)) (log w)).
Proof. intros (Hg & Hn & Hlog). split; [done|]. split; [cbn; lia|done]. Qed.

Lemma since_done P w0 w b :
  since P w0 w →
  since P w0 (World (gradio_try_to_cancel w) b (flag_reads w) (log w)).
Proof. intros (Hg & Hn & Hlog). split; [done|]. split; [cbn; lia|done]. Qed.

Lemma since_extends P w0 w w' evs :
  since P w0 w → extends w w' evs → Forall P evs → since P w0 w'.
Proof.
  intros (Hg & Hn & evs0 & Hlog & Hevs) (Hg' & Hn' & Hlog') Hnew.
  split; [congruence|]. split; [lia|]. exists (evs0 ++ evs).
  rewrite Hlog', Hlog, app_assoc. split; [done|]. by apply Forall_app.
Qed.

(** [select_history_prompt] only rewrites [history_prompt] and the rolling
    state; it may print that the prompt is disabled. *)
Lemma wp_select_history_prompt st w Q :
  (∀ st' evs,
     Forall (λ e, e = EvHistoryPromptDisabled) evs →
     (∃ hp, kw st' = set_history_prompt hp (kw st)) ∨ kw st' = kw st →
     Q (Ok st') (logged w evs)) →
  wp (select_history_prompt st) w Q.
Proof.
  intros HQ. unfold select_history_prompt.
  destruct (seperate_prompts_flipper _), (seperate_prompts _);
    try destruct (history_prompt_flipper st);
    repeat wp_step;
    first [ rewrite <- (logged_nil w); apply HQ; [constructor|left; by eexists]
          | apply HQ; [by repeat constructor| first [left; by eexists | by right]] ].
Qed.

(** [after_segment] reads no flag and writes bookkeeping entries only. *)
Lemma wp_after_segment interval st full_generation audio_arr w Q :
  (∀ c evs,
     Forall bookkeeping_event evs →
     match c with
     | Ok (Continue st') => ∃ previous, kw st' = set_previous_segment_type previous (kw st)
     | Ok (Return r) => r = None
     | Raise _ => True
     end →
     Q c (logged w evs)) →
  wp (after_segment interval st full_generation audio_arr) w Q.
Proof.
  intros HQ. unfold after_segment. wp_step. wp_step. cbv zeta.
  destruct (interval =? 0)%Z; [|destruct (interval =? 1)%Z; [|destruct (2 <=? interval)%Z]].
  - wp_step. apply HQ; [bookkeeping|by eexists].
  - wp_step. apply HQ; [bookkeeping|by eexists].
  - destruct (stable_mode_interval_counter st) as [counter|].
    + destruct (counter =? 1)%Z.
      * repeat wp_step. unfold logged. cbn. rewrite <- app_assoc.
        apply (HQ _ [_; _]); [bookkeeping|by eexists].
      * wp_step. apply HQ; [bookkeeping|by eexists].
    + wp_step. apply HQ; [bookkeeping|done].
  - repeat wp_step. unfold logged. cbn. rewrite <- app_assoc.
    apply (HQ _ [_; _]); [bookkeeping|done].
Qed.

Lemma no_flag_between_same w w' lo hi :
  gradio_try_to_cancel w' = gradio_try_to_cancel w →
  no_flag_between w' lo hi → no_flag_between w lo hi.
Proof. intros Hg Hno n Hn. rewrite <- (flag_at_same _ _ _ Hg). by apply Hno. Qed.

Lemma no_flag_between_snoc w lo n :
  no_flag_between w lo n → flag_at w n = false → no_flag_between w lo (S n).
Proof.
  intros Hno Hn m Hm. destruct (decide (m = n)) as [->|?]; [done|]. apply Hno. lia.
Qed.

Lemma no_flag_between_app w lo mid hi :
  no_flag_between w lo mid → no_flag_between w mid hi → no_flag_between w lo hi.
Proof.
  intros H1 H2 m Hm. destruct (decide (m < mid)); [apply H1|apply H2]; lia.
Qed.

Lemma not_final_history_disabled evs :
  Forall (λ e, e = EvHistoryPromptDisabled) evs → Forall not_final_write evs.
Proof. intros Hall. eapply Forall_impl; [exact Hall|]. by intros e -> (a & g & ?). Qed.

Lemma not_final_bookkeeping evs :
  Forall bookkeeping_event evs → Forall not_final_write evs.
Proof. intros Hall. eapply Forall_impl; [exact Hall|]. intros e He (a & g & ->). done. Qed.

Lemma not_final_pipeline n evs :
  Forall (pipeline_event (Some (SegNumber n))) evs → Forall not_final_write evs.
Proof.
  intros Hall. eapply Forall_impl; [exact Hall|].
  intros e [[st Hst]|(a & g & ->)] (a' & g' & Heq); subst; done.
Qed.

Lemma segment_body_cancel w0 interval dry i text st w :
  since not_final_write w0 w →
  no_flag_between w0 (flag_reads w0) (flag_reads w) →
  wp (segment_body interval dry i text st) w
     (abandoned_or_unflagged w0 (Return None)).
Proof.
  intros Hsince Hno. unfold segment_body, abandoned_or_unflagged.
  destruct dry. { wp_step. by split; [|left]. }
  wp_step. apply wp_select_history_prompt. intros st' sevs Hsevs Hkw. cbv beta iota.
  assert (segment_number (kw st') = Some (SegNumber (Z.of_nat i + 1))) as Hnum.
  { destruct Hkw as [[hp ->]| ->]; done. }
  apply not_final_history_disabled in Hsevs.
  assert (gradio_try_to_cancel w = gradio_try_to_cancel w0) as Hg by apply Hsince.
  wp_step. wp_step. rewrite (flag_at_same w0) by done. cbn [flag_reads logged].
  destruct (flag_at w0 (flag_reads w)) eqn:E1.
  { repeat wp_step. split; [since_from Hsince|by right]. }
  wp_step. wp_step. wp_step.
  apply wp_generate_audio_barki. intros r wb bevs Hext Hpipe _ Hcases.
  rewrite Hnum in Hpipe. apply not_final_pipeline in Hpipe.
  assert (since not_final_write w0 wb) as Hsinceb.
  { eapply since_extends; [|exact Hext|exact Hpipe]. since_from Hsince. }
  assert (gradio_try_to_cancel wb = gradio_try_to_cancel w0) as Hgb by apply Hsinceb.
  assert (no_flag_between w0 (flag_reads w0) (S (flag_reads w))) as Hno1.
  { by apply no_flag_between_snoc. }
  destruct Hcases as [(-> & _ & _)|[(e & -> & _ & Hnob)|(Hnob & _ & _ & fg & a & ->)]].
  - (* the pipeline was cancelled *)
    wp_step. wp_step. wp_step. wp_step.
    case_if; repeat wp_step; (split; [since_from Hsinceb|by right]).
  - (* a stage input raised *)
    split; [done|]. left.
    eapply no_flag_between_app; [exact Hno1|].
    eapply no_flag_between_same; [|exact Hnob]. exact Hg.
  - (* the pipeline ran to its end *)
    assert (no_flag_between w0 (flag_reads w0) (flag_reads wb)) as Hnob'.
    { eapply no_flag_between_app; [exact Hno1|].
      eapply no_flag_between_same; [|exact Hnob]. exact Hg. }
    destruct (output_full (kw st')).
    2:{ repeat wp_step. split; [since_from Hsinceb|by left]. }
    wp_step. wp_step. wp_step. wp_step.
    rewrite (flag_at_same w0) by (cbn; exact Hgb). cbn [flag_reads logged].
    destruct (flag_at w0 (flag_reads wb)) eqn:E2.
    { repeat wp_step. split; [since_from Hsinceb|by right]. }
    apply wp_after_segment. intros c evs Hevs _.
    apply not_final_bookkeeping in Hevs. split; [since_from Hsinceb|].
    left. cbn. by apply no_flag_between_snoc.
Qed.

Lemma for_each_segment_cancel w0 interval dry segs i st w :
  since not_final_write w0 w →
  no_flag_between w0 (flag_reads w0) (flag_reads w) →
  wp (for_each_segment (segment_body interval dry) i segs st) w
     (abandoned_or_unflagged w0 (Return None)).
Proof.
  intros Hsince Hno.
  apply (wp_for_each_segment _
           (λ _ _ w', since not_final_write w0 w' ∧
                      no_flag_between w0 (flag_reads w0) (flag_reads w'))).
  - done.
  - intros j text st' w' _ _ [Hs Hn].
    eapply wp_mono; [by apply segment_body_cancel|].
    intros [[st''|r]|e] w'' [Hs' Hn']; try done.
    split; [done|]. by destruct Hn'.
  - intros st' w' [Hs Hn]. split; [done|by left].
Qed.

Lemma generate_audio_long_segments_cancel w interval counter dry segs kwargs base w1 :
  since not_final_write w w1 → flag_reads w1 = flag_reads w →
  wp (generate_audio_long_segments interval counter dry segs kwargs base) w1
     (cancel_post w).
Proof.
  intros Hsince Hreads. unfold generate_audio_long_segments, cancel_post. wp_step.
  apply (wp_mono _ _ (λ r w', r = Ok () ∧ since not_final_write w w' ∧
                              flag_reads w' = flag_reads w)).
  { destruct (_ && _); wp_step; (split; [done|]); (split; [since_from Hsince|done]). }
  intros r w2 (-> & Hsince2 & Hreads2). cbv zeta. wp_step.
  eapply wp_mono.
  { apply (for_each_segment_cancel w); [done|]. intros n Hn. lia. }
  intros c w3 [Hsince3 Hc].
  assert (flag_reads w ≤ flag_reads w3) as Hle by apply Hsince3.
  destruct Hsince3 as (Hg3 & _ & evs3 & Hlog3 & Hall3).
  destruct c as [[st'|r']|e].
  - destruct Hc as [Hno|?]; [|done].
    wp_step. wp_step. rewrite (flag_at_same w) by done.
    destruct (flag_at w (flag_reads w3)) eqn:E.
    { repeat wp_step. split; [cbn; lia|]. cbn. rewrite Hlog3, <- app_assoc.
      eexists. split; [done|]. right. split; [done|].
      apply Forall_app. split; [done|]. by repeat constructor; intros (?&?&?). }
    assert (no_flag_between w (flag_reads w) (S (flag_reads w3))) as Hno'
      by by apply no_flag_between_snoc.
    case_if.
    + destruct (audio_arr_segments st') as [|? ?], (full_generation_segments st') as [|? ?];
        repeat wp_step; (split; [cbn; lia|]); cbn; rewrite Hlog3, <- ?app_assoc;
        eexists; (split; [reflexivity|]); by left.
    + wp_step. split; [cbn; lia|]. cbn. eexists. split; [done|]. by left.
  - wp_step. split; [done|]. exists evs3. split; [done|].
    destruct Hc as [Hno|[= ->]]; [by left|by right].
  - split; [done|]. exists evs3. split; [done|]. destruct Hc as [Hno|?]; [by left|done].
Qed.

Lemma generate_audio_long_cancel fs kwargs w :
  wp (generate_audio_long fs kwargs) w (cancel_post w).
Proof.
  unfold generate_audio_long. cbv zeta. wp_step. wp_step.
  destruct (text_splits_only (opts _)).
  { wp_step. split; [done|]. eexists. split; [done|]. right. split; [done|].
    by repeat constructor; intros (?&?&?). }
  destruct (history_prompt kwargs) as [[name|d]|].
  - wp_step. wp_step. destruct (process_history_prompt fs (Some name)) as [[path|]|e].
    + wp_step. wp_step. destruct (np_load fs path) as [base|e].
      * apply generate_audio_long_segments_cancel; [|done].
        apply since_logged; [apply since_refl|by repeat constructor; intros (?&?&?)].
      * split; [done|]. eexists. split; [done|]. left. intros n Hn. cbn in Hn. lia.
    + repeat wp_step. split; [done|]. cbn. rewrite <- app_assoc. eexists. split; [done|].
      right. split; [done|]. by repeat constructor; intros (?&?&?).
    + split; [done|]. eexists. split; [done|]. left. intros n Hn. cbn in Hn. lia.
  - wp_step. split; [done|]. eexists. split; [done|]. left. intros n Hn. cbn in Hn. lia.
  - apply generate_audio_long_segments_cancel; [|done].
    apply since_logged; [apply since_refl|by repeat constructor; intros (?&?&?)].
Qed.




Lemma wp_of_run {A} (m : M A) w r w' Q : m w = (r, w') → Q r w' → wp m w Q.
Proof. intros Hrun HQ. constructor. by rewrite Hrun. Qed.




Lemma calls_app evs1 evs2 : calls (evs1 ++ evs2) = calls evs1 ++ calls evs2.
Proof. apply omap_app. Qed.

Lemma outputs_app evs1 evs2 : outputs (evs1 ++ evs2) = outputs evs1 ++ outputs evs2.
Proof. apply omap_app. Qed.





(** Neither mode on: the segment is conditioned on the rolling prompt. *)
Lemma select_history_prompt_plain st w :
  seperate_prompts (opts (kw st)) = false →
  seperate_prompts_flipper (opts (kw st)) = false →
  select_history_prompt st w
  = (Ok (LoopState (set_history_prompt (HPDict <$> history_prompt_for_next_segment st)
                      (kw st))
           (history_prompt_for_next_segment st) (base_history st)
           (stable_mode_interval_counter st) (history_prompt_flipper st)
           (full_generation_segments st) (audio_arr_segments st)),
     w).
Proof. intros Hsep Hflip. unfold select_history_prompt. by rewrite Hflip, Hsep. Qed.



Lemma periodic_nil k base : periodic k base [].
Proof. by intros j kwj. Qed.







Lemma process_history_prompt_not_found fs name :
  ospath.dirname (prompt_file_name name) = ""%string →
  directories_with fs (prompt_file_name name) = [] →
  process_history_prompt fs (Some name) = Ok None.
Proof.
  intros Hdir Hnone. unfold process_history_prompt, prompt_file_name in *.
  destruct (ospath.splitext name) as [file_name file_extension].
  rewrite Hdir. cbn [String.eqb negb]. rewrite foldl_keeps_last_match.
  unfold directories_with in Hnone. by rewrite Hnone.
Qed.

(** C6, amended. When no candidate directory has the named bundle, the run
    (not a splits-only run) has already split the text; it then reports the
    speaker as not found, sets both cancellation flags and returns
    [(None, None, None)] without calling the pipeline or reading the flag. *)
Theorem unresolved_base_cancels fs kwargs w name :
  history_prompt kwargs = Some (HPName name) →
  text_splits_only (opts kwargs) = false →
  ospath.dirname (prompt_file_name name) = ""%string →
  directories_with fs (prompt_file_name name) = [] →
  generate_audio_long fs kwargs w
  = (Ok None,
     World true true (flag_reads w)
       (log w ++ [EvChunkUpText (text_prompt kwargs); EvSpeakerNotFound name])).
Proof.
  intros Hhp Hsplits Hdir Hnone. unfold generate_audio_long. cbv zeta.
  rewrite Hhp. cbn [opts set_history_prompt text_prompt]. rewrite Hsplits.
  rewrite run_bind. cbn [emit]. rewrite run_bind. unfold lift.
  rewrite (process_history_prompt_not_found fs name Hdir Hnone).
  rewrite !run_bind. cbn. by rewrite <- app_assoc.
Qed.

(** C3. A test of the flag inside [generate_audio_barki] that sees it set
    ends the call at once: the stages after that test are not run, nothing is
    written, and [(None, None)] is returned; and a run of
    [generate_audio_long] in which any read of the flag saw it set returns
    [(None, None, None)] and has not written the final artifact. *)
Theorem cancellation_is_all_or_nothing :
  (∀ text kw w j,
     numbered kw → j < 6 →
     flag_at w (j + flag_reads w) = true →
     no_flag_between w (flag_reads w) (j + flag_reads w) →
     ∃ w' evs,
       generate_audio_barki text kw w = (Ok (Pair None None), w') ∧
       done_cancelling w' = true ∧
       log w' = log w ++ evs ∧
       Forall (λ e, is_Some (stage_of e)) evs ∧
       omap stage_of evs = stages_before j) ∧
  (∀ fs kwargs w n,
     flag_reads w ≤ n < flag_reads (generate_audio_long fs kwargs w).2 →
     flag_at w n = true →
     (generate_audio_long fs kwargs w).1 = Ok None ∧
     ∃ evs, log (generate_audio_long fs kwargs w).2 = log w ++ evs ∧
            Forall not_final_write evs).
Proof.
  split.
  - intros text kw w j Hnum Hj Hflag Hbefore.
    destruct (generate_audio_barki_outcomes text kw w)
      as (r & w' & evs & Hrun & (_ & _ & Hlog) & _ & Hcases).
    destruct Hcases as [(j' & Hj' & _ & Hflag' & Hbefore' & -> & Hdone & Hstages & Hnames)
                       |[(e & _ & He & _)|(Hreads & Hnone & _)]].
    + assert (j' = j) as ->.
      { destruct (Nat.lt_trichotomy j' j) as [Hlt|[->|Hgt]]; [|done|].
        - rewrite Hbefore in Hflag'; [done|lia].
        - rewrite Hbefore' in Hflag; [done|lia]. }
      by exists w', evs.
    + destruct (every_x_override_numbered kw Hnum). congruence.
    + rewrite Hnone in Hflag; [done|lia].
  - intros fs kwargs w n Hn Hflag.
    pose proof (wp_elim _ _ _ (generate_audio_long_cancel fs kwargs w))
      as (_ & evs & Hlog & Hcases).
    destruct Hcases as [Hnone|[Hr Hall]].
    + rewrite Hnone in Hflag; [done|lia].
    + split; [done|]. by exists evs.
Qed.

End facts.

(** * The claims at concrete inputs *)




(** C3, witness: the UI asks to cancel at the twelfth read of the flag,
    inside the pipeline call for the second segment. *)
Lemma cancellation_is_all_or_nothing_witness :
  (generate_audio_long (H := example_external (Nat.eqb 11)) example_files
     (example_kwargs 2 false "spk") fresh_world).1 = Ok None ∧
  ∃ evs,
    log (generate_audio_long (H := example_external (Nat.eqb 11)) example_files
           (example_kwargs 2 false "spk") fresh_world).2 = log fresh_world ++ evs ∧
    Forall not_final_write evs.
Proof.
  apply (proj2 (cancellation_is_all_or_nothing (H := example_external (Nat.eqb 11)))
           example_files (example_kwargs 2 false "spk") fresh_world 11).
  - vm_compute. lia.
  - reflexivity.
Defined.

(** C4, counterexample: both directories hold the file and the second one
    is returned. *)
Lemma first_match_wins_fails :
  ¬ first_match_wins (H := example_external never) example_files "spk".
Proof.
  intros Hclaim. specialize (Hclaim eq_refl "dirA"%string eq_refl).
  vm_compute in Hclaim. discriminate Hclaim.
Qed.

(** C4, witness of the amended statement. *)
Lemma last_match_wins_witness :
  process_history_prompt (H := example_external never) example_files (Some "spk"%string)
  = Ok (Some "dirB/spk.npz"%string).
Proof.
  rewrite (last_match_wins (H := example_external never) example_files "spk" "dirB");
    reflexivity.
Defined.

(** C6, counterexample: the text has been split when the speaker is found
    missing. *)
Lemma cancelled_before_segmenting_fails :
  ¬ cancelled_before_segmenting (H := example_external never) example_files
      (example_kwargs 2 false "nobody") fresh_world.
Proof.
  intros (_ & _ & _ & Hsplit). apply (Hsplit "a bb ccc"%string).
  vm_compute. apply list_elem_of_here.
Qed.

(** C6, witness of the amended statement. *)
Lemma unresolved_base_cancels_witness :
  generate_audio_long (H := example_external never) example_files
    (example_kwargs 2 false "nobody") fresh_world
  = (Ok None,
     World true true 0 [EvChunkUpText "a bb ccc"; EvSpeakerNotFound "nobody"]).
Proof.
  apply (unresolved_base_cancels (H := example_external never) example_files
           (example_kwargs 2 false "nobody") fresh_world "nobody"); reflexivity.
Defined.

(** C7, counterexample: valid for the code, with fine and coarse of
    different lengths. *)
Lemma valid_by_the_spec_fails :
  ¬ (history_prompt_is_valid ∅ (HPDict mismatched_bundle) = Ok (Some true)
     ↔ valid_by_the_spec mismatched_bundle).
Proof.
  intros [Hfwd _].
  destruct Hfwd as (s & c & f & n & T & _ & Hc & Hf & _ & _ & Hshc & _ & Hshf & _).
  { reflexivity. }
  vm_compute in Hc, Hf. injection Hc as <-. injection Hf as <-.
  cbn in Hshc, Hshf. congruence.
Qed.

(** C7, witness of the amended statement. *)
Lemma history_prompt_is_valid_iff_witness :
  history_prompt_is_valid ∅ (HPDict mismatched_bundle) = Ok (Some true)
  ↔ ∃ s c f,
      mismatched_bundle !! "semantic_prompt"%string = Some s ∧
      mismatched_bundle !! "coarse_prompt"%string = Some c ∧
      mismatched_bundle !! "fine_prompt"%string = Some f ∧
      semantic_ok s ∧ coarse_ok s c ∧ fine_ok f.
Proof.
  apply history_prompt_is_valid_iff. intros k a Hk.
  unfold mismatched_bundle, bundle in Hk.
  repeat (apply lookup_insert_Some in Hk as [[_ <-]|[_ Hk]]; [reflexivity|]).
  by rewrite lookup_empty in Hk.
Defined.

(** C8, witness: three allocations where the path and its first candidate
    exist already. *)
Lemma unique_path_allocation_witness :
  ∃ ps cs,
    allocate_in_a_row (H := example_external never) taken_files "a/x.wav" OtherFile 3
    = Some ps ∧
    length ps = 3 ∧ NoDup ps ∧
    Forall (λ p, path_exists taken_files p = false) ps ∧
    StronglySorted lt cs ∧ Forall (λ c, 1 ≤ c) cs ∧
    ps = [] ++ (candidate "a/x" ".wav" <$> cs) ∧
    (true = false →
     generate_unique_filepath (H := example_external never) taken_files "a/x.wav"
     = Some "a/x.wav"%string).
Proof.
  exact (unique_path_allocation (H := example_external never) taken_files
           "a/x.wav" OtherFile 3).
Defined.

(** The three paths of that run. *)
Lemma unique_path_allocation_example :
  allocate_in_a_row (H := example_external never) taken_files "a/x.wav" OtherFile 3
  = Some ["a/x_2.wav"; "a/x_3.wav"; "a/x_4.wav"]%string.
Proof. reflexivity. Qed.

(** C9. On a bundle of well-formed arrays whose semantic array is empty and
    whose coarse array is well shaped, the validator does not return: the
    ratio test of the coarse report divides by the length of the semantic
    array. *)
Theorem history_prompt_is_valid_raises :
  (∀ k a, empty_semantic_bundle !! k = Some a → wf_ndarray a) ∧
  history_prompt_is_valid ∅ (HPDict empty_semantic_bundle) = Raise ZeroDivisionError.
Proof.
  split; [|reflexivity]. intros k a Hk. unfold empty_semantic_bundle, bundle in Hk.
  repeat (apply lookup_insert_Some in Hk as [[_ <-]|[_ Hk]]; [reflexivity|]).
  by rewrite lookup_empty in Hk.
Qed.

(** C10, witness: [output_full] false, the flag set from the start. *)
Lemma cancelled_call_returns_a_pair_witness :
  (generate_audio_barki (H := example_external (λ _, true)) "a"
     (set_segment_number (SegNumber 1) (example_kwargs 2 false "spk")) fresh_world).1
  = Ok (Pair None None).
Proof.
  apply (proj1 (cancelled_call_returns_a_pair (H := example_external (λ _, true)) "a"
                  (set_segment_number (SegNumber 1) (example_kwargs 2 false "spk"))
                  fresh_world ltac:(intros tag [= <-]; by eexists)) 0);
    [lia|reflexivity].
Defined.

(** * Facts about the rest of the module *)

(** ** Reports and resolution *)

Section report_facts.
Context `{External}.

Lemma coherent_fresh : coherent (Ok (Report true [])).
Proof. done. Qed.

Lemma coherent_fail r m msgs : coherent (Ok (fail r (m :: msgs))).
Proof.
  cbn. split; [done|]. intros Hnil. by apply app_eq_nil in Hnil as [_ ?].
Qed.

Lemma coherent_semantic d token_samples :
  coherent (generate_text_semantic_report d token_samples).
Proof.
  unfold generate_text_semantic_report.
  destruct (getitem d "semantic_prompt") as [s|]; [|done]. cbn [mbind result_bind].
  repeat first [ apply coherent_fail | apply coherent_fresh | done
               | match goal with
                 | |- coherent (if ?c then _ else _) => destruct c
                 | |- coherent (mbind _ ?m) => destruct m; cbn [mbind result_bind]
                 end ].
Qed.

Lemma coherent_bind (m : result report) (k : report → result report) :
  coherent m → (∀ r, coherent (Ok r) → coherent (k r)) → coherent (m ≫= k).
Proof. destruct m as [r|e]; [|done]. intros Hr Hk. by apply Hk. Qed.

Ltac coherent_cases :=
  repeat first [ apply coherent_fail | apply coherent_fresh | assumption | exact I
               | match goal with
                 | |- coherent (if ?c then _ else _) => destruct c
                 | |- coherent (mbind _ ?m) =>
                     lazymatch type of m with
                     | result report => fail
                     | _ => destruct m; cbn [mbind result_bind]
                     end
                 | |- coherent (match ?l with [] => _ | _ :: _ => _ end) => destruct l
                 end ].

Lemma coherent_coarse_checks s c token_samples r :
  coherent (Ok r) → coherent (coarse_checks s c token_samples r).
Proof.
  intros Hr. unfold coarse_checks. coherent_cases.
  apply coherent_bind; [coherent_cases|]. intros r' Hr'. coherent_cases.
Qed.

Lemma coherent_coarse d token_samples :
  coherent (generate_coarse_report d token_samples).
Proof.
  rewrite generate_coarse_report_unfold.
  destruct (getitem d "semantic_prompt") as [s|]; [|done]. cbn [mbind result_bind].
  destruct (getitem d "coarse_prompt") as [c|]; [|done]. cbn [mbind result_bind].
  pose proof (coherent_semantic (<["semantic_prompt"%string := s]> ∅) token_samples) as Hs.
  destruct (generate_text_semantic_report _ _) as [r|]; [|done]. cbn [mbind result_bind].
  by apply coherent_coarse_checks.
Qed.

Lemma coherent_fine d token_samples :
  coherent (generate_fine_report d token_samples).
Proof.
  unfold generate_fine_report.
  destruct (getitem d "fine_prompt") as [f|]; [|done]. cbn [mbind result_bind].
  repeat first [ apply coherent_fail | apply coherent_fresh | done
               | match goal with
                 | |- coherent (if ?c then _ else _) => destruct c
                 | |- coherent (mbind _ ?m) => destruct m; cbn [mbind result_bind]
                 | |- coherent (match ?l with [] => _ | _ :: _ => _ end) => destruct l
                 end ].
Qed.

(** X1. Each of the three reports (semantic, coarse, fine), when it is
    produced, is valid exactly when it carries no message, whatever the
    bundle and the number of token samples. *)
Theorem report_valid_iff_no_message d token_samples :
  coherent (generate_text_semantic_report d token_samples) ∧
  coherent (generate_coarse_report d token_samples) ∧
  coherent (generate_fine_report d token_samples).
Proof.
  split; [apply coherent_semantic|]. split; [apply coherent_coarse|apply coherent_fine].
Qed.

(** X2. A path returned by [process_history_prompt] was asked for
    by name, exists, and is a file that [history_prompt_is_valid] accepts; it
    is the name as given (with [.npz] when it had no extension) when that has
    a directory part, and that name inside one of the configured directories
    when it has none. *)
Theorem process_history_prompt_sound fs user_history_prompt path :
  process_history_prompt fs user_history_prompt = Ok (Some path) →
  ∃ name,
    user_history_prompt = Some name ∧
    path_exists fs path = true ∧
    history_prompt_is_valid fs (HPName path) = Ok (Some true) ∧
    if decide (ospath.dirname (prompt_file_name name) = ""%string)
    then ∃ directory, directory ∈ VALID_HISTORY_PROMPT_DIRS ∧
                      path = ospath.join directory (prompt_file_name name)
    else path = prompt_file_name name.
Proof.
  destruct user_history_prompt as [name|]; [|done]. intros Hrun. exists name.
  split; [done|]. unfold process_history_prompt, prompt_file_name in *.
  destruct (ospath.splitext name) as [file_name file_extension].
  set (file := file_name +:+ _) in *.
  assert (∀ found,
            (ok ← history_prompt_is_valid fs (HPName found);
             if negb (truthy ok) then Ok None else Ok (Some found)) = Ok (Some path) →
            found = path ∧ history_prompt_is_valid fs (HPName path) = Ok (Some true))
    as Hvalid.
  { intros found Hfound.
    destruct (history_prompt_is_valid fs (HPName found)) as [[[|]|]|] eqn:Hok; try done.
    cbn in Hfound. by injection Hfound as <-. }
  destruct (decide (ospath.dirname file = ""%string)) as [Hdir|Hdir].
  - rewrite Hdir in Hrun. cbn [String.eqb negb] in Hrun.
    rewrite foldl_keeps_last_match in Hrun.
    destruct (last (filter _ VALID_HISTORY_PROMPT_DIRS)) as [directory|] eqn:Hlast; [|done].
    apply Hvalid in Hrun as [<- Hok].
    apply last_Some_elem_of, list_elem_of_filter in Hlast as [Hex Hin].
    split; [done|]. split; [done|]. by exists directory.
  - apply String.eqb_neq in Hdir. rewrite Hdir in Hrun. cbn [negb] in Hrun.
    destruct (path_exists fs file) eqn:Hex; [|done].
    apply Hvalid in Hrun as [<- Hok]. done.
Qed.

End report_facts.

(** ** The printed report *)

Section printed_report_facts.
Context `{External}.

Lemma verdict_fail r r' msgs msgs' :
  verdict (Ok (fail r msgs)) = verdict (Ok (fail r' msgs')).
Proof. done. Qed.

Lemma verdict_bind (m m' : result report) (k k' : report → result report) :
  verdict m = verdict m' →
  (∀ r r', valid r = valid r' → verdict (k r) = verdict (k' r')) →
  verdict (m ≫= k) = verdict (m' ≫= k').
Proof.
  destruct m as [r|e], m' as [r'|e']; cbn; intros [=] Hk; subst; [|done].
  by apply Hk.
Qed.

Ltac verdict_cases :=
  repeat first [ reflexivity | apply verdict_fail | assumption
               | match goal with
                 | |- verdict (if ?c then _ else _) = _ => destruct c
                 | |- verdict (mbind _ ?m) = _ =>
                     lazymatch type of m with
                     | result report => fail
                     | _ => destruct m; cbn [mbind result_bind]
                     end
                 | |- verdict (match ?l with [] => _ | _ :: _ => _ end) = _ => destruct l
                 end ].

Lemma verdict_semantic d ts ts' :
  verdict (generate_text_semantic_report d ts)
  = verdict (generate_text_semantic_report d ts').
Proof. unfold generate_text_semantic_report. verdict_cases. Qed.

Lemma verdict_fine d ts ts' :
  verdict (generate_fine_report d ts) = verdict (generate_fine_report d ts').
Proof. unfold generate_fine_report. verdict_cases. Qed.

Lemma verdict_coarse_checks s c ts ts' r r' :
  valid r = valid r' →
  verdict (coarse_checks s c ts r) = verdict (coarse_checks s c ts' r').
Proof.
  intros Hr. unfold coarse_checks.
  assert (verdict (Ok r) = verdict (Ok r')) as Hv by (cbn; congruence).
  verdict_cases.
  apply verdict_bind; [verdict_cases|]. intros r1 r1' Hr1.
  assert (verdict (Ok r1) = verdict (Ok r1')) as Hv1 by (cbn; congruence).
  verdict_cases.
Qed.

Lemma verdict_coarse d ts ts' :
  verdict (generate_coarse_report d ts) = verdict (generate_coarse_report d ts').
Proof.
  rewrite !generate_coarse_report_unfold.
  destruct (getitem d "semantic_prompt") as [s|]; [|done]. cbn [mbind result_bind].
  destruct (getitem d "coarse_prompt") as [c|]; [|done]. cbn [mbind result_bind].
  apply verdict_bind; [apply verdict_semantic|]. apply verdict_coarse_checks.
Qed.

Lemma display_valid r :
  display_history_prompt_report r = [LineValid] ↔ valid r = true.
Proof. unfold display_history_prompt_report. by destruct (valid r). Qed.

(** X3. The detailed report prints [valid] under each of its three
    headings, and nothing else, exactly when [history_prompt_is_valid]
    returns [True], whatever the number of token samples; and where
    [history_prompt_is_valid] raises, the detailed report does not: it
    prints that exception in place of the report that failed. *)
Theorem detailed_report_agrees fs history_prompt token_samples :
  (history_prompt_is_valid fs history_prompt = Ok (Some true)
   ↔ history_prompt_detailed_report fs history_prompt token_samples = all_valid) ∧
  ∀ e, history_prompt_is_valid fs history_prompt = Raise e →
       ∃ name, LineReportError name e
               ∈ history_prompt_detailed_report fs history_prompt token_samples.
Proof.
  unfold history_prompt_is_valid, history_prompt_detailed_report, all_valid.
  destruct (_load_history_prompt fs history_prompt) as [d|e0]; [|done].
  pose proof (verdict_semantic d 3 token_samples) as Hs.
  pose proof (verdict_coarse d 3 token_samples) as Hc.
  pose proof (verdict_fine d 3 token_samples) as Hf.
  destruct (generate_text_semantic_report d 3) as [rs|es],
           (generate_text_semantic_report d token_samples) as [rs'|es'];
    cbn in Hs; simplify_eq;
  destruct (generate_coarse_report d 3) as [rc|ec],
           (generate_coarse_report d token_samples) as [rc'|ec'];
    cbn in Hc; simplify_eq;
  destruct (generate_fine_report d 3) as [rf|ef],
           (generate_fine_report d token_samples) as [rf'|ef'];
    cbn in Hf; simplify_eq;
  cbn [mbind result_bind];
  (split;
   [ unfold display_history_prompt_report;
     repeat match goal with Hv : valid _ = valid _ |- _ => rewrite <- Hv; clear Hv end;
     repeat match goal with |- context [valid ?r] => destruct (valid r) end;
     cbn; split; intros Heq; done
   | intros e He; simplify_eq;
     eexists; rewrite !elem_of_app;
     first [ left; by apply list_elem_of_here
           | right; left; by apply list_elem_of_here
           | right; right; by apply list_elem_of_here ] ]).
Qed.

End printed_report_facts.

(** ** Fresh paths *)

Section path_facts.
Context `{External}.

Lemma string_app_assoc (s t u : string) : (s +:+ t) +:+ u = s +:+ (t +:+ u).
Proof.
  induction s as [|a s IH]; [done|].
  change (String a ((s +:+ t) +:+ u) = String a (s +:+ (t +:+ u))). by rewrite IH.
Qed.

Lemma string_app_empty_r (s : string) : s +:+ "" = s.
Proof.
  induction s as [|a s IH]; [done|]. change (String a (s +:+ "") = String a s).
  by rewrite IH.
Qed.

(** A directory candidate is a file candidate without extension, over a
    stem that does not depend on the counter. *)
Lemma dir_candidate_stem parent_dir base_name :
  ∃ stem, ∀ counter,
    ospath.join parent_dir (base_name +:+ "_" +:+ pretty counter)
    = candidate stem "" counter.
Proof.
  unfold ospath.join, candidate.
  destruct (ospath.startswith_sep (base_name +:+ "_" +:+ pretty 0)) eqn:Hstart.
  - exists base_name. intros counter.
    replace (ospath.startswith_sep (base_name +:+ "_" +:+ pretty counter)) with true.
    { by rewrite string_app_empty_r. }
    rewrite <- Hstart. by destruct base_name.
  - destruct (String.eqb parent_dir "" || ospath.endswith_sep parent_dir).
    + exists (parent_dir +:+ base_name). intros counter.
      replace (ospath.startswith_sep (base_name +:+ "_" +:+ pretty counter)) with false.
      { by rewrite string_app_empty_r, string_app_assoc. }
      rewrite <- Hstart. by destruct base_name.
    + exists (parent_dir +:+ String ospath.sep base_name). intros counter.
      replace (ospath.startswith_sep (base_name +:+ "_" +:+ pretty counter)) with false.
      { rewrite string_app_empty_r, string_app_assoc. done. }
      rewrite <- Hstart. by destruct base_name.
Qed.

Lemma unique_dirpath_loop_as_files fs parent_dir base_name stem fuel cur counter :
  (∀ c, ospath.join parent_dir (base_name +:+ "_" +:+ pretty c) = candidate stem "" c) →
  unique_dirpath_loop fs parent_dir base_name fuel cur counter
  = unique_filepath_loop fs stem "" fuel cur counter.
Proof.
  intros Hstem. revert cur counter.
  induction fuel as [|fuel IH]; intros cur counter; [done|].
  cbn [unique_dirpath_loop unique_filepath_loop].
  destruct (path_exists fs cur); [|done]. rewrite IH, Hstem. done.
Qed.

(** X4. [generate_unique_dirpath] always returns, and what it
    returns does not exist: the sanitized path when that is free, and
    otherwise [parent/base_c] for the least [c >= 1] for which it is free. *)
Theorem generate_unique_dirpath_fresh fs dirpath :
  ∃ r, generate_unique_dirpath fs dirpath = Some r ∧
       path_exists fs r = false ∧
       if path_exists fs (sanitize_filepath dirpath) then
         ∃ c, 1 ≤ c ∧ r = dir_candidate dirpath c ∧
              ∀ j, 1 ≤ j < c → path_exists fs (dir_candidate dirpath j) = true
       else r = sanitize_filepath dirpath.
Proof.
  unfold generate_unique_dirpath, dir_candidate.
  destruct (dir_candidate_stem (ospath.dirname dirpath) (ospath.basename dirpath))
    as [stem Hstem].
  rewrite (unique_dirpath_loop_as_files _ _ _ stem) by done.
  destruct (unique_filepath_loop fs stem "" (S (S (size fs))) (sanitize_filepath dirpath) 1)
    as [r|] eqn:Hloop.
  - exists r. split; [done|]. apply unique_filepath_loop_sound in Hloop as [Hfree Hr].
    split; [done|]. destruct (path_exists fs (sanitize_filepath dirpath)) eqn:Hsan.
    + destruct Hr as [->|[_ (c & Hc & -> & Hbelow)]]; [congruence|].
      exists c. split; [done|]. rewrite Hstem. split; [done|].
      intros j Hj. rewrite Hstem. by apply Hbelow.
    + destruct Hr as [->|[Hex _]]; [done|congruence].
  - pose proof (unique_filepath_loop_None _ _ _ _ _ _ Hloop) as Hall.
    apply candidates_bounded in Hall. lia.
Qed.

(** X5. [generate_unique_filepath] always returns, and what it
    returns does not exist: the sanitized path when that is free, and
    otherwise [name_c ext] for the least [c >= 1] for which it is free, so
    that every candidate with a smaller counter exists. *)
Theorem generate_unique_filepath_least fs filepath :
  let name := (ospath.splitext filepath).1 in
  let ext := (ospath.splitext filepath).2 in
  ∃ r, generate_unique_filepath fs filepath = Some r ∧
       path_exists fs r = false ∧
       if path_exists fs (sanitize_filepath filepath) then
         ∃ c, 1 ≤ c ∧ r = candidate name ext c ∧
              ∀ j, 1 ≤ j < c → path_exists fs (candidate name ext j) = true
       else r = sanitize_filepath filepath.
Proof.
  intros name ext.
  destruct (generate_unique_filepath_spec fs filepath) as (r & Hr & Hfree & Hclean & Hcand).
  exists r. split; [done|]. split; [done|].
  destruct (path_exists fs (sanitize_filepath filepath)); auto.
Qed.

End path_facts.

(** ** The writers *)

Section writer_facts.
Context `{External} `{Disk}.

Lemma io_bind_run {A B} (m : IO A) (k : A → IO B) fs :
  (m ≫= k) fs = match m fs with
                | Some (Ok a, fs') => k a fs'
                | Some (Raise e, fs') => Some (Raise e, fs')
                | None => None
                end.
Proof. reflexivity. Qed.

Lemma io_ret_run {A} (a : A) fs : (mret a : IO A) fs = Some (Ok a, fs).
Proof. reflexivity. Qed.

Ltac io_run :=
  repeat first [ rewrite io_bind_run | rewrite io_ret_run | progress cbv beta iota ].

Lemma unique_filepath_run fs filepath :
  ∃ u, generate_unique_filepath fs filepath = Some u ∧
       unique_filepath filepath fs = Some (Ok u, fs) ∧
       path_exists fs u = false.
Proof.
  destruct (generate_unique_filepath_spec fs filepath) as (u & Hu & Hfree & _).
  exists u. split; [done|]. split; [|done]. unfold unique_filepath. by rewrite Hu.
Qed.

Lemma load_npz_insert fs p s c f :
  load_npz (<[p := NpzFile (bundle s c f)]> fs) p = Ok (bundle s c f).
Proof.
  unfold load_npz, np_load. rewrite lookup_insert_eq. reflexivity.
Qed.

(** X6. Outside a dry run, with [always_save_speaker] on and a bundle
    that has its three arrays, [write_seg_npz] writes one file and nothing
    else: the free path allocated for the name (after [_initial_prompt.npz]
    for the base history), to which [np.savez] appends [.npz] when it does
    not end in it; [load_npz] of that file gives the three arrays back; and
    the file did not exist before when the allocated path ends in [.npz]. *)
Theorem write_seg_npz_saves fs filepath full_generation kw wo s c f :
  dry_run (opts kw) = false → always_save_speaker wo = true →
  full_generation !! "semantic_prompt"%string = Some s →
  full_generation !! "coarse_prompt"%string = Some c →
  full_generation !! "fine_prompt"%string = Some f →
  ∃ u,
    generate_unique_filepath fs
      (if is_base_history kw then filepath +:+ "_initial_prompt.npz" else filepath)
    = Some u ∧
    write_seg_npz filepath full_generation kw wo fs
    = Some (Ok (), <[npz_name u := NpzFile (bundle s c f)]> fs) ∧
    load_npz (<[npz_name u := NpzFile (bundle s c f)]> fs) (npz_name u)
    = Ok (bundle s c f) ∧
    (endswith u ".npz" = true → path_exists fs (npz_name u) = false).
Proof.
  intros Hdry Hsave Hs Hc Hf. unfold write_seg_npz. rewrite Hdry, Hsave. cbn [negb andb].
  destruct (unique_filepath_run fs
              (if is_base_history kw then filepath +:+ "_initial_prompt.npz" else filepath))
    as (u & Hu & Hrun & Hfree).
  exists u. split; [done|]. rewrite io_bind_run, Hrun. rewrite Hs.
  rewrite bool_decide_eq_true_2 by by eexists.
  unfold getitem. rewrite Hs, Hc, Hf. split; [reflexivity|].
  split; [apply load_npz_insert|]. intros Hend. unfold npz_name. by rewrite Hend.
Qed.

(** X7. When one of the three arrays is missing from the bundle,
    [write_seg_npz] writes nothing: it raises [KeyError] when it is to save
    (no dry run, [always_save_speaker] on) and the semantic array is there,
    and returns quietly otherwise. *)
Theorem write_seg_npz_incomplete_bundle fs filepath full_generation kw wo :
  ¬ (is_Some (full_generation !! "semantic_prompt"%string) ∧
     is_Some (full_generation !! "coarse_prompt"%string) ∧
     is_Some (full_generation !! "fine_prompt"%string)) →
  write_seg_npz filepath full_generation kw wo fs
  = Some (if negb (dry_run (opts kw)) && always_save_speaker wo
             && bool_decide (is_Some (full_generation !! "semantic_prompt"%string))
          then Raise KeyError else Ok (), fs).
Proof.
  intros Hmissing. unfold write_seg_npz.
  destruct (negb (dry_run (opts kw)) && always_save_speaker wo); [|done].
  destruct (unique_filepath_run fs
              (if is_base_history kw then filepath +:+ "_initial_prompt.npz" else filepath))
    as (u & Hu & Hrun & Hfree).
  rewrite io_bind_run, Hrun. cbn [andb].
  destruct (full_generation !! "semantic_prompt"%string) as [s|] eqn:Hs.
  2:{ rewrite bool_decide_eq_false_2; [done|]. by intros [? ?]. }
  rewrite bool_decide_eq_true_2 by by eexists.
  unfold getitem. rewrite Hs.
  destruct (full_generation !! "coarse_prompt"%string) as [c|] eqn:Hc; [|done].
  destruct (full_generation !! "fine_prompt"%string) as [f|] eqn:Hf; [|done].
  destruct Hmissing. by repeat split.
Qed.

(** X8. In a dry run [write_seg_npz], [write_seg_wav] and
    [write_audiofile] leave the file system as it is and return normally;
    [write_one_segment] does to the file system what
    [determine_output_filename] does, which makes the output directory, and
    nothing else, and fails only where that fails. *)
Theorem dry_run_writes_nothing fs filepath audio_arr full_generation kw wo a g :
  dry_run (opts kw) = true →
  write_seg_npz filepath full_generation kw wo fs = Some (Ok (), fs) ∧
  write_seg_wav filepath audio_arr kw wo fs = Some (Ok (), fs) ∧
  write_audiofile filepath audio_arr kw wo fs = Some (Ok (), fs) ∧
  write_one_segment a g kw wo fs
  = (_ ← determine_output_filename_on_disk kw wo; mret ()) fs.
Proof.
  intros Hdry.
  assert (∀ p fg fs, write_seg_npz p fg kw wo fs = Some (Ok (), fs)) as Hnpz.
  { intros p fg fs0. unfold write_seg_npz. by rewrite Hdry. }
  assert (∀ p au fs, write_seg_wav p au kw wo fs = Some (Ok (), fs)) as Hwav.
  { intros p au fs0. unfold write_seg_wav. by rewrite Hdry. }
  split; [done|]. split; [done|]. split.
  - unfold write_audiofile.
    destruct (unique_filepath_run fs filepath) as (u & Hu & Hrun & Hfree).
    rewrite io_bind_run, Hrun, Hdry. cbn [negb]. by destruct (bool_decide _).
  - unfold write_one_segment. rewrite Hdry. cbn [negb]. rewrite andb_false_r.
    rewrite !(io_bind_run (determine_output_filename_on_disk kw wo)).
    destruct (determine_output_filename_on_disk kw wo fs) as [[[p|e] fs1]|]; [|done|done].
    destruct g as [fg|], a as [au|]; try destruct (negb (is_base_history kw));
      repeat first [ rewrite io_bind_run | rewrite io_ret_run | rewrite Hnpz
                   | rewrite Hwav | progress cbv beta iota ];
      reflexivity.
Qed.

Lemma write_audiofile_run fs output_filepath audio_arr kw wo :
  dry_run (opts kw) = false →
  ∃ u, generate_unique_filepath fs output_filepath = Some u ∧
       path_exists fs u = false ∧
       write_audiofile output_filepath audio_arr kw wo fs
       = Some (Ok (),
               if bool_decide (default "mp3"%string (output_format wo) ∈ export_formats)
               then delete temp_wav (<[u := OtherFile]> (<[temp_wav := OtherFile]> fs))
               else <[u := OtherFile]> fs).
Proof.
  intros Hdry. unfold write_audiofile.
  destruct (unique_filepath_run fs output_filepath) as (u & Hu & Hrun & Hfree).
  exists u. split; [done|]. split; [done|].
  rewrite io_bind_run, Hrun, Hdry. cbn [negb]. fold export_formats temp_wav.
  destruct (bool_decide (default "mp3"%string (output_format wo) ∈ export_formats)); [|done].
  rewrite io_bind_run. unfold write_wav, write_file at 1. cbv beta iota.
  rewrite io_bind_run. unfold from_wav.
  rewrite path_exists_insert, bool_decide_eq_true_2 by done. cbn [orb].
  rewrite io_bind_run. unfold export, write_file. cbv beta iota.
  unfold os_remove. rewrite !path_exists_insert.
  rewrite (bool_decide_eq_true_2 (temp_wav = temp_wav)) by done.
  by rewrite orb_true_l, orb_true_r.
Qed.

(** X9. Outside a dry run [write_audiofile] returns normally, creates
    the audio at the path [generate_unique_filepath] allocates, which was
    free, and leaves every other file as it was, except the file named
    [{output_filepath}.tmp.wav] as it stands: for mp3, ogg, flac and mp4, and
    when no format is given, that file is written and then removed, so that
    it does not exist afterwards; for another format it is not touched. *)
Theorem write_audiofile_effect fs output_filepath audio_arr kw wo :
  dry_run (opts kw) = false →
  ∃ u fs',
    generate_unique_filepath fs output_filepath = Some u ∧
    path_exists fs u = false ∧
    write_audiofile output_filepath audio_arr kw wo fs = Some (Ok (), fs') ∧
    (∀ q, q ≠ u → q ≠ temp_wav → fs' !! q = fs !! q) ∧
    (u ≠ temp_wav → fs' !! u = Some OtherFile) ∧
    if bool_decide (default "mp3"%string (output_format wo) ∈ export_formats)
    then fs' !! temp_wav = None
    else u ≠ temp_wav → fs' !! temp_wav = fs !! temp_wav.
Proof.
  intros Hdry.
  destruct (write_audiofile_run fs output_filepath audio_arr kw wo Hdry)
    as (u & Hu & Hfree & Hrun).
  exists u. eexists. split; [done|]. split; [done|]. split; [exact Hrun|].
  destruct (bool_decide (default "mp3"%string (output_format wo) ∈ export_formats)).
  - split; [|split].
    + intros q Hq Htemp. by rewrite lookup_delete_ne, !lookup_insert_ne.
    + intros Hne. rewrite lookup_delete_ne by done. apply lookup_insert_eq.
    + apply lookup_delete_eq.
  - split; [|split].
    + intros q Hq _. by rewrite lookup_insert_ne.
    + intros _. apply lookup_insert_eq.
    + intros Hne. by rewrite lookup_insert_ne.
Qed.

Lemma generate_unique_filepath_free fs p :
  sanitize_filepath p = p → path_exists fs p = false →
  generate_unique_filepath fs p = Some p.
Proof.
  intros Hclean Hfree.
  destruct (generate_unique_filepath_spec fs p) as (r & Hr & _ & Hsan & _).
  rewrite Hr. f_equal. rewrite Hclean in Hsan. by apply Hsan.
Qed.

Lemma substring_skip (p s : string) n :
  substring (String.length p) n (p +:+ s) = substring 0 n s.
Proof. induction p as [|a p IH]; [done|]. exact IH. Qed.

Lemma substring_all (s : string) : substring 0 (String.length s) s = s.
Proof. induction s as [|a s IH]; [done|]. cbn. by rewrite IH. Qed.

Lemma endswith_app (p suffix : string) : endswith (p +:+ suffix) suffix = true.
Proof.
  unfold endswith. rewrite string_length_app.
  replace (String.length p + String.length suffix - String.length suffix)
    with (String.length p) by lia.
  rewrite substring_skip, substring_all, String.eqb_refl.
  rewrite andb_true_r. apply Nat.leb_le. lia.
Qed.

Lemma string_app_ne (p s : string) : s ≠ ""%string → p +:+ s ≠ p.
Proof.
  intros Hs Heq. apply (f_equal String.length) in Heq.
  rewrite string_length_app in Heq. destruct s; [done|]. cbn in Heq. lia.
Qed.

(** X10. Outside a dry run and with [always_save_speaker] on,
    [write_one_segment] of a segment that is not the base history, given
    audio and a bundle with its three arrays, when
    [determine_output_filename] returns a file name that is free, is its own
    sanitized form, does not end in [.npz] and is not the temporary name of
    [write_audiofile], leaves the audio at that name and the bundle at that
    name followed by [.npz]. *)
Theorem write_one_segment_places fs fs1 filepath audio_arr full_generation kw wo s c f :
  determine_output_filename_on_disk kw wo fs = Some (Ok filepath, fs1) →
  dry_run (opts kw) = false → always_save_speaker wo = true →
  is_base_history kw = false →
  full_generation !! "semantic_prompt"%string = Some s →
  full_generation !! "coarse_prompt"%string = Some c →
  full_generation !! "fine_prompt"%string = Some f →
  sanitize_filepath filepath = filepath →
  path_exists fs1 filepath = false →
  endswith filepath ".npz" = false →
  filepath ≠ temp_wav →
  ∃ fs',
    write_one_segment (Some audio_arr) (Some full_generation) kw wo fs
    = Some (Ok (), fs') ∧
    fs' !! filepath = Some OtherFile ∧
    fs' !! (filepath +:+ ".npz") = Some (NpzFile (bundle s c f)).
Proof.
  intros Hname Hdry Hsave Hbase Hs Hc Hf Hclean Hfree Hext Htemp.
  unfold write_one_segment. rewrite io_bind_run, Hname. cbv beta iota.
  rewrite Hdry, Hbase. cbn [negb]. rewrite andb_true_r.
  (* the bundle *)
  assert (write_seg_npz filepath full_generation kw wo fs1
          = Some (Ok (), <[filepath +:+ ".npz" := NpzFile (bundle s c f)]> fs1)) as Hnpz.
  { unfold write_seg_npz. rewrite Hdry, Hsave, Hbase. cbn [negb andb].
    rewrite io_bind_run. unfold unique_filepath.
    rewrite (generate_unique_filepath_free fs1 filepath) by done.
    cbn [mbind option_bind]. rewrite bool_decide_eq_true_2 by by eexists.
    unfold getitem. rewrite Hs, Hc, Hf. unfold io_lift, np_savez.
    rewrite !io_bind_run. cbv beta iota. by rewrite Hext. }
  set (fs2 := <[filepath +:+ ".npz" := NpzFile (bundle s c f)]> fs1) in *.
  assert (filepath +:+ ".npz" ≠ filepath) as Hne by by apply string_app_ne.
  assert (path_exists fs2 filepath = false) as Hfree2.
  { unfold fs2. rewrite path_exists_insert, Hfree.
    by rewrite bool_decide_eq_false_2. }
  (* the audio *)
  destruct (write_audiofile_run fs2 filepath audio_arr kw wo Hdry) as (u & Hu & _ & Hwav).
  rewrite (generate_unique_filepath_free fs2 filepath) in Hu by done.
  injection Hu as <-.
  set (fs3 := if bool_decide _ then _ else _) in Hwav.
  assert (write_seg_wav filepath audio_arr kw wo fs2 = Some (Ok (), fs3)) as Hseg.
  { unfold write_seg_wav. rewrite Hdry. cbn [negb]. rewrite io_bind_run.
    unfold unique_filepath. rewrite (generate_unique_filepath_free fs2 filepath) by done.
    exact Hwav. }
  assert (filepath +:+ ".npz" ≠ temp_wav) as Hnpz_temp.
  { intros Heq. pose proof (endswith_app filepath ".npz") as Hend.
    rewrite Heq in Hend. done. }
  assert (fs3 !! filepath = Some OtherFile ∧
          fs3 !! (filepath +:+ ".npz") = Some (NpzFile (bundle s c f))) as [Haudio Hbundle].
  { unfold fs3, fs2. destruct (bool_decide _).
    - rewrite !lookup_delete_ne by done. rewrite lookup_insert_eq.
      rewrite !lookup_insert_ne by done. by rewrite lookup_insert_eq.
    - rewrite lookup_insert_eq. rewrite lookup_insert_ne by done.
      by rewrite lookup_insert_eq. }
  rewrite io_bind_run, Hnpz. cbv beta iota. rewrite io_bind_run, Hseg. cbv beta iota.
  destruct (hoarder_mode (opts kw)).
  - (* the parameters, logged beside them *)
    unfold log_params. rewrite io_bind_run.
    destruct (unique_filepath_run fs3 (filepath +:+ "_info.txt")) as (v & _ & -> & Hv).
    unfold write_file. eexists. split; [done|].
    assert (v ≠ filepath) as Hv1.
    { intros ->. unfold path_exists in Hv. rewrite Haudio in Hv.
      by rewrite bool_decide_eq_true_2 in Hv. }
    assert (v ≠ filepath +:+ ".npz") as Hv2.
    { intros ->. unfold path_exists in Hv. rewrite Hbundle in Hv.
      by rewrite bool_decide_eq_true_2 in Hv. }
    by rewrite !lookup_insert_ne.
  - exists fs3. by rewrite io_ret_run.
Qed.

End writer_facts.

(** ** Resizing and seeding *)

Section number_facts.

Lemma mjoin_singletons (d : list Z) :
  mjoin ((λ i, take 1 (drop (i * 1) d)) <$> seq 0 (length d)) = d.
Proof.
  induction d as [|x d IH]; [done|].
  cbn [length seq fmap list_fmap mjoin list_join].
  rewrite <- fmap_S_seq, <- list_fmap_compose.
  change (x :: mjoin ((λ i, take 1 (drop (i * 1) d)) <$> seq 0 (length d)) = x :: d).
  by rewrite IH.
Qed.

Lemma np_pad_1d width c n d :
  length d = n →
  np_pad width c (NdArray [n] d) = NdArray [n + width] (d ++ replicate width c).
Proof.
  intros <-. unfold np_pad. cbn [shape data fmap list_fmap pad_after foldr].
  by rewrite mjoin_singletons, Nat.mul_1_r.
Qed.

Lemma last_rows_1d k n d :
  length d = n →
  last_rows k (NdArray [n] d)
  = NdArray [n - (if (0 <? k)%Z then Z.to_nat (Z.of_nat n - k) else Z.to_nat (- k))]
            (drop (if (0 <? k)%Z then Z.to_nat (Z.of_nat n - k) else Z.to_nat (- k)) d).
Proof.
  intros Hlen. unfold last_rows, slice0, row_width. cbn [shape data tail foldr].
  set (start := if (0 <? k)%Z then _ else _).
  rewrite Nat.min_id, !Nat.mul_1_r.
  destruct (Nat.le_ge_cases start n) as [Hle|Hge].
  - rewrite Nat.min_l by done. f_equal. apply take_ge. rewrite length_drop. lia.
  - rewrite Nat.min_r by done. replace (n - start) with 0 by lia.
    rewrite Nat.sub_diag. rewrite (drop_ge d start) by lia. done.
Qed.

(** X11. For a 1-D history and a target length
    [int(max_len * weight)] that is positive, [resize_semantic_history]
    returns an array of exactly that length, of the values of the history
    cast to int64: the last of them when the history is longer, and all of
    them followed by [SEMANTIC_PAD_TOKEN]s otherwise. *)
Theorem resize_semantic_history_length semantic_history weight max_len n new_len :
  shape semantic_history = [n] → wf_ndarray semantic_history →
  target_length weight max_len = Returns new_len →
  (0 < new_len)%Z →
  resize_semantic_history semantic_history weight max_len
  = Returns
      (NdArray [Z.to_nat new_len]
         (if (new_len <? Z.of_nat n)%Z
          then drop (n - Z.to_nat new_len) (int64 <$> data semantic_history)
          else (int64 <$> data semantic_history)
               ++ replicate (Z.to_nat new_len - n) SEMANTIC_PAD_TOKEN)).
Proof.
  intros Hshape Hwf Htarget Hpos. destruct semantic_history as [shp d].
  cbn [shape data] in *. subst shp. unfold wf_ndarray, arr_size in Hwf. cbn in Hwf.
  rewrite Nat.mul_1_r in Hwf.
  assert (length (int64 <$> d) = n) as Hcast by (by rewrite length_fmap).
  unfold resize_semantic_history, astype_int64. unfold target_length in Htarget.
  destruct (py_float max_len) as [m|e]; [|done]. cbn [mbind outcome_bind] in *.
  rewrite Htarget. cbn [mbind outcome_bind arr_len shape data of_result].
  destruct (Z.ltb_spec new_len (Z.of_nat n)) as [Hlonger|Hshorter].
  - rewrite (last_rows_1d _ _ _ Hcast). destruct (Z.ltb_spec 0 new_len); [|lia].
    do 3 f_equal; clear - Hlonger Hpos; lia.
  - rewrite (np_pad_1d _ _ _ _ Hcast).
    do 3 f_equal; [|f_equal]; clear - Hshorter Hpos; lia.
Qed.

(** X12. For a target length [new_len = int(max_len * weight)] that is
    zero or negative, the result for a 1-D history is the history, cast to
    int64, without its first [-new_len] values: the whole history for length
    0, not an empty array. *)
Theorem resize_semantic_history_keeps_all semantic_history weight max_len n new_len :
  shape semantic_history = [n] → wf_ndarray semantic_history →
  target_length weight max_len = Returns new_len →
  (new_len ≤ 0)%Z →
  resize_semantic_history semantic_history weight max_len
  = Returns (NdArray [n - Z.to_nat (- new_len)]
               (drop (Z.to_nat (- new_len)) (int64 <$> data semantic_history))).
Proof.
  intros Hshape Hwf Htarget Hneg. destruct semantic_history as [shp d].
  cbn [shape data] in *. subst shp. unfold wf_ndarray, arr_size in Hwf. cbn in Hwf.
  rewrite Nat.mul_1_r in Hwf.
  assert (length (int64 <$> d) = n) as Hcast by (by rewrite length_fmap).
  unfold resize_semantic_history, astype_int64. unfold target_length in Htarget.
  destruct (py_float max_len) as [m|e]; [|done]. cbn [mbind outcome_bind] in *.
  rewrite Htarget. cbn [mbind outcome_bind arr_len shape data of_result].
  destruct (Z.ltb_spec new_len (Z.of_nat n)).
  - rewrite (last_rows_1d _ _ _ Hcast). by destruct (Z.ltb_spec 0 new_len); [lia|].
  - assert (new_len = 0%Z ∧ n = 0) as [-> ->] by lia. destruct d; [|done].
    by rewrite (np_pad_1d _ _ _ _ Hcast).
Qed.

Lemma set_seed_positive strict drawn seed st :
  (0 < seed < 2 ^ 32)%Z →
  (set_seed strict drawn seed st).1 = Returns seed ∧
  seeded_with seed (set_seed strict drawn seed st).2.
Proof.
  intros Hseed. unfold set_seed.
  destruct (Z.leb_spec seed 0); [lia|].
  destruct (Z.ltb_spec 0 seed); [|lia]. destruct (Z.ltb_spec seed (2 ^ 32)); [|lia].
  destruct (Z.eqb_spec seed 0); [lia|]. done.
Qed.

(** X13. For a seed with [0 < seed < 2^32], and for seed 0 where
    [random.seed] takes the [numpy.int64] that is drawn (before Python
    3.11), [set_seed] returns a seed [v] with [0 < v < 2^32] with which
    numpy, random, torch, cuda and [PYTHONHASHSEED] are seeded; and
    [set_seed v] then returns [v] and seeds them with [v] again, whatever
    the interpreter and whatever it would draw. *)
Theorem set_seed_replay strict strict' drawn drawn' seed st st' :
  (1 ≤ drawn < 2 ^ 32 - 1)%Z → (0 ≤ seed < 2 ^ 32)%Z →
  (seed = 0%Z → strict = false) →
  ∃ v, (set_seed strict drawn seed st).1 = Returns v ∧
       (0 < v < 2 ^ 32)%Z ∧
       seeded_with v (set_seed strict drawn seed st).2 ∧
       (set_seed strict' drawn' v st').1 = Returns v ∧
       seeded_with v (set_seed strict' drawn' v st').2.
Proof.
  intros Hdrawn Hseed Hlenient. destruct (decide (seed = 0%Z)) as [->|Hne].
  - rewrite (Hlenient eq_refl).
    exists drawn. assert (0 < drawn < 2 ^ 32)%Z as Hd by lia.
    destruct (set_seed_positive strict' drawn' drawn st' Hd) as [Hv Hs].
    split; [|split; [done|split; [|done]]].
    + unfold set_seed. cbn [Z.eqb Z.leb Z.compare negb andb].
      destruct (Z.ltb_spec 0 drawn); [|lia]. by destruct (Z.ltb_spec drawn (2 ^ 32)); [|lia].
    + unfold set_seed. cbn [Z.eqb Z.leb Z.compare negb andb].
      destruct (Z.ltb_spec 0 drawn); [|lia]. by destruct (Z.ltb_spec drawn (2 ^ 32)); [|lia].
  - exists seed. assert (0 < seed < 2 ^ 32)%Z as Hd by lia.
    destruct (set_seed_positive strict drawn seed st Hd) as [Hv Hs].
    destruct (set_seed_positive strict' drawn' seed st' Hd) as [Hv' Hs']. done.
Qed.

(** X14. For a seed of 0 or less the seed in use is the [numpy.int64]
    that is drawn: numpy is seeded with it, and deterministic algorithms are
    off for -1 and on otherwise.  From Python 3.11 on [random.seed] then
    raises [TypeError], and random, torch, cuda and [PYTHONHASHSEED] are
    left as they were.  Before, they are all seeded with the number drawn,
    and what is returned is that number for seed 0 and the seed as given
    when it is negative, which does not tell the seed in use. *)
Theorem set_seed_drawn strict drawn seed st :
  (1 ≤ drawn < 2 ^ 32 - 1)%Z → (seed ≤ 0)%Z →
  numpy_seed (set_seed strict drawn seed st).2 = Some drawn ∧
  deterministic_algorithms (set_seed strict drawn seed st).2 = negb (seed =? -1)%Z ∧
  if strict then
    (set_seed strict drawn seed st).1 = Throws (Exn TypeError) ∧
    random_seed (set_seed strict drawn seed st).2 = random_seed st ∧
    torch_seed (set_seed strict drawn seed st).2 = torch_seed st ∧
    cuda_seed (set_seed strict drawn seed st).2 = cuda_seed st ∧
    PYTHONHASHSEED (set_seed strict drawn seed st).2 = PYTHONHASHSEED st
  else
    (set_seed strict drawn seed st).1 = Returns (if (seed =? 0)%Z then drawn else seed) ∧
    seeded_with drawn (set_seed strict drawn seed st).2.
Proof.
  intros Hdrawn Hseed. unfold set_seed.
  destruct (Z.leb_spec seed 0); [|lia].
  destruct (Z.ltb_spec 0 drawn); [|lia]. destruct (Z.ltb_spec drawn (2 ^ 32)); [|lia].
  cbn [andb negb]. destruct strict; cbn [andb fst snd numpy_seed deterministic_algorithms].
  - split; [done|]. split; [by destruct (Z.eqb_spec seed (-1))|].
    by destruct (Z.eqb_spec seed (-1)).
  - split; [done|]. split; [by destruct (Z.eqb_spec seed (-1))|].
    split; [by destruct (Z.eqb_spec seed 0)|]. done.
Qed.

(** X15. A seed of 2^32 or more fails the assertion, after
    deterministic algorithms have been switched on and before any generator
    is seeded: numpy, random, torch, cuda and [PYTHONHASHSEED] are as they
    were. *)
Theorem set_seed_too_large strict drawn seed st :
  (2 ^ 32 ≤ seed)%Z →
  (set_seed strict drawn seed st).1 = Throws AssertionError ∧
  deterministic_algorithms (set_seed strict drawn seed st).2 = true ∧
  numpy_seed (set_seed strict drawn seed st).2 = numpy_seed st ∧
  random_seed (set_seed strict drawn seed st).2 = random_seed st ∧
  torch_seed (set_seed strict drawn seed st).2 = torch_seed st ∧
  cuda_seed (set_seed strict drawn seed st).2 = cuda_seed st ∧
  PYTHONHASHSEED (set_seed strict drawn seed st).2 = PYTHONHASHSEED st.
Proof.
  intros Hseed. unfold set_seed.
  destruct (Z.eqb_spec seed (-1)); [lia|]. destruct (Z.leb_spec seed 0); [lia|].
  destruct (Z.ltb_spec seed (2 ^ 32)); [lia|]. by rewrite andb_false_r.
Qed.

End number_facts.

(** ** The speakers on disk *)

Section speaker_facts.
Context `{External} `{Speakers}.

Lemma filed_app language l1 l2 :
  filed language (l1 ++ l2) = filed language l1 ++ filed language l2.
Proof. unfold filed. by rewrite filter_app, fmap_app. Qed.

Lemma filed_singleton language root filename :
  filed language [(root, filename)]
  = if decide (language_of filename = language) then [ospath.join root filename] else [].
Proof.
  unfold filed. rewrite filter_cons, filter_nil. by destruct (decide _).
Qed.

Lemma file_one_language root speakers unsupported_files filename :
  endswith filename ".npz" = true →
  file_one root (speakers, unsupported_files) filename
  = match language_of filename with
    | Some code => (append_at code (ospath.join root filename) speakers, unsupported_files)
    | None => (speakers, unsupported_files ++ [ospath.join root filename])
    end.
Proof.
  intros Hnpz. unfold file_one, language_of. rewrite Hnpz.
  destruct (match_lang_code filename) as [c|]; [|done]. cbn [mbind option_bind].
  by destruct (bool_decide _).
Qed.

Lemma file_one_spec root acc filename :
  let entries := if endswith filename ".npz" then [(root, filename)] else [] in
  (file_one root acc filename).2 = acc.2 ++ filed None entries ∧
  ∀ code, default [] ((file_one root acc filename).1 !! code)
          = default [] (acc.1 !! code) ++ filed (Some code) entries.
Proof.
  destruct acc as [speakers unsupported].
  destruct (endswith filename ".npz") eqn:Hnpz; cbn zeta.
  2:{ unfold file_one. rewrite Hnpz. cbn [fst snd]. split; [by rewrite app_nil_r|].
      intros code. by rewrite app_nil_r. }
  rewrite file_one_language by done. setoid_rewrite filed_singleton.
  destruct (language_of filename) as [c|]; cbn [fst snd].
  - rewrite decide_False by done. split; [by rewrite app_nil_r|]. intros code.
    unfold append_at. destruct (decide (code = c)) as [->|Hne].
    + rewrite lookup_insert_eq, decide_True by done. done.
    + rewrite lookup_insert_ne by done. rewrite decide_False by congruence.
      by rewrite app_nil_r.
  - rewrite decide_True by done. split; [done|]. intros code.
    rewrite decide_False by done. by rewrite app_nil_r.
Qed.

Lemma file_all_spec root files acc :
  let entries := filename ← files;
                 if endswith filename ".npz" then [(root, filename)] else [] in
  (foldl (file_one root) acc files).2 = acc.2 ++ filed None entries ∧
  ∀ code, default [] ((foldl (file_one root) acc files).1 !! code)
          = default [] (acc.1 !! code) ++ filed (Some code) entries.
Proof.
  revert acc. induction files as [|filename files IH]; intros acc; cbn [foldl].
  { split; [by rewrite app_nil_r|]. intros code. by rewrite app_nil_r. }
  destruct (IH (file_one root acc filename)) as [Hun Hsp].
  destruct (file_one_spec root acc filename) as [Hun1 Hsp1].
  cbn zeta in *. cbn [mbind list_bind]. rewrite !filed_app. split.
  - rewrite Hun, Hun1. symmetry. apply app_assoc.
  - intros code. rewrite filed_app, Hsp, Hsp1. symmetry. apply app_assoc.
Qed.

Lemma foldl_ext {A B} (f g : A → B → A) (a : A) (l : list B) :
  (∀ a b, f a b = g a b) → foldl f a l = foldl g a l.
Proof.
  intros Hfg. revert a. induction l as [|b l IH]; intros a; [done|].
  cbn [foldl]. by rewrite Hfg, IH.
Qed.

Lemma append_at_nonempty key x d :
  (∀ code, d !! code ≠ Some []) → ∀ code, append_at key x d !! code ≠ Some [].
Proof.
  intros Hd code. unfold append_at. destruct (decide (code = key)) as [->|Hne].
  - rewrite lookup_insert_eq. intros [= Heq]. by apply app_eq_nil in Heq as [_ ?].
  - by rewrite lookup_insert_ne.
Qed.

Lemma file_all_nonempty root files acc :
  (∀ code, acc.1 !! code ≠ Some []) →
  ∀ code, (foldl (file_one root) acc files).1 !! code ≠ Some [].
Proof.
  revert acc. induction files as [|filename files IH]; intros acc Hacc; [done|].
  cbn [foldl]. apply IH. destruct acc as [speakers unsupported]. unfold file_one.
  destruct (endswith filename ".npz"); [|done].
  destruct (match_lang_code filename) as [c|]; [|done].
  destruct (bool_decide _); [|done]. by apply append_at_nonempty.
Qed.

(** The walk, triple by triple, from any state of the two accumulators. *)
Lemma walk_spec (triples : list (string * list string * list string)) acc :
  let entries := '(root, dirs, files) ← triples;
                 filename ← files;
                 if endswith filename ".npz" then [(root, filename)] else [] in
  let result :=
    foldl (λ acc '(root, dirs, files), foldl (file_one root) acc files) acc triples in
  result.2 = acc.2 ++ filed None entries ∧
  (∀ code, default [] (result.1 !! code)
           = default [] (acc.1 !! code) ++ filed (Some code) entries) ∧
  ((∀ code, acc.1 !! code ≠ Some []) → ∀ code, result.1 !! code ≠ Some []).
Proof.
  revert acc. induction triples as [|[[root dirs] files] triples IH]; intros acc.
  { cbn. split; [by rewrite app_nil_r|]. split; [|done]. intros code. by rewrite app_nil_r. }
  cbn zeta. cbn [foldl mbind list_bind].
  destruct (IH (foldl (file_one root) acc files)) as (Hun & Hsp & Hne).
  destruct (file_all_spec root files acc) as [Hun1 Hsp1]. cbn zeta in *.
  split; [|split].
  - rewrite Hun, Hun1, filed_app. symmetry. apply app_assoc.
  - intros code. rewrite Hsp, Hsp1, filed_app. symmetry. apply app_assoc.
  - intros Hacc. apply Hne. by apply file_all_nonempty.
Qed.

Lemma gather_speakers_fold directory :
  gather_speakers directory
  = foldl (λ acc '(root, dirs, files), foldl (file_one root) acc files)
          (∅, []) (os_walk directory).
Proof.
  unfold gather_speakers. apply foldl_ext. intros acc [[root dirs] files].
  apply foldl_ext. by intros [speakers unsupported] filename.
Qed.

Lemma gather_speakers_lookup directory code :
  (gather_speakers directory).1 !! code
  = if decide (paths_under (Some code) directory = []) then None
    else Some (paths_under (Some code) directory).
Proof.
  rewrite gather_speakers_fold.
  destruct (walk_spec (os_walk directory) (∅, [])) as (_ & Hsp & Hne). cbn zeta in *.
  specialize (Hsp code). specialize (Hne ltac:(intros c; cbn [fst]; by rewrite lookup_empty) code).
  cbn [fst] in Hsp. rewrite lookup_empty in Hsp. cbn [default from_option app] in Hsp.
  change (filed (Some code) _) with (paths_under (Some code) directory) in Hsp.
  destruct (_ !! code) as [l|] eqn:Hl; cbn [default from_option id] in Hsp; rewrite <- Hsp.
  - rewrite decide_False; [done|]. intros ->. done.
  - by rewrite decide_True.
Qed.

(** X16. [gather_speakers] files every [.npz] file below the
    directory once, in the order of the walk: under its two-letter prefix
    when that is the code of a supported language, and with the unsupported
    files otherwise; a code with no file has no entry. *)
Theorem gather_speakers_files directory :
  (gather_speakers directory).2 = paths_under None directory ∧
  ∀ code,
    (gather_speakers directory).1 !! code
    = if decide (paths_under (Some code) directory = []) then None
      else Some (paths_under (Some code) directory).
Proof.
  split; [|apply gather_speakers_lookup].
  rewrite gather_speakers_fold.
  destruct (walk_spec (os_walk directory) (∅, [])) as (Hun & _ & _). exact Hun.
Qed.

Lemma list_speakers_spec (directories : list string) all_speakers all_unsupported_files :
  let result :=
    foldl (λ '(all_speakers, all_unsupported_files) directory,
             let '(speakers, unsupported_files) := gather_speakers directory in
             (speakers ∪ all_speakers, all_unsupported_files ++ unsupported_files))
          (all_speakers, all_unsupported_files) directories in
  result.2 = all_unsupported_files ++ (directories ≫= paths_under None) ∧
  ∀ code,
    result.1 !! code
    = match last (filter (λ directory, paths_under (Some code) directory ≠ [])
                    directories) with
      | Some directory => Some (paths_under (Some code) directory)
      | None => all_speakers !! code
      end.
Proof.
  revert all_speakers all_unsupported_files.
  induction directories as [|d directories IH]; intros all_speakers all_unsupported_files.
  { cbn. split; [by rewrite app_nil_r|done]. }
  cbn zeta. cbn [foldl mbind list_bind].
  pose proof (gather_speakers_lookup d) as Hlookup.
  assert ((gather_speakers d).2 = paths_under None d) as Hun.
  { rewrite gather_speakers_fold.
    destruct (walk_spec (os_walk d) (∅, [])) as (Hun & _ & _). exact Hun. }
  destruct (gather_speakers d) as [speakers unsupported_files]. cbn [fst snd] in *.
  destruct (IH (speakers ∪ all_speakers) (all_unsupported_files ++ unsupported_files))
    as [IHun IHsp]. cbn zeta in *.
  split.
  - rewrite IHun, Hun. symmetry. apply app_assoc.
  - intros code. rewrite IHsp, filter_cons.
    destruct (decide (paths_under (Some code) d ≠ [])) as [Hd|Hd].
    + destruct (filter _ directories) as [|d' l] eqn:Hl.
      * cbn. apply lookup_union_Some_l. rewrite Hlookup. by rewrite decide_False.
      * rewrite last_cons_cons. destruct (last (d' :: l)) eqn:Hlast; [done|].
        by apply last_None in Hlast.
    + destruct (last (filter _ directories)); [done|].
      apply lookup_union_r. rewrite Hlookup. rewrite decide_True; [done|].
      by destruct (decide (paths_under (Some code) d = [])).
Qed.

(** X17. [list_speakers] returns the unsupported files of all the
    configured directories, in order, but for each language the speakers of
    one directory only, the last configured one that has a speaker of that
    language: [update] replaces the lists of the directories before it. *)
Theorem list_speakers_last_directory :
  list_speakers.2 = VALID_HISTORY_PROMPT_DIRS ≫= paths_under None ∧
  ∀ code,
    list_speakers.1 !! code
    = (directory ← last (directories_speaking code);
       Some (paths_under (Some code) directory)).
Proof.
  destruct (list_speakers_spec VALID_HISTORY_PROMPT_DIRS ∅ []) as [Hun Hsp].
  cbn zeta in *. split; [exact Hun|]. intros code.
  unfold list_speakers, directories_speaking. rewrite Hsp.
  by destruct (last _).
Qed.

End speaker_facts.

(** ** The controller and the pipeline *)

Section controller_facts.
Context `{External}.

Ltac wp_step :=
  first [ apply wp_bind | apply wp_ret | apply wp_emit | apply wp_read
        | apply wp_set_done_cancelling | apply wp_set_gradio_try_to_cancel
        | apply wp_raise | apply wp_lift ];
  cbv beta iota.

Ltac case_if :=
  match goal with
  | |- wp (if ?c then _ else _) _ _ => destruct c eqn:?
  end.

Lemma segment_body_entering interval i text st :
  segment_body interval false i text st
  = (st1 ← select_history_prompt (entering i text st);
     cancel ← read_gradio_try_to_cancel;
     if cancel : bool then
       _ ← set_done_cancelling true;
       _ ← emit EvCancelled;
       mret (Return None)
     else
       _ ← emit (EvGenerateAudioBarki (prefixed (kw st) text) (kw st1));
       out ← generate_audio_barki (prefixed (kw st) text) (kw st1);
       _ ← emit (EvBarkiReturned out);
       match out with
       | Audio _ => raise ValueError
       | Pair full_generation audio_arr =>
           cancel ← read_gradio_try_to_cancel;
           match cancel, full_generation, audio_arr with
           | false, Some full_generation, Some audio_arr =>
               after_segment interval st1 full_generation audio_arr
           | _, _, _ =>
               _ ← set_done_cancelling true;
               _ ← emit EvCancelled;
               mret (Return None)
           end
       end).
Proof. reflexivity. Qed.

(** One iteration, not a dry one: it is abandoned at a read of the flag
    that sees it set, or reaches the stability rule with the bundle and the
    audio of the segment. *)
Lemma wp_segment_body interval i text st w st1 sevs (Q : result control → world → Prop) :
  select_history_prompt (entering i text st) w = (Ok st1, logged w sevs) →
  output_full (kw st1) = true →
  segment_number (kw st1) = Some (SegNumber (Z.of_nat i + 1)) →
  (∀ w' evs,
     gradio_try_to_cancel w' = gradio_try_to_cancel w →
     done_cancelling w' = true →
     (∃ n, flag_reads w ≤ n < flag_reads w' ∧ flag_at w n = true) →
     log w' = log w ++ sevs ++ evs →
     evs = [EvCancelled] ∨
     (∃ bevs out,
        evs = EvGenerateAudioBarki (prefixed (kw st) text) (kw st1)
              :: bevs ++ [EvBarkiReturned out; EvCancelled] ∧
        Forall (pipeline_event (segment_number (kw st1))) bevs) →
     Q (Ok (Return None)) w') →
  (∀ wmid bevs fg a,
     gradio_try_to_cancel wmid = gradio_try_to_cancel w →
     done_cancelling wmid = done_cancelling w →
     flag_reads wmid = 8 + flag_reads w →
     no_flag_between w (flag_reads w) (8 + flag_reads w) →
     Forall (pipeline_event (segment_number (kw st1))) bevs →
     log wmid = log w ++ sevs
                ++ EvGenerateAudioBarki (prefixed (kw st) text) (kw st1)
                   :: bevs ++ [EvBarkiReturned (Pair (Some fg) (Some a))] →
     wp (after_segment interval st1 fg a) wmid Q) →
  wp (segment_body interval false i text st) w Q.
Proof.
  intros Hselect Hfull Hnum Hcancel Hdone. rewrite segment_body_entering.
  wp_step. eapply wp_of_run; [exact Hselect|]. cbv beta iota.
  wp_step. wp_step. rewrite (flag_at_same w) by done. cbn [flag_reads logged].
  destruct (flag_at w (flag_reads w)) eqn:E1.
  { repeat wp_step. apply (Hcancel _ [EvCancelled]); cbn; try done.
    - exists (flag_reads w). split; [lia|done].
    - by rewrite <- app_assoc.
    - by left. }
  wp_step. wp_step. wp_step.
  apply wp_generate_audio_barki. intros r wb bevs (Hgb & Hreadsb & Hlogb) Hpipe _ Hcases.
  cbn [gradio_try_to_cancel flag_reads log logged] in Hgb, Hreadsb, Hlogb.
  destruct Hcases as [(-> & Hdoneb & n & Hn & Hflag)
                     |[(e & -> & He & _)|(Hnob & Hsix & Hdoneb & fg & a & ->)]].
  - (* cancelled inside the pipeline *)
    cbn [flag_reads logged] in Hn. rewrite (flag_at_same w) in Hflag by done.
    wp_step. wp_step. wp_step. wp_step.
    assert (wp (_ ← set_done_cancelling true; _ ← emit EvCancelled; mret (Return None))
              (World (gradio_try_to_cancel (logged wb [EvBarkiReturned (Pair None None)]))
                 (done_cancelling (logged wb [EvBarkiReturned (Pair None None)]))
                 (S (flag_reads (logged wb [EvBarkiReturned (Pair None None)])))
                 (log (logged wb [EvBarkiReturned (Pair None None)]))) Q) as Habandon.
    { repeat wp_step.
      apply (Hcancel _ (EvGenerateAudioBarki (prefixed (kw st) text) (kw st1)
                        :: bevs ++ [EvBarkiReturned (Pair None None); EvCancelled]));
        cbn; try done.
      - exists n. split; [lia|done].
      - rewrite Hlogb. repeat rewrite <- app_assoc. reflexivity.
      - right. by eexists _, _. }
    case_if; exact Habandon.
  - (* a stage input raising: the segment number is a number *)
    destruct (every_x_override_numbered (kw st1)) as [x Hx]; [|congruence].
    intros tag. rewrite Hnum. intros [= <-]. by eexists.
  - (* the pipeline ran to its end *)
    cbn [flag_reads done_cancelling logged] in Hsix, Hdoneb, Hnob.
    apply (no_flag_between_same w) in Hnob; [|done].
    rewrite Hfull. wp_step. wp_step. wp_step. wp_step.
    rewrite (flag_at_same w) by (cbn; congruence). cbn [flag_reads logged].
    destruct (flag_at w (flag_reads wb)) eqn:E2.
    { repeat wp_step.
      apply (Hcancel _ (EvGenerateAudioBarki (prefixed (kw st) text) (kw st1)
                        :: bevs ++ [EvBarkiReturned (Pair (Some fg) (Some a)); EvCancelled]));
        cbn; try done.
      - exists (flag_reads wb). split; [lia|done].
      - rewrite Hlogb. repeat rewrite <- app_assoc. reflexivity.
      - right. by eexists _, _. }
    apply (Hdone _ bevs); cbn; try done; try lia.
    + intros m Hm. destruct (decide (m = flag_reads w)) as [->|?]; [done|].
      destruct (decide (m = flag_reads wb)) as [->|?]; [done|].
      apply Hnob. lia.
    + rewrite Hlogb. repeat rewrite <- app_assoc. reflexivity.
Qed.

Lemma after_segment_run interval st full_generation audio_arr w :
  (0 ≤ interval)%Z →
  ((2 ≤ interval)%Z → is_Some (stable_mode_interval_counter st)) →
  ∃ aevs,
    after_segment interval st full_generation audio_arr w
    = (Ok (Continue (state_after interval st full_generation audio_arr)),
       logged w aevs) ∧
    Forall bookkeeping_event aevs.
Proof.
  intros Hpos Hcounter. unfold after_segment, state_after, back_to_base, base_after,
    silence_of.
  rewrite run_bind. cbn [emit].
  destruct (base_history st) as [base|]; cbn [default from_option id].
  all: destruct (Z.eqb_spec interval 0) as [->|?]; cbn [orb andb Z.leb Z.compare];
    [eexists [_]; rewrite run_ret; split; [reflexivity|by repeat constructor]|].
  all: destruct (Z.eqb_spec interval 1) as [->|?]; cbn [orb andb Z.leb Z.compare];
    [eexists [_]; rewrite run_ret; split; [reflexivity|by repeat constructor]|].
  all: destruct (Z.leb_spec 2 interval); [|lia].
  all: destruct Hcounter as [counter Hc]; [done|]; rewrite Hc; cbn [fmap option_fmap option_map andb].
  all: destruct (Z.eqb_spec counter 1) as [->|?].
  all: try (rewrite bool_decide_eq_true_2 by done; rewrite run_bind; cbn [emit];
            eexists [_; _]; rewrite run_ret; unfold logged; cbn;
            rewrite <- ?app_assoc; split; [reflexivity|by repeat constructor]).
  all: rewrite bool_decide_eq_false_2 by congruence;
    eexists [_]; rewrite run_ret; split; [reflexivity|by repeat constructor].
Qed.

Lemma wp_and {A} (m : M A) w (Q1 Q2 : result A → world → Prop) :
  wp m w Q1 → wp m w Q2 → wp m w (λ r w', Q1 r w' ∧ Q2 r w').
Proof. intros [H1] [H2]. by constructor. Qed.

Lemma generate_audio_long_segments_finish interval counter dry segs kwargs base :
  generate_audio_long_segments interval counter dry segs kwargs base
  = (_ ← (if hoarder_mode (opts kwargs)
             && negb (String.eqb (default "" (history_prompt_string kwargs)) "")
          then emit (EvWriteOneSegment (Some SegBaseHistory) None base)
          else mret ());
     c ← for_each_segment (segment_body interval dry) 0 segs
           (LoopState
              (set_total_segments (Z.of_nat (length segs))
                 (set_output_full true
                    (if hoarder_mode (opts kwargs)
                        && negb (String.eqb (default "" (history_prompt_string kwargs)) "")
                     then set_segment_number SegBaseHistory kwargs else kwargs)))
              base base counter false [] []);
     match c with
     | Return r => mret r
     | Continue st => finish st
     end).
Proof. reflexivity. Qed.

(** A run that is not a splits-only one, with the bundle it starts from:
    an invariant of the loop gives what holds of the run.  The loop is
    entered with no history prompt in [kwargs]. *)
Lemma wp_generate_audio_long_from_none fs kwargs w initial
    (I : nat → loop_state → world → Prop) (Q : result long_result → world → Prop) :
  text_splits_only (opts kwargs) = false →
  loaded fs kwargs initial →
  (∀ st w1 pre,
     starts_from kwargs initial st →
     history_prompt (kw st) = None →
     gradio_try_to_cancel w1 = gradio_try_to_cancel w →
     done_cancelling w1 = done_cancelling w →
     flag_reads w1 = flag_reads w →
     log w1 = log w ++ pre → Forall prelude_event pre →
     I 0 st w1) →
  (∀ j text st w',
     audio_segments_of kwargs !! j = Some text → I j st w' →
     wp (segment_body (interval_of kwargs) (dry_run (opts kwargs)) j text st) w'
        (λ r w'', match r with
                  | Ok (Continue st') => I (S j) st' w''
                  | Ok (Return r) => Q (Ok r) w''
                  | Raise e => Q (Raise e) w''
                  end)) →
  (∀ st w', I (length (audio_segments_of kwargs)) st w' → wp (finish st) w' Q) →
  wp (generate_audio_long fs kwargs) w Q.
Proof.
  intros Hsplits Hloaded Hstart Hbody Hfinish.
  unfold generate_audio_long. cbv zeta.
  change (if bool_decide (is_Some (group_text_by_counting (opts (set_history_prompt None kwargs))))
             && bool_decide (is_Some (process_text_by_each (opts (set_history_prompt None kwargs))))
          then chunk_up_text_prev (set_history_prompt None kwargs)
          else chunk_up_text (set_history_prompt None kwargs))
    with (audio_segments_of kwargs).
  change (if (default 1%Z (stable_mode_interval (opts (set_history_prompt None kwargs))) <? 0)%Z
          then 0%Z
          else default 1%Z (stable_mode_interval (opts (set_history_prompt None kwargs))))
    with (interval_of kwargs).
  cbn [opts set_history_prompt text_prompt]. rewrite Hsplits, orb_false_r.
  wp_step. wp_step.
  (* the loop and what follows it, from any kwargs the prelude leaves *)
  assert (∀ kwargs' w1,
            opts kwargs' = opts kwargs →
            history_prompt kwargs' = None →
            w1 = logged w [EvChunkUpText (text_prompt kwargs)] →
            wp (generate_audio_long_segments (interval_of kwargs)
                  (if (2 <=? interval_of kwargs)%Z then Some (interval_of kwargs) else None)
                  (dry_run (opts kwargs)) (audio_segments_of kwargs) kwargs' initial)
               w1 Q) as Hrun.
  { intros kwargs' w1 Hopts Hhp ->. rewrite generate_audio_long_segments_finish.
    wp_step.
    apply (wp_mono _ _ (λ r w', r = Ok () ∧ ∃ pre,
             gradio_try_to_cancel w' = gradio_try_to_cancel w ∧
             done_cancelling w' = done_cancelling w ∧
             flag_reads w' = flag_reads w ∧
             log w' = log w ++ pre ∧ Forall prelude_event pre)).
    { destruct (_ && _); wp_step; (split; [done|]).
      - eexists [_; _]. cbn. rewrite <- app_assoc. by repeat split; repeat constructor.
      - eexists [_]. by repeat split; repeat constructor. }
    intros r w2 (-> & pre & Hg & Hd & Hn & Hlog & Hpre). wp_step.
    eapply wp_mono.
    { apply (wp_for_each_segment _ I
               (λ r w', match r with
                        | Ok (Continue st) => I (length (audio_segments_of kwargs)) st w'
                        | Ok (Return r) => Q (Ok r) w'
                        | Raise e => Q (Raise e) w'
                        end)).
      - apply (Hstart _ _ pre); try done; [|cbn; by destruct (_ && _)].
        repeat split; try done; cbn; by destruct (_ && _).
      - intros j text st w' _ Hj HI. rewrite Nat.sub_0_r in Hj.
        eapply wp_mono; [by apply Hbody|]. by intros [[st'|r']|e] w''.
      - by intros st w'. }
    intros [[st|r']|e] w3 Hpost; [by apply Hfinish|by wp_step|done]. }
  unfold loaded in Hloaded. destruct (history_prompt kwargs) as [[name|d]|]; [|done|].
  - destruct Hloaded as (path & base & Hresolve & Hload & ->).
    wp_step. wp_step. rewrite Hresolve. wp_step. wp_step. rewrite Hload.
    by apply Hrun.
  - subst initial. by apply Hrun.
Qed.

Lemma wp_generate_audio_long fs kwargs w initial
    (I : nat → loop_state → world → Prop) (Q : result long_result → world → Prop) :
  text_splits_only (opts kwargs) = false →
  loaded fs kwargs initial →
  (∀ st w1 pre,
     starts_from kwargs initial st →
     gradio_try_to_cancel w1 = gradio_try_to_cancel w →
     done_cancelling w1 = done_cancelling w →
     flag_reads w1 = flag_reads w →
     log w1 = log w ++ pre → Forall prelude_event pre →
     I 0 st w1) →
  (∀ j text st w',
     audio_segments_of kwargs !! j = Some text → I j st w' →
     wp (segment_body (interval_of kwargs) (dry_run (opts kwargs)) j text st) w'
        (λ r w'', match r with
                  | Ok (Continue st') => I (S j) st' w''
                  | Ok (Return r) => Q (Ok r) w''
                  | Raise e => Q (Raise e) w''
                  end)) →
  (∀ st w', I (length (audio_segments_of kwargs)) st w' → wp (finish st) w' Q) →
  wp (generate_audio_long fs kwargs) w Q.
Proof.
  intros Hsplits Hloaded Hstart Hbody Hfinish.
  apply (wp_generate_audio_long_from_none fs kwargs w initial I Q); try done.
  intros st w1 pre Hst _. by apply Hstart.
Qed.

Lemma interval_of_nonneg kwargs : (0 ≤ interval_of kwargs)%Z.
Proof.
  unfold interval_of. cbv zeta.
  destruct (Z.ltb_spec (default 1%Z (stable_mode_interval (opts kwargs))) 0); lia.
Qed.

Lemma kwargs_eta (k : kwargs) : set_history_prompt (history_prompt k) k = k.
Proof. by destruct k. Qed.

(** Selecting the conditioning always succeeds; it may print that the
    prompt is off, and of [kwargs] it assigns to [history_prompt] only. *)
Lemma select_history_prompt_run st w :
  ∃ st1 sevs,
    select_history_prompt st w = (Ok st1, logged w sevs) ∧
    Forall (λ e, e = EvHistoryPromptDisabled) sevs ∧
    kw st1 = set_history_prompt (history_prompt (kw st1)) (kw st) ∧
    base_history st1 = base_history st ∧
    stable_mode_interval_counter st1 = stable_mode_interval_counter st ∧
    full_generation_segments st1 = full_generation_segments st ∧
    audio_arr_segments st1 = audio_arr_segments st.
Proof.
  unfold select_history_prompt.
  destruct (seperate_prompts_flipper _), (seperate_prompts _);
    try destruct (history_prompt_flipper st);
    first [ eexists _, [EvHistoryPromptDisabled]; split; [reflexivity|]
          | eexists _, []; split; [by rewrite logged_nil|] ];
    (split; [by repeat constructor|]); cbn [kw]; by rewrite ?kwargs_eta.
Qed.

Lemma history_disabled_quiet sevs :
  Forall (λ e, e = EvHistoryPromptDisabled) sevs →
  calls sevs = [] ∧ outputs sevs = [] ∧ audios sevs = [].
Proof.
  induction 1 as [|e sevs -> _ (IHc & IHo & IHa)]; [done|].
  unfold calls, outputs, audios in *. cbn. by rewrite IHc, IHo, IHa.
Qed.

Lemma bookkeeping_quiet aevs :
  Forall bookkeeping_event aevs → calls aevs = [] ∧ outputs aevs = [] ∧ audios aevs = [].
Proof.
  induction 1 as [|e aevs He _ (IHc & IHo & IHa)]; [done|].
  unfold calls, outputs, audios in *. cbn. rewrite IHc, IHo, IHa. by destruct e.
Qed.

Lemma pipeline_quiet tag bevs :
  Forall (pipeline_event tag) bevs → calls bevs = [] ∧ outputs bevs = [] ∧ audios bevs = [].
Proof.
  induction 1 as [|e bevs He _ (IHc & IHo & IHa)]; [done|].
  unfold calls, outputs, audios in *. cbn. rewrite IHc, IHo, IHa.
  destruct He as [[st Hst]|(a & g & ->)]; [by destruct e|done].
Qed.

Lemma prelude_quiet pre :
  Forall prelude_event pre → calls pre = [] ∧ outputs pre = [] ∧ audios pre = [].
Proof.
  induction 1 as [|e pre He _ (IHc & IHo & IHa)]; [done|].
  unfold calls, outputs, audios in *. cbn. rewrite IHc, IHo, IHa. by destruct e.
Qed.

Lemma audios_app evs1 evs2 : audios (evs1 ++ evs2) = audios evs1 ++ audios evs2.
Proof. apply omap_app. Qed.

Lemma starts_running w kwargs initial st w1 :
  starts_from kwargs initial st →
  gradio_try_to_cancel w1 = gradio_try_to_cancel w → flag_reads w1 = flag_reads w →
  running w kwargs st w1.
Proof.
  intros (Hopts & Hfull & Htotal & _ & _ & Hcounter & _) Hg Hn.
  repeat split; try done; [lia|]. intros Hk. rewrite Hcounter.
  destruct (Z.leb_spec 2 (interval_of kwargs)); [by eexists|lia].
Qed.

(** Every iteration keeps [running]. *)
Lemma segment_body_running w kwargs dry i text st w' :
  running w kwargs st w' →
  wp (segment_body (interval_of kwargs) dry i text st) w'
     (λ r w'', match r with
               | Ok (Continue st') => running w kwargs st' w''
               | _ => True
               end).
Proof.
  intros (Hg & Hn & Hopts & Hfull & Htotal & Hcounter).
  destruct dry. { unfold segment_body. wp_step. by repeat split. }
  destruct (select_history_prompt_run (entering i text st) w')
    as (st1 & sevs & Hselect & Hsevs & Hkw & Hbase & Hc & _).
  cbn [entering kw base_history stable_mode_interval_counter] in Hkw, Hbase, Hc.
  eapply wp_segment_body; [exact Hselect|by rewrite Hkw|by rewrite Hkw|done|].
  intros wmid bevs fg a Hgm Hdm Hnm _ _ _.
  destruct (after_segment_run (interval_of kwargs) st1 fg a wmid) as (aevs & Hafter & _).
  { apply interval_of_nonneg. }
  { rewrite Hc. exact Hcounter. }
  eapply wp_of_run; [exact Hafter|]. unfold running, state_after. rewrite Hkw.
  cbn [kw opts output_full total_segments set_previous_segment_type set_history_prompt
       gradio_try_to_cancel flag_reads logged stable_mode_interval_counter].
  split; [congruence|]. split; [lia|]. split; [done|]. split; [done|]. split; [done|].
  intros Hk. rewrite Hc. destruct (Z.leb_spec 2 (interval_of kwargs)); [|lia].
  destruct (Hcounter Hk) as [c ->]. by eexists.
Qed.

Lemma silence_of_opts k k' : opts k = opts k' → silence_of k = silence_of k'.
Proof. unfold silence_of. by intros ->. Qed.

Lemma not_final_prelude pre : Forall prelude_event pre → Forall not_final_write pre.
Proof.
  intros Hall. eapply Forall_impl; [exact Hall|]. intros e He (a & g & ->). done.
Qed.

Lemma segment_body_collected w kwargs i text st w' (Q : result control → world → Prop) :
  (∀ n, flag_at w n = false) →
  running w kwargs st w' → collected w kwargs i st w' →
  wp (segment_body (interval_of kwargs) false i text st) w'
     (λ r w'', match r with
               | Ok (Continue st') => collected w kwargs (S i) st' w''
               | _ => Q r w''
               end).
Proof.
  intros Hnone (Hg & Hn & Hopts & Hfull & Htotal & Hcounter)
         (Hdone & evs & Hlog & Hfgs & Haudios & Hcalls & Houts & Hauds & Hnf).
  destruct (select_history_prompt_run (entering i text st) w')
    as (st1 & sevs & Hselect & Hsevs & Hkw & Hbase & Hc & Hfg1 & Ha1).
  cbn [entering kw base_history stable_mode_interval_counter full_generation_segments
       audio_arr_segments] in Hkw, Hbase, Hc, Hfg1, Ha1.
  eapply wp_segment_body; [exact Hselect|by rewrite Hkw|by rewrite Hkw| |].
  { intros w'' evs' _ _ (n & _ & Hflag) _ _.
    rewrite (flag_at_same w) in Hflag by done. by rewrite Hnone in Hflag. }
  intros wmid bevs fg a Hgm Hdm Hnm _ Hpipe Hlogm.
  destruct (after_segment_run (interval_of kwargs) st1 fg a wmid) as (aevs & Hafter & Haevs).
  { apply interval_of_nonneg. }
  { rewrite Hc. exact Hcounter. }
  eapply wp_of_run; [exact Hafter|]. unfold collected, state_after.
  cbn [done_cancelling logged log full_generation_segments audio_arr_segments].
  split; [congruence|].
  destruct (history_disabled_quiet _ Hsevs) as (Hsc & Hso & Hsa).
  destruct (pipeline_quiet _ _ Hpipe) as (Hbc & Hbo & Hba).
  destruct (bookkeeping_quiet _ Haevs) as (Hac & Hao & Haa).
  exists (evs ++ sevs
          ++ EvGenerateAudioBarki (prefixed (kw st) text) (kw st1)
             :: bevs ++ [EvBarkiReturned (Pair (Some fg) (Some a))] ++ aevs).
  change (EvGenerateAudioBarki (prefixed (kw st) text) (kw st1)
          :: bevs ++ [EvBarkiReturned (Pair (Some fg) (Some a))] ++ aevs)
    with ([EvGenerateAudioBarki (prefixed (kw st) text) (kw st1)]
          ++ bevs ++ [EvBarkiReturned (Pair (Some fg) (Some a))] ++ aevs).
  rewrite !calls_app, !outputs_app, !audios_app, Hsc, Hso, Hsa, Hbc, Hbo, Hba, Hac, Hao, Haa.
  cbn [calls outputs audios omap list_omap call_of output_of audio_of app]. rewrite ?app_nil_r.
  split.
  { rewrite Hlogm, Hlog.
    repeat first [rewrite <- app_assoc | rewrite <- app_comm_cons]. reflexivity. }
  split. { by rewrite Hfg1, Hfgs. }
  split.
  { rewrite Ha1, Haudios. unfold with_silence. rewrite bind_app. cbn [mbind list_bind].
    rewrite ?app_nil_r. f_equal. cbn. f_equal. apply silence_of_opts.
    rewrite Hkw. cbn. exact Hopts. }
  rewrite !length_app. cbn [length]. split; [lia|]. split; [lia|]. split; [lia|].
  rewrite Hkw in Hpipe. cbn [segment_number set_history_prompt set_segment_number] in Hpipe.
  apply Forall_app; split; [done|].
  apply Forall_app; split; [by apply not_final_history_disabled|].
  apply Forall_cons; split; [by intros (?&?&?)|].
  apply Forall_app; split; [by eapply not_final_pipeline|].
  apply Forall_cons; split; [by intros (?&?&?)|]. by apply not_final_bookkeeping.
Qed.

(** A run that goes through all its segments, with what [after_segment]
    collects. *)
Lemma uncancelled_run_collects fs kwargs w initial :
  dry_run (opts kwargs) = false → text_splits_only (opts kwargs) = false →
  loaded fs kwargs initial →
  (∀ n, flag_at w n = false) →
  audio_segments_of kwargs ≠ [] →
  ∃ evs name first,
    (generate_audio_long fs kwargs w).1
    = Ok (Some (outputs evs, with_silence kwargs (audios evs), name)) ∧
    log (generate_audio_long fs kwargs w).2
    = log w ++ evs
      ++ [EvWriteOneSegment (Some SegFinal)
            (Some (concat (with_silence kwargs (audios evs)))) (Some first)] ∧
    head (outputs evs) = Some first ∧
    length (calls evs) = length (audio_segments_of kwargs) ∧
    length (outputs evs) = length (audio_segments_of kwargs) ∧
    length (audios evs) = length (audio_segments_of kwargs) ∧
    Forall not_final_write evs ∧
    done_cancelling (generate_audio_long fs kwargs w).2 = done_cancelling w.
Proof.
  intros Hdry Hsplits Hloaded Hnone Hsegs.
  apply (wp_elim (generate_audio_long fs kwargs) w
           (λ r w', ∃ evs name first,
              r = Ok (Some (outputs evs, with_silence kwargs (audios evs), name)) ∧
              log w' = log w ++ evs
                       ++ [EvWriteOneSegment (Some SegFinal)
                             (Some (concat (with_silence kwargs (audios evs))))
                             (Some first)] ∧
              head (outputs evs) = Some first ∧
              length (calls evs) = length (audio_segments_of kwargs) ∧
              length (outputs evs) = length (audio_segments_of kwargs) ∧
              length (audios evs) = length (audio_segments_of kwargs) ∧
              Forall not_final_write evs ∧
              done_cancelling w' = done_cancelling w)).
  apply (wp_generate_audio_long fs kwargs w initial
           (λ i st w', running w kwargs st w' ∧ collected w kwargs i st w'));
    [done|done| | |].
  - intros st w1 pre Hstart Hg Hd Hn Hlog Hpre. split; [by eapply starts_running|].
    destruct Hstart as (_ & _ & _ & _ & _ & _ & _ & Hfgs & Hauds).
    destruct (prelude_quiet _ Hpre) as (Hc & Ho & Ha).
    split; [done|]. exists pre. rewrite Hc, Ho, Ha, Hfgs, Hauds.
    repeat split; try done. by apply not_final_prelude.
  - intros j text st w' _ [Hrun Hcol]. rewrite Hdry.
    eapply wp_mono.
    { apply wp_and; [by apply segment_body_running|].
      by apply (segment_body_collected w kwargs j text st w' (λ _ _, False)). }
    intros [[st'|r]|e] w'' [? ?]; done.
  - intros st w' [(Hg & Hn & Hopts & _) (Hdone & evs & Hlog & Hfgs & Hauds & Hc & Ho & Ha & Hnf)].
    unfold finish. wp_step. wp_step. rewrite (flag_at_same w) by done. rewrite Hnone.
    cbv zeta. cbn [opts set_segment_number]. rewrite Hopts, Hdry. cbn [negb].
    rewrite Hfgs, Hauds.
    destruct (outputs evs) as [|first outs] eqn:Houts.
    { cbn in Ho. destruct (audio_segments_of kwargs); [done|]. cbn in Ho. lia. }
    destruct (audios evs) as [|a auds] eqn:Hauds'.
    { cbn in Ha. destruct (audio_segments_of kwargs); [done|]. cbn in Ha. lia. }
    cbn [with_silence mbind list_bind app]. wp_step. wp_step. wp_step.
    exists evs, (determine_output_filename (set_segment_number SegFinal (kw st))), first.
    rewrite Houts, Hauds'. cbn [with_silence mbind list_bind app logged log done_cancelling].
    split; [done|]. split; [by rewrite Hlog, <- app_assoc|]. done.
Qed.

Lemma silence_after_of kw silence :
  silence_after kw = Returns silence → silence_of kw = silence.
Proof.
  unfold silence_after, silence_of, py_int_of_float, py_int.
  destruct (0 <? add_silence_between_segments (opts kw))%float; [|congruence].
  destruct (Prim2SF _); cbn [mbind outcome_bind]; congruence.
Qed.

(** X18. A run that is neither dry nor splits-only, whose speaker,
    when one is named, resolves and loads, whose silence between segments is
    none or of a number of samples that [int] can give (not an infinite
    one), that never sees the flag set and has at least one segment, returns
    the bundles and the audio of all its segments, in order, the audio of
    each followed by that silence; it calls the pipeline once per segment,
    writes the final file once, last, from the concatenated audio and the
    first bundle, and leaves [done_cancelling] as it was. *)
Theorem uncancelled_run_returns_every_segment fs kwargs w initial silence :
  dry_run (opts kwargs) = false → text_splits_only (opts kwargs) = false →
  loaded fs kwargs initial →
  silence_after kwargs = Returns silence →
  (∀ n, flag_at w n = false) →
  audio_segments_of kwargs ≠ [] →
  ∃ evs name first,
    (generate_audio_long fs kwargs w).1
    = Ok (Some (outputs evs, each_followed_by silence (audios evs), name)) ∧
    log (generate_audio_long fs kwargs w).2
    = log w ++ evs
      ++ [EvWriteOneSegment (Some SegFinal)
            (Some (concat (each_followed_by silence (audios evs)))) (Some first)] ∧
    head (outputs evs) = Some first ∧
    length (calls evs) = length (audio_segments_of kwargs) ∧
    length (outputs evs) = length (audio_segments_of kwargs) ∧
    length (audios evs) = length (audio_segments_of kwargs) ∧
    Forall not_final_write evs ∧
    done_cancelling (generate_audio_long fs kwargs w).2 = done_cancelling w.
Proof.
  intros Hdry Hsplits Hloaded Hsilence Hnone Hsegs.
  destruct (uncancelled_run_collects fs kwargs w initial Hdry Hsplits Hloaded Hnone Hsegs)
    as (evs & name & first & Hrun).
  exists evs, name, first. unfold with_silence in Hrun.
  rewrite (silence_after_of _ _ Hsilence) in Hrun. exact Hrun.
Qed.

Lemma call_events_app evs1 evs2 :
  call_events (evs1 ++ evs2) = call_events evs1 ++ call_events evs2.
Proof. apply omap_app. Qed.

Lemma calls_call_events evs : calls evs = (call_events evs).*2.
Proof.
  induction evs as [|e evs IH]; [done|]. unfold calls, call_events in *. cbn.
  destruct e; cbn; by rewrite ?IH.
Qed.

Lemma call_events_quiet evs : calls evs = [] → call_events evs = [].
Proof. rewrite calls_call_events. apply fmap_nil_inv. Qed.

Lemma prefixed_opts k k' text : opts k = opts k' → prefixed k text = prefixed k' text.
Proof. unfold prefixed. by intros ->. Qed.

Lemma in_order_app_quiet kwargs evs evs' :
  call_events evs' = [] → in_order kwargs evs → in_order kwargs (evs ++ evs').
Proof. intros Hquiet Hord j text kwj. rewrite call_events_app, Hquiet, app_nil_r. apply Hord. Qed.

Lemma segment_body_in_order w kwargs dry i text st w' :
  audio_segments_of kwargs !! i = Some text →
  running w kwargs st w' →
  (∃ evs, log w' = log w ++ evs ∧ in_order kwargs evs ∧ length (call_events evs) = i) →
  wp (segment_body (interval_of kwargs) dry i text st) w'
     (λ r w'',
        ∃ evs, log w'' = log w ++ evs ∧ in_order kwargs evs ∧
               match r with
               | Ok (Continue _) => length (call_events evs) = S i ∨ dry = true ∧ length (call_events evs) = i
               | _ => True
               end).
Proof.
  intros Htext (Hg & Hn & Hopts & Hfull & Htotal & Hcounter) (evs & Hlog & Hord & Hlen).
  destruct dry.
  { unfold segment_body. wp_step. exists evs. split; [done|]. split; [done|]. by right. }
  destruct (select_history_prompt_run (entering i text st) w')
    as (st1 & sevs & Hselect & Hsevs & Hkw & Hbase & Hc & Hfg1 & Ha1).
  cbn [entering kw base_history stable_mode_interval_counter full_generation_segments
       audio_arr_segments] in Hkw, Hbase, Hc, Hfg1, Ha1.
  destruct (history_disabled_quiet _ Hsevs) as (Hsc%call_events_quiet & _ & _).
  assert (in_order kwargs
            ((evs ++ sevs) ++ [EvGenerateAudioBarki (prefixed (kw st) text) (kw st1)]))
    as Hord1.
  { intros j t kwj. rewrite !call_events_app, Hsc, app_nil_r. cbn.
    intros Hj. apply lookup_app_Some in Hj as [Hj|[Hge Hj]]; [by apply Hord|].
    apply list_lookup_singleton_Some in Hj as [Hj [= <- <-]].
    assert (j = i) as -> by lia. exists text. rewrite Hkw. cbn.
    split; [done|]. split; [by apply prefixed_opts|]. done. }
  eapply wp_segment_body; [exact Hselect|by rewrite Hkw|by rewrite Hkw| |].
  - intros w'' evs' _ _ _ Hlog' [->|(bevs & out & -> & Hpipe)].
    + exists (evs ++ sevs ++ [EvCancelled]). rewrite Hlog', Hlog, <- app_assoc.
      split; [done|]. split; [|done]. rewrite app_assoc.
      apply in_order_app_quiet; [done|]. apply in_order_app_quiet; done.
    + destruct (pipeline_quiet _ _ Hpipe) as (Hbc%call_events_quiet & _ & _).
      exists (((evs ++ sevs) ++ [EvGenerateAudioBarki (prefixed (kw st) text) (kw st1)])
              ++ bevs ++ [EvBarkiReturned out; EvCancelled]).
      split.
      { rewrite Hlog', Hlog.
        repeat first [rewrite <- app_assoc | rewrite <- app_comm_cons]. reflexivity. }
      split; [|done]. apply in_order_app_quiet; [|done].
      by rewrite call_events_app, Hbc.
  - intros wmid bevs fg a _ _ _ _ Hpipe Hlogm.
    destruct (after_segment_run (interval_of kwargs) st1 fg a wmid) as (aevs & Hafter & Haevs).
    { apply interval_of_nonneg. }
    { rewrite Hc. exact Hcounter. }
    eapply wp_of_run; [exact Hafter|].
    destruct (pipeline_quiet _ _ Hpipe) as (Hbc%call_events_quiet & _ & _).
    destruct (bookkeeping_quiet _ Haevs) as (Hac%call_events_quiet & _ & _).
    exists (((evs ++ sevs) ++ [EvGenerateAudioBarki (prefixed (kw st) text) (kw st1)])
            ++ bevs ++ [EvBarkiReturned (Pair (Some fg) (Some a))] ++ aevs).
    split.
    { cbn [logged log]. rewrite Hlogm, Hlog.
      repeat first [rewrite <- app_assoc | rewrite <- app_comm_cons]. reflexivity. }
    split.
    { apply in_order_app_quiet; [|done]. by rewrite !call_events_app, Hbc, Hac. }
    left. rewrite !call_events_app, Hsc, Hbc, Hac, app_nil_r, !length_app, Hlen. cbn. lia.
Qed.

(** X19. In every run that is not splits-only, cancelled or not, the
    pipeline calls go through the segments in order: call [j] is given
    segment [j] of the text, after the prefix when there is one, as number
    [j + 1] of the number of segments, with the options of the run and
    [output_full] set. *)
Theorem calls_follow_the_segments fs kwargs w initial :
  text_splits_only (opts kwargs) = false →
  loaded fs kwargs initial →
  ∃ evs, log (generate_audio_long fs kwargs w).2 = log w ++ evs ∧ in_order kwargs evs.
Proof.
  intros Hsplits Hloaded.
  apply (wp_elim (generate_audio_long fs kwargs) w
           (λ r w', ∃ evs, log w' = log w ++ evs ∧ in_order kwargs evs)).
  apply (wp_generate_audio_long fs kwargs w initial
           (λ i st w', running w kwargs st w' ∧
                       ∃ evs, log w' = log w ++ evs ∧ in_order kwargs evs ∧
                              if dry_run (opts kwargs) then call_events evs = []
                              else length (call_events evs) = i));
    [done|done| | |].
  - intros st w1 pre Hstart Hg Hd Hn Hlog Hpre. split; [by eapply starts_running|].
    destruct (prelude_quiet _ Hpre) as (Hc%call_events_quiet & _ & _).
    exists pre. split; [done|]. split; [|rewrite Hc; by destruct (dry_run _)].
    intros j text kwj. by rewrite Hc.
  - intros j text st w' Htext [Hrun (evs & Hlog & Hord & Hlen)].
    destruct (dry_run (opts kwargs)) eqn:Hdry.
    + unfold segment_body. wp_step. split.
      { destruct Hrun as (? & ? & ? & ? & ? & ?). by repeat split. }
      by exists evs.
    + eapply wp_mono.
      { apply wp_and; [by apply segment_body_running|].
        apply (segment_body_in_order w kwargs false j text st w'); [done|done|].
        by exists evs. }
      intros [[st'|r]|e] w'' [Hrun' (evs' & Hlog' & Hord' & Hlen')].
      * split; [done|]. exists evs'. split; [done|]. split; [done|].
        destruct Hlen' as [?|[? _]]; done.
      * by exists evs'.
      * by exists evs'.
  - intros st w' [Hrun (evs & Hlog & Hord & _)]. unfold finish.
    wp_step. wp_step. case_if.
    { repeat wp_step. exists (evs ++ [EvCancelled]). cbn. rewrite Hlog, <- app_assoc.
      split; [done|]. by apply in_order_app_quiet. }
    cbv zeta. case_if.
    + destruct (audio_arr_segments st) as [|? ?], (full_generation_segments st) as [|? ?];
        repeat wp_step; try by exists evs.
      eexists (evs ++ [_]). cbn. rewrite Hlog, <- app_assoc.
      split; [done|]. by apply in_order_app_quiet.
    + wp_step. by exists evs.
Qed.

Lemma follows_app_quiet rule evs evs' :
  (∀ j outs more, j ≤ length outs → rule j (outs ++ more) = rule j outs) →
  length (calls evs) ≤ S (length (outputs evs)) →
  calls evs' = [] → follows rule evs → follows rule (evs ++ evs').
Proof.
  intros Hstable Hlen Hquiet Hfol j kwj. rewrite calls_app, Hquiet, app_nil_r.
  intros Hj. rewrite outputs_app, Hstable; [by apply Hfol|].
  apply lookup_lt_Some in Hj. lia.
Qed.

Lemma follows_app_call rule evs text kw :
  (∀ j outs more, j ≤ length outs → rule j (outs ++ more) = rule j outs) →
  length (calls evs) = length (outputs evs) →
  history_prompt kw = HPDict <$> rule (length (calls evs)) (outputs evs) →
  follows rule evs → follows rule (evs ++ [EvGenerateAudioBarki text kw]).
Proof.
  intros Hstable Hlen Hhp Hfol j kwj. rewrite calls_app, outputs_app. cbn.
  rewrite app_nil_r. intros Hj. apply lookup_app_Some in Hj as [Hj|[Hge Hj]].
  - by apply Hfol.
  - apply list_lookup_singleton_Some in Hj as [Hj <-].
    by assert (j = length (calls evs)) as -> by lia.
Qed.

(** Neither mode on and an interval below two: the rolling prompt is what
    [rule] picks. *)
Lemma generate_audio_long_follows fs kwargs w initial rule :
  seperate_prompts (opts kwargs) = false →
  seperate_prompts_flipper (opts kwargs) = false →
  dry_run (opts kwargs) = false →
  text_splits_only (opts kwargs) = false →
  loaded fs kwargs initial →
  (interval_of kwargs < 2)%Z →
  rule 0 [] = initial →
  (∀ j outs more, j ≤ length outs → rule j (outs ++ more) = rule j outs) →
  (∀ outs fg,
     rule (S (length outs)) (outs ++ [fg])
     = Some (if (interval_of kwargs =? 1)%Z
             then default fg (match initial with
                              | Some base => Some base
                              | None => head outs
                              end)
             else fg)) →
  ∃ evs, log (generate_audio_long fs kwargs w).2 = log w ++ evs ∧ follows rule evs.
Proof.
  intros Hsep Hflip Hdry Hsplits Hloaded Hint Hrule0 Hstable Hnext.
  apply (wp_elim (generate_audio_long fs kwargs) w
           (λ r w', ∃ evs, log w' = log w ++ evs ∧ follows rule evs)).
  apply (wp_generate_audio_long fs kwargs w initial
           (λ i st w',
              running w kwargs st w' ∧
              ∃ evs, log w' = log w ++ evs ∧ follows rule evs ∧
                     length (calls evs) = i ∧ length (outputs evs) = i ∧
                     history_prompt_for_next_segment st = rule i (outputs evs) ∧
                     base_history st = match initial with
                                       | Some base => Some base
                                       | None => head (outputs evs)
                                       end));
    [done|done| | |].
  - intros st w1 pre Hstart Hg Hd Hn Hlog Hpre. split; [by eapply starts_running|].
    destruct Hstart as (_ & _ & _ & Hnext0 & Hbase0 & _).
    destruct (prelude_quiet _ Hpre) as (Hc & Ho & _).
    exists pre. rewrite Hc, Ho. split; [done|]. split; [by intros j kwj; rewrite Hc|].
    split; [done|]. split; [done|]. split; [by rewrite Hrule0|].
    rewrite Hbase0. by destruct initial.
  - intros j text st w' Htext [Hrun (evs & Hlog & Hfol & Hcalls & Houts & Hroll & Hbase)].
    rewrite Hdry. eapply wp_mono.
    { apply wp_and; [by apply segment_body_running|].
      instantiate (1 := λ r w'',
        match r with
        | Ok (Continue st') =>
            ∃ evs, log w'' = log w ++ evs ∧ follows rule evs ∧
                   length (calls evs) = S j ∧ length (outputs evs) = S j ∧
                   history_prompt_for_next_segment st' = rule (S j) (outputs evs) ∧
                   base_history st' = match initial with
                                      | Some base => Some base
                                      | None => head (outputs evs)
                                      end
        | _ => ∃ evs, log w'' = log w ++ evs ∧ follows rule evs
        end).
      destruct Hrun as (Hg & Hn & Hopts & Hfull & Htotal & Hcounter).
      pose proof (select_history_prompt_plain (entering j text st) w') as Hselect.
      cbn [entering kw opts set_segment_number set_text_prompt] in Hselect.
      rewrite Hopts, Hsep, Hflip in Hselect. specialize (Hselect eq_refl eq_refl).
      rewrite <- (logged_nil w') in Hselect at 2.
      cbn [history_prompt_for_next_segment base_history stable_mode_interval_counter
           history_prompt_flipper full_generation_segments audio_arr_segments] in Hselect.
      set (kw1 := set_history_prompt _ _) in Hselect.
      set (st1 := LoopState kw1 _ _ _ _ _ _) in Hselect.
      assert (follows rule (evs ++ [EvGenerateAudioBarki (prefixed (kw st) text) kw1]))
        as Hfol1.
      { apply follows_app_call; [done|lia| |done]. rewrite Hcalls. unfold kw1. cbn.
        by rewrite Hroll. }
      eapply wp_segment_body; [exact Hselect|done|done| |].
      + intros w'' evs' _ _ _ Hlog' [->|(bevs & out & -> & Hpipe)].
        * exists (evs ++ [EvCancelled]). rewrite Hlog', Hlog. cbn [app].
          split; [by rewrite <- app_assoc|].
          apply follows_app_quiet; [done|lia|done|done].
        * destruct (pipeline_quiet _ _ Hpipe) as (Hbc & Hbo & _).
          exists ((evs ++ [EvGenerateAudioBarki (prefixed (kw st) text) kw1])
                  ++ bevs ++ [EvBarkiReturned out; EvCancelled]).
          split.
          { rewrite Hlog', Hlog. cbn [app].
            repeat first [rewrite <- app_assoc | rewrite <- app_comm_cons]. reflexivity. }
          apply follows_app_quiet; [done| |by rewrite calls_app, Hbc|done].
          rewrite calls_app, outputs_app, !length_app. cbn. lia.
      + intros wmid bevs fg a _ _ _ _ Hpipe Hlogm.
        destruct (after_segment_run (interval_of kwargs) st1 fg a wmid)
          as (aevs & Hafter & Haevs).
        { apply interval_of_nonneg. }
        { intros ?. lia. }
        eapply wp_of_run; [exact Hafter|].
        destruct (pipeline_quiet _ _ Hpipe) as (Hbc & Hbo & _).
        destruct (bookkeeping_quiet _ Haevs) as (Hac & Hao & _).
        exists ((evs ++ [EvGenerateAudioBarki (prefixed (kw st) text) kw1])
                ++ bevs ++ [EvBarkiReturned (Pair (Some fg) (Some a))] ++ aevs).
        assert (outputs ((evs ++ [EvGenerateAudioBarki (prefixed (kw st) text) kw1])
                         ++ bevs ++ [EvBarkiReturned (Pair (Some fg) (Some a))] ++ aevs)
                = outputs evs ++ [fg]) as Houts'.
        { rewrite !outputs_app, Hbo, Hao. cbn. by rewrite app_nil_r. }
        rewrite Houts'. split.
        { cbn [logged log]. rewrite Hlogm, Hlog. cbn [app].
          repeat first [rewrite <- app_assoc | rewrite <- app_comm_cons]. reflexivity. }
        split.
        { apply follows_app_quiet; [done| |by rewrite !calls_app, Hbc, Hac|done].
          rewrite calls_app, outputs_app, !length_app. cbn. lia. }
        split. { rewrite !calls_app, Hbc, Hac, !length_app, Hcalls. cbn. lia. }
        split. { rewrite length_app, Houts. cbn. lia. }
        unfold state_after, back_to_base, base_after.
        cbn [history_prompt_for_next_segment base_history st1].
        destruct (Z.leb_spec 2 (interval_of kwargs)); [lia|]. rewrite andb_false_l, orb_false_r.
        cbn [entering base_history].
        rewrite <- Houts, Hnext, Hbase. split; [by destruct (_ =? 1)%Z|].
        destruct initial as [base|]; [done|]. cbn [default from_option id].
        by destruct (outputs evs). }
    intros [[st'|r]|e] w'' [Hrun' Hpost]; done.
  - intros st w' [Hrun (evs & Hlog & Hfol & Hcalls & Houts & _)]. unfold finish.
    wp_step. wp_step. case_if.
    { repeat wp_step. exists (evs ++ [EvCancelled]). cbn. rewrite Hlog, <- app_assoc.
      split; [done|]. apply follows_app_quiet; [done|lia|done|done]. }
    cbv zeta. case_if.
    + destruct (audio_arr_segments st) as [|? ?], (full_generation_segments st) as [|? ?];
        repeat wp_step; try by exists evs.
      eexists (evs ++ [_]). cbn. rewrite Hlog, <- app_assoc.
      split; [done|]. apply follows_app_quiet; [done|lia|done|done].
    + wp_step. by exists evs.
Qed.

(** X20. With stability interval 1, which is also the default, and
    neither separate-prompts mode, every pipeline call of a run is
    conditioned on the base: the bundle loaded when there is one, and
    otherwise nothing for the first call and the output of the first segment
    for the others. *)
Theorem interval_one_conditions_on_the_base fs kwargs w initial :
  interval_of kwargs = 1%Z →
  seperate_prompts (opts kwargs) = false →
  seperate_prompts_flipper (opts kwargs) = false →
  dry_run (opts kwargs) = false →
  text_splits_only (opts kwargs) = false →
  loaded fs kwargs initial →
  ∃ evs, log (generate_audio_long fs kwargs w).2 = log w ++ evs ∧
         follows (anchor initial) evs.
Proof.
  intros Hint Hsep Hflip Hdry Hsplits Hloaded.
  apply (generate_audio_long_follows fs kwargs w initial (anchor initial)); try done.
  - lia.
  - by destruct initial.
  - intros j outs more Hj. unfold anchor. destruct initial; [done|].
    destruct j; [done|]. apply lookup_app_l. lia.
  - intros outs fg. rewrite Hint. cbn [Z.eqb Pos.eqb]. unfold anchor.
    destruct initial; [done|]. by destruct outs.
Qed.

(** X21. With stability interval 0, or a negative one, and neither
    separate-prompts mode, the first pipeline call of a run is conditioned
    on the bundle the run starts from and every later call on the output of
    the call before it. *)
Theorem interval_zero_conditions_on_the_previous fs kwargs w initial :
  interval_of kwargs = 0%Z →
  seperate_prompts (opts kwargs) = false →
  seperate_prompts_flipper (opts kwargs) = false →
  dry_run (opts kwargs) = false →
  text_splits_only (opts kwargs) = false →
  loaded fs kwargs initial →
  ∃ evs, log (generate_audio_long fs kwargs w).2 = log w ++ evs ∧
         follows (drift initial) evs.
Proof.
  intros Hint Hsep Hflip Hdry Hsplits Hloaded.
  apply (generate_audio_long_follows fs kwargs w initial (drift initial)); try done.
  - lia.
  - intros j outs more Hj. destruct j; [done|]. apply lookup_app_l. cbn in Hj. lia.
  - intros outs fg. rewrite Hint. cbn [Z.eqb drift].
    by rewrite lookup_app_r, Nat.sub_diag.
Qed.

Lemma select_history_prompt_flipper st w flipped :
  seperate_prompts (opts (kw st)) = true →
  seperate_prompts_flipper (opts (kw st)) = true →
  history_prompt_flipper st = flipped →
  select_history_prompt st w
  = if flipped then
      (Ok (LoopState (set_history_prompt None (kw st)) None (base_history st)
             (stable_mode_interval_counter st) false
             (full_generation_segments st) (audio_arr_segments st)),
       logged w [EvHistoryPromptDisabled])
    else
      (Ok (LoopState (set_history_prompt (HPDict <$> history_prompt_for_next_segment st)
                        (kw st))
             (history_prompt_for_next_segment st) (base_history st)
             (stable_mode_interval_counter st) true
             (full_generation_segments st) (audio_arr_segments st)),
       logged w []).
Proof.
  intros Hsep Hflip <-. unfold select_history_prompt. rewrite Hflip, Hsep.
  destruct (history_prompt_flipper st); [done|]. by rewrite logged_nil.
Qed.

Lemma alternating_app_quiet initial evs evs' :
  calls evs' = [] → alternating initial evs → alternating initial (evs ++ evs').
Proof. intros Hquiet Halt j kwj. rewrite calls_app, Hquiet, app_nil_r. apply Halt. Qed.

(** X22. With both separate-prompts switches on, the calls of a run
    alternate: the first is conditioned on the bundle the run starts from,
    the calls for segments 2, 4, ... get no history prompt, and the calls
    for segments 3, 5, ... get a bundle. *)
Theorem flipper_alternates fs kwargs w initial :
  seperate_prompts (opts kwargs) = true →
  seperate_prompts_flipper (opts kwargs) = true →
  dry_run (opts kwargs) = false →
  text_splits_only (opts kwargs) = false →
  loaded fs kwargs initial →
  ∃ evs, log (generate_audio_long fs kwargs w).2 = log w ++ evs ∧
         alternating initial evs.
Proof.
  intros Hsep Hflip Hdry Hsplits Hloaded.
  apply (wp_elim (generate_audio_long fs kwargs) w
           (λ r w', ∃ evs, log w' = log w ++ evs ∧ alternating initial evs)).
  apply (wp_generate_audio_long fs kwargs w initial
           (λ i st w',
              running w kwargs st w' ∧
              history_prompt_flipper st = Nat.odd i ∧
              match i with
              | 0 => history_prompt_for_next_segment st = initial
              | S _ => is_Some (history_prompt_for_next_segment st)
              end ∧
              ∃ evs, log w' = log w ++ evs ∧ alternating initial evs ∧
                     length (calls evs) = i));
    [done|done| | |].
  - intros st w1 pre Hstart Hg Hd Hn Hlog Hpre. split; [by eapply starts_running|].
    destruct Hstart as (_ & _ & _ & Hnext0 & _ & _ & Hflip0 & _).
    destruct (prelude_quiet _ Hpre) as (Hc & _ & _).
    split; [done|]. split; [done|]. exists pre. rewrite Hc.
    split; [done|]. split; [by intros j kwj; rewrite Hc|done].
  - intros j text st w' Htext [Hrun (Hodd & Hroll & evs & Hlog & Halt & Hcalls)].
    rewrite Hdry. eapply wp_mono.
    { apply wp_and; [by apply segment_body_running|].
      instantiate (1 := λ r w'',
        match r with
        | Ok (Continue st') =>
            history_prompt_flipper st' = Nat.odd (S j) ∧
            is_Some (history_prompt_for_next_segment st') ∧
            ∃ evs, log w'' = log w ++ evs ∧ alternating initial evs ∧
                   length (calls evs) = S j
        | _ => ∃ evs, log w'' = log w ++ evs ∧ alternating initial evs
        end).
      destruct Hrun as (Hg & Hn & Hopts & Hfull & Htotal & Hcounter).
      pose proof (select_history_prompt_flipper (entering j text st) w' (Nat.odd j))
        as Hselect.
      specialize (Hselect ltac:(cbn; congruence) ltac:(cbn; congruence) Hodd).
      cbn [entering kw history_prompt_for_next_segment base_history
           stable_mode_interval_counter history_prompt_flipper full_generation_segments
           audio_arr_segments] in Hselect.
      set (kw0 := set_segment_number _ _) in Hselect.
      set (hp := if Nat.odd j then None
                 else HPDict <$> history_prompt_for_next_segment st).
      set (st1 := LoopState (set_history_prompt hp kw0)
                    (if Nat.odd j then None else history_prompt_for_next_segment st)
                    (base_history st) (stable_mode_interval_counter st)
                    (negb (Nat.odd j)) (full_generation_segments st)
                    (audio_arr_segments st)).
      assert (∃ sevs, select_history_prompt (entering j text st) w'
                      = (Ok st1, logged w' sevs) ∧ calls sevs = []) as (sevs & Hsel & Hsc).
      { unfold st1, hp. destruct (Nat.odd j); eexists; (split; [exact Hselect|done]). }
      assert (alternating initial
                ((evs ++ sevs)
                 ++ [EvGenerateAudioBarki (prefixed (kw st) text) (kw st1)])) as Halt1.
      { intros k kwk. rewrite !calls_app, Hsc, app_nil_r. cbn. intros Hk.
        apply lookup_app_Some in Hk as [Hk|[Hge Hk]]; [by apply Halt|].
        apply list_lookup_singleton_Some in Hk as [Hk <-].
        assert (k = j) as -> by lia. unfold hp. destruct (Nat.odd j) eqn:Hj; [done|].
        destruct j; [by rewrite Hroll|]. destruct Hroll as [? ->]. by eexists. }
      eapply wp_segment_body; [exact Hsel|done|done| |].
      + intros w'' evs' _ _ _ Hlog' [->|(bevs & out & -> & Hpipe)].
        * exists (evs ++ sevs ++ [EvCancelled]). rewrite Hlog', Hlog, <- app_assoc.
          split; [done|]. rewrite app_assoc.
          apply alternating_app_quiet; [done|]. by apply alternating_app_quiet.
        * destruct (pipeline_quiet _ _ Hpipe) as (Hbc & _ & _).
          exists (((evs ++ sevs)
                   ++ [EvGenerateAudioBarki (prefixed (kw st) text) (kw st1)])
                  ++ bevs ++ [EvBarkiReturned out; EvCancelled]).
          split.
          { rewrite Hlog', Hlog.
            repeat first [rewrite <- app_assoc | rewrite <- app_comm_cons]. reflexivity. }
          apply alternating_app_quiet; [|done]. by rewrite calls_app, Hbc.
      + intros wmid bevs fg a _ _ _ _ Hpipe Hlogm.
        destruct (after_segment_run (interval_of kwargs) st1 fg a wmid)
          as (aevs & Hafter & Haevs).
        { apply interval_of_nonneg. }
        { exact Hcounter. }
        eapply wp_of_run; [exact Hafter|].
        destruct (pipeline_quiet _ _ Hpipe) as (Hbc & _ & _).
        destruct (bookkeeping_quiet _ Haevs) as (Hac & _ & _).
        unfold state_after. cbn [history_prompt_flipper history_prompt_for_next_segment st1].
        split; [by rewrite Nat.odd_succ, <- Nat.negb_odd|]. split; [by eexists|].
        exists (((evs ++ sevs)
                 ++ [EvGenerateAudioBarki (prefixed (kw st) text) (kw st1)])
                ++ bevs ++ [EvBarkiReturned (Pair (Some fg) (Some a))] ++ aevs).
        split.
        { cbn [logged log]. rewrite Hlogm, Hlog.
          repeat first [rewrite <- app_assoc | rewrite <- app_comm_cons]. reflexivity. }
        split.
        { apply alternating_app_quiet; [|done]. by rewrite !calls_app, Hbc, Hac. }
        rewrite !calls_app, Hsc, Hbc, Hac, !length_app, Hcalls. cbn. lia. }
    intros [[st'|r]|e] w'' [Hrun' Hpost]; done.
  - intros st w' [Hrun (_ & _ & evs & Hlog & Halt & _)]. unfold finish.
    wp_step. wp_step. case_if.
    { repeat wp_step. exists (evs ++ [EvCancelled]). cbn. rewrite Hlog, <- app_assoc.
      split; [done|]. by apply alternating_app_quiet. }
    cbv zeta. case_if.
    + destruct (audio_arr_segments st) as [|? ?], (full_generation_segments st) as [|? ?];
        repeat wp_step; try by exists evs.
      eexists (evs ++ [_]). cbn. rewrite Hlog, <- app_assoc.
      split; [done|]. by apply alternating_app_quiet.
    + wp_step. by exists evs.
Qed.

(** X23. A dry run calls no stage and no pipeline: all it logs is the
    splitting of the text, in hoarder mode the call that saves the base
    history, and the cancellation when there is one; it reads the flag once,
    after the loop, and returns two empty lists with the final file name, or
    [(None, None, None)] when the flag was set. *)
Theorem dry_run_generates_nothing fs kwargs w initial :
  dry_run (opts kwargs) = true →
  text_splits_only (opts kwargs) = false →
  loaded fs kwargs initial →
  ∃ evs name,
    log (generate_audio_long fs kwargs w).2 = log w ++ evs ∧
    Forall (λ e, prelude_event e ∨ e = EvCancelled) evs ∧
    flag_reads (generate_audio_long fs kwargs w).2 = S (flag_reads w) ∧
    (generate_audio_long fs kwargs w).1
    = if flag_at w (flag_reads w) then Ok None else Ok (Some ([], [], name)).
Proof.
  intros Hdry Hsplits Hloaded.
  apply (wp_elim (generate_audio_long fs kwargs) w
           (λ r w', ∃ evs name,
              log w' = log w ++ evs ∧
              Forall (λ e, prelude_event e ∨ e = EvCancelled) evs ∧
              flag_reads w' = S (flag_reads w) ∧
              r = if flag_at w (flag_reads w) then Ok None else Ok (Some ([], [], name)))).
  apply (wp_generate_audio_long fs kwargs w initial
           (λ i st w',
              opts (kw st) = opts kwargs ∧
              gradio_try_to_cancel w' = gradio_try_to_cancel w ∧
              flag_reads w' = flag_reads w ∧
              full_generation_segments st = [] ∧ audio_arr_segments st = [] ∧
              ∃ pre, log w' = log w ++ pre ∧ Forall prelude_event pre));
    [done|done| | |].
  - intros st w1 pre (Hopts & _ & _ & _ & _ & _ & _ & Hfgs & Hauds) Hg Hd Hn Hlog Hpre.
    repeat split; try done. by exists pre.
  - intros j text st w' _ (Hopts & Hg & Hn & Hfgs & Hauds & pre & Hlog & Hpre).
    rewrite Hdry. unfold segment_body. wp_step. repeat split; try done. by exists pre.
  - intros st w' (Hopts & Hg & Hn & Hfgs & Hauds & pre & Hlog & Hpre).
    assert (Forall (λ e, prelude_event e ∨ e = EvCancelled) pre) as Hpre'.
    { eapply Forall_impl; [exact Hpre|]. by left. }
    unfold finish. wp_step. wp_step. rewrite (flag_at_same w) by done. rewrite Hn.
    destruct (flag_at w (flag_reads w)).
    + repeat wp_step. exists (pre ++ [EvCancelled]), ""%string. cbn.
      rewrite Hlog, <- app_assoc. split; [done|]. split; [|done].
      apply Forall_app. split; [done|]. apply Forall_singleton. by right.
    + cbv zeta. cbn [opts set_segment_number]. rewrite Hopts, Hdry. cbn [negb].
      wp_step. eexists pre, _. cbn. rewrite Hfgs, Hauds. done.
Qed.

(** X24. When the text splits into no segment, a run that is neither
    dry nor splits-only nor cancelled raises [ValueError], from
    [np.concatenate] of no array, instead of returning. *)
Theorem no_segment_raises fs kwargs w initial :
  audio_segments_of kwargs = [] →
  dry_run (opts kwargs) = false →
  text_splits_only (opts kwargs) = false →
  loaded fs kwargs initial →
  flag_at w (flag_reads w) = false →
  (generate_audio_long fs kwargs w).1 = Raise ValueError.
Proof.
  intros Hsegs Hdry Hsplits Hloaded Hflag.
  apply (wp_elim (generate_audio_long fs kwargs) w (λ r w', r = Raise ValueError)).
  apply (wp_generate_audio_long fs kwargs w initial
           (λ i st w',
              opts (kw st) = opts kwargs ∧
              gradio_try_to_cancel w' = gradio_try_to_cancel w ∧
              flag_reads w' = flag_reads w ∧ audio_arr_segments st = []));
    [done|done| | |].
  - intros st w1 pre (Hopts & _ & _ & _ & _ & _ & _ & Hfgs & Hauds) Hg Hd Hn Hlog Hpre.
    done.
  - intros j text st w' Htext. by rewrite Hsegs in Htext.
  - intros st w' (Hopts & Hg & Hn & Hauds).
    unfold finish. wp_step. wp_step. rewrite (flag_at_same w) by done. rewrite Hn, Hflag.
    cbv zeta. cbn [opts set_segment_number]. rewrite Hopts, Hdry, Hauds. cbn [negb].
    by wp_step.
Qed.

(** X25. A pipeline call that sees the flag set at none of its six
    reads runs the four stages in order, each on the output of the one
    before: the semantic stage with the history prompt of the call, the
    coarse and fine stages with the same one, or with none under the
    semantic-history-only switches.  It returns the audio, together with the
    bundle of the three token arrays when [output_full] is set, writes the
    segment in hoarder mode when there is more than one segment, and leaves
    the flags as they were. *)
Theorem uncancelled_call_runs_every_stage text kw w every_x :
  no_flag_between w (flag_reads w) (6 + flag_reads w) →
  every_x_override kw = Ok every_x →
  let hp := history_prompt kw in
  let hp' := waveform_prompt kw every_x in
  let semantic_tokens := generate_text_semantic text hp in
  let coarse_tokens := generate_coarse semantic_tokens hp' in
  let fine_tokens := generate_fine coarse_tokens hp' in
  let audio_arr := codec_decode fine_tokens in
  let full_generation := bundle semantic_tokens coarse_tokens fine_tokens in
  generate_audio_barki text kw w
  = (Ok (if output_full kw then Pair (Some full_generation) (Some audio_arr)
         else Audio audio_arr),
     World (gradio_try_to_cancel w) (done_cancelling w) (6 + flag_reads w)
       (log w
        ++ [EvGenerateTextSemantic text hp; EvGenerateCoarse semantic_tokens hp';
            EvGenerateFine coarse_tokens hp'; EvCodecDecode fine_tokens]
        ++ if hoarder_mode (opts kw) && (1 <? total_segments kw)%Z
           then [EvWriteOneSegment (segment_number kw) (Some audio_arr)
                   (Some full_generation)]
           else [])).
Proof.
  intros Hnone Hx. cbv zeta.
  assert (∀ k, k < 6 → gradio_try_to_cancel w || cancel_requested (k + flag_reads w) = false)
    as Hpoll.
  { intros k Hk. apply (Hnone (k + flag_reads w)). lia. }
  pose proof (Hpoll 0 ltac:(lia)) as H0. pose proof (Hpoll 1 ltac:(lia)) as H1.
  pose proof (Hpoll 2 ltac:(lia)) as H2. pose proof (Hpoll 3 ltac:(lia)) as H3.
  pose proof (Hpoll 4 ltac:(lia)) as H4. pose proof (Hpoll 5 ltac:(lia)) as H5.
  cbn [Nat.add] in H0, H1, H2, H3, H4, H5.
  destruct w as [g d n l]. cbn [gradio_try_to_cancel done_cancelling flag_reads log] in *.
  unfold generate_audio_barki, waveform_prompt.
  rewrite unless_cancelled_run, flag_at_world. cbn [gradio_try_to_cancel flag_reads].
  rewrite H0. rewrite run_bind. cbn [emit gradio_try_to_cancel done_cancelling flag_reads log].
  rewrite unless_cancelled_run, flag_at_world. cbn [gradio_try_to_cancel flag_reads].
  rewrite H1.
  rewrite unless_cancelled_run, flag_at_world. cbn [gradio_try_to_cancel flag_reads].
  rewrite H2. rewrite run_bind. unfold lift. rewrite Hx.
  rewrite run_bind. cbn [emit gradio_try_to_cancel done_cancelling flag_reads log].
  rewrite unless_cancelled_run, flag_at_world. cbn [gradio_try_to_cancel flag_reads].
  rewrite H3. rewrite run_bind. cbn [emit gradio_try_to_cancel done_cancelling flag_reads log].
  rewrite unless_cancelled_run, flag_at_world. cbn [gradio_try_to_cancel flag_reads].
  rewrite H4. rewrite run_bind. cbn [emit gradio_try_to_cancel done_cancelling flag_reads log].
  rewrite unless_cancelled_run, flag_at_world. cbn [gradio_try_to_cancel flag_reads].
  rewrite H5. rewrite run_bind.
  cbn [gradio_try_to_cancel done_cancelling flag_reads log].
  destruct (String.eqb (previous_segment_type kw) "base_history" && semantic_history_only (opts kw)),
    (absolute_semantic_history_only (opts kw)), every_x,
    (hoarder_mode (opts kw) && (1 <? total_segments kw)%Z), (output_full kw);
    cbn [orb emit]; rewrite ?run_ret; cbn [gradio_try_to_cancel done_cancelling flag_reads log];
    rewrite <- ?app_assoc; try rewrite app_nil_r; reflexivity.
Qed.









End controller_facts.

(** * Separate prompts and the rest of the module at concrete inputs *)


(** X2, witness: the speaker found in the two directories. *)
Lemma process_history_prompt_sound_witness :
  ∃ name,
    Some "spk"%string = Some name ∧
    path_exists example_files "dirB/spk.npz" = true ∧
    history_prompt_is_valid example_files (HPName "dirB/spk.npz") = Ok (Some true) ∧
    if decide (ospath.dirname (prompt_file_name name) = ""%string)
    then ∃ directory,
           directory ∈ VALID_HISTORY_PROMPT_DIRS (External := example_external never) ∧
           "dirB/spk.npz"%string = ospath.join directory (prompt_file_name name)
    else "dirB/spk.npz"%string = prompt_file_name name.
Proof.
  apply (process_history_prompt_sound (H := example_external never) example_files
           (Some "spk"%string) "dirB/spk.npz").
  reflexivity.
Defined.

(** X3 at the bundle with an empty semantic array: the validator raises
    and the report prints the exception under its coarse heading. *)
Lemma detailed_report_example :
  history_prompt_is_valid example_files (HPDict empty_semantic_bundle)
  = Raise ZeroDivisionError ∧
  history_prompt_detailed_report example_files (HPDict empty_semantic_bundle) 3
  = [LineSection "Semantic"; LineFailed;
     LineCheck 1 MsgEmpty;
     LineReportError "Coarse" ZeroDivisionError;
     LineSection "Fine"; LineValid].
Proof. split; reflexivity. Qed.

(** X6, witness: the bundle of a speaker saved next to two taken names. *)
Lemma write_seg_npz_saves_witness :
  ∃ u,
    generate_unique_filepath (H := example_external never) taken_files "a/x.wav" = Some u ∧
    write_seg_npz (H := example_external never) "a/x.wav" speaker_a
      (example_kwargs 1 false "spk") default_writers taken_files
    = Some (Ok (), <[npz_name u := NpzFile speaker_a]> taken_files) ∧
    load_npz (<[npz_name u := NpzFile speaker_a]> taken_files) (npz_name u) = Ok speaker_a ∧
    (endswith u ".npz" = true → path_exists taken_files (npz_name u) = false).
Proof.
  apply (write_seg_npz_saves (H := example_external never) taken_files "a/x.wav" speaker_a
           (example_kwargs 1 false "spk") default_writers
           (NdArray [2] [0; 0]%Z) (zeros 2 3) (zeros 8 3)); reflexivity.
Defined.

(** X7, witness: a bundle with its semantic array alone. *)
Lemma write_seg_npz_incomplete_bundle_witness :
  write_seg_npz (H := example_external never) "a/x.wav" semantic_only
    (example_kwargs 1 false "spk") default_writers taken_files
  = Some (Raise KeyError, taken_files).
Proof.
  apply (write_seg_npz_incomplete_bundle (H := example_external never) taken_files "a/x.wav"
           semantic_only (example_kwargs 1 false "spk") default_writers).
  intros (_ & [c Hc] & _). vm_compute in Hc. discriminate Hc.
Defined.

(** X8, witness: a dry run next to two taken names. *)
Lemma dry_run_writes_nothing_witness :
  write_seg_npz (H := example_external never) "a/x.wav" speaker_a
    (switched_kwargs 1 true false false) default_writers taken_files
  = Some (Ok (), taken_files) ∧
  write_seg_wav (H := example_external never) "a/x.wav" []
    (switched_kwargs 1 true false false) default_writers taken_files
  = Some (Ok (), taken_files) ∧
  write_audiofile (H := example_external never) "a/x.wav" []
    (switched_kwargs 1 true false false) default_writers taken_files
  = Some (Ok (), taken_files) ∧
  write_one_segment (H := example_external never) (H0 := example_disk)
    (Some []) (Some speaker_a)
    (switched_kwargs 1 true false false) default_writers taken_files
  = Some (Ok (), <["bark_samples"%string := OtherFile]> taken_files).
Proof.
  apply (dry_run_writes_nothing (H := example_external never) (H0 := example_disk)
           taken_files "a/x.wav" []
           speaker_a (switched_kwargs 1 true false false) default_writers
           (Some []) (Some speaker_a)).
  reflexivity.
Defined.

(** X9, witness: an mp3 written next to two taken names. *)
Lemma write_audiofile_effect_witness :
  ∃ u fs',
    generate_unique_filepath (H := example_external never) taken_files "a/x.wav" = Some u ∧
    path_exists taken_files u = false ∧
    write_audiofile (H := example_external never) "a/x.wav" []
      (example_kwargs 1 false "spk") default_writers taken_files = Some (Ok (), fs') ∧
    (∀ q, q ≠ u → q ≠ temp_wav → fs' !! q = taken_files !! q) ∧
    (u ≠ temp_wav → fs' !! u = Some OtherFile) ∧
    if bool_decide (default "mp3"%string (output_format default_writers) ∈ export_formats)
    then fs' !! temp_wav = None
    else u ≠ temp_wav → fs' !! temp_wav = taken_files !! temp_wav.
Proof.
  apply (write_audiofile_effect (H := example_external never) taken_files "a/x.wav" []
           (example_kwargs 1 false "spk") default_writers).
  reflexivity.
Defined.

(** X10, witness: the first segment written where nothing is in the way;
    the output directory is made on the way. *)
Lemma write_one_segment_places_witness :
  ∃ fs',
    write_one_segment (H := example_external never) (H0 := example_disk)
      (Some []) (Some speaker_a)
      (example_kwargs 1 false "spk") default_writers example_files
    = Some (Ok (), fs') ∧
    fs' !! "bark_samples/out.wav"%string = Some OtherFile ∧
    fs' !! "bark_samples/out.wav.npz"%string = Some (NpzFile speaker_a).
Proof.
  apply (write_one_segment_places (H := example_external never) (H0 := example_disk)
           example_files (<["bark_samples"%string := OtherFile]> example_files)
           "bark_samples/out.wav" [] speaker_a (example_kwargs 1 false "spk")
           default_writers (NdArray [2] [0; 0]%Z) (zeros 2 3) (zeros 8 3));
    first [reflexivity | discriminate].
Defined.

(** X11, witness: half of 256 is more than the two values there are; the
    second value is cast. *)
Lemma resize_semantic_history_length_witness :
  resize_semantic_history (NdArray [2] [5; 2 ^ 63]%Z) 0.5%float 256
  = Returns (NdArray [128] ([5; - 2 ^ 63]%Z ++ replicate 126 SEMANTIC_PAD_TOKEN)).
Proof.
  apply (resize_semantic_history_length (NdArray [2] [5; 2 ^ 63]%Z) 0.5%float 256 2 128);
    first [reflexivity | lia].
Defined.

(** X12, witness: weight 0 keeps the two values, cast. *)
Lemma resize_semantic_history_keeps_all_witness :
  resize_semantic_history (NdArray [2] [5; 2 ^ 63]%Z) 0%float 256
  = Returns (NdArray [2] [5; - 2 ^ 63]%Z).
Proof.
  apply (resize_semantic_history_keeps_all (NdArray [2] [5; 2 ^ 63]%Z) 0%float 256 2 0);
    first [reflexivity | lia].
Defined.

(** X13, witness: seed 0 before Python 3.11, and 42 drawn. *)
Lemma set_seed_replay_witness :
  ∃ v, (set_seed false 42 0 unseeded).1 = Returns v ∧
       (0 < v < 2 ^ 32)%Z ∧
       seeded_with v (set_seed false 42 0 unseeded).2 ∧
       (set_seed true 7 v unseeded).1 = Returns v ∧
       seeded_with v (set_seed true 7 v unseeded).2.
Proof.
  apply (set_seed_replay false true 42 7 0 unseeded unseeded); first [lia | reflexivity].
Defined.

(** X14, witness: seed 0 from Python 3.11 on, and 42 drawn. *)
Lemma set_seed_drawn_witness :
  numpy_seed (set_seed true 42 0 unseeded).2 = Some 42%Z ∧
  deterministic_algorithms (set_seed true 42 0 unseeded).2 = true ∧
  (set_seed true 42 0 unseeded).1 = Throws (Exn TypeError) ∧
  random_seed (set_seed true 42 0 unseeded).2 = None ∧
  torch_seed (set_seed true 42 0 unseeded).2 = None ∧
  cuda_seed (set_seed true 42 0 unseeded).2 = None ∧
  PYTHONHASHSEED (set_seed true 42 0 unseeded).2 = None.
Proof. apply (set_seed_drawn true 42 0 unseeded); lia. Defined.

(** X15, witness: seed 2^32. *)
Lemma set_seed_too_large_witness :
  (set_seed true 42 (2 ^ 32) unseeded).1 = Throws AssertionError ∧
  deterministic_algorithms (set_seed true 42 (2 ^ 32) unseeded).2 = true ∧
  numpy_seed (set_seed true 42 (2 ^ 32) unseeded).2 = None ∧
  random_seed (set_seed true 42 (2 ^ 32) unseeded).2 = None ∧
  torch_seed (set_seed true 42 (2 ^ 32) unseeded).2 = None ∧
  cuda_seed (set_seed true 42 (2 ^ 32) unseeded).2 = None ∧
  PYTHONHASHSEED (set_seed true 42 (2 ^ 32) unseeded).2 = None.
Proof. apply (set_seed_too_large true 42 (2 ^ 32) unseeded). lia. Defined.

(** X17 at the example: the English speaker of [dirA] is not listed. *)
Lemma list_speakers_example :
  (list_speakers (H := example_external never) (H0 := example_speakers)).1 !! "en"%string
  = Some ["dirB/en_c.npz"%string] ∧
  (list_speakers (H := example_external never) (H0 := example_speakers)).1 !! "de"%string
  = Some ["dirB/sub/de_d.npz"%string] ∧
  (list_speakers (H := example_external never) (H0 := example_speakers)).2
  = ["dirA/zz_b.npz"%string].
Proof. repeat split; reflexivity. Qed.

(** X18, witness: three segments, the speaker of [dirB] loaded, no silence
    asked for. *)
Lemma uncancelled_run_returns_every_segment_witness :
  ∃ evs name first,
    (generate_audio_long (H := example_external never) example_files
       (example_kwargs 1 false "spk") fresh_world).1
    = Ok (Some (outputs evs, each_followed_by [] (audios evs), name)) ∧
    log (generate_audio_long (H := example_external never) example_files
           (example_kwargs 1 false "spk") fresh_world).2
    = log fresh_world ++ evs
      ++ [EvWriteOneSegment (Some SegFinal)
            (Some (concat (each_followed_by [] (audios evs)))) (Some first)] ∧
    head (outputs evs) = Some first ∧
    length (calls evs) = 3 ∧ length (outputs evs) = 3 ∧ length (audios evs) = 3 ∧
    Forall not_final_write evs ∧
    done_cancelling (generate_audio_long (H := example_external never) example_files
                       (example_kwargs 1 false "spk") fresh_world).2 = false.
Proof.
  apply (uncancelled_run_returns_every_segment (H := example_external never) example_files
           (example_kwargs 1 false "spk") fresh_world (Some speaker_b) []).
  - reflexivity.
  - reflexivity.
  - exists "dirB/spk.npz"%string, speaker_b. repeat split; reflexivity.
  - reflexivity.
  - intros n. reflexivity.
  - discriminate.
Defined.

(** X19, witness: the same run. *)
Lemma calls_follow_the_segments_witness :
  ∃ evs,
    log (generate_audio_long (H := example_external never) example_files
           (example_kwargs 1 false "spk") fresh_world).2 = log fresh_world ++ evs ∧
    in_order (H := example_external never) (example_kwargs 1 false "spk") evs.
Proof.
  apply (calls_follow_the_segments (H := example_external never) example_files
           (example_kwargs 1 false "spk") fresh_world (Some speaker_b)).
  - reflexivity.
  - exists "dirB/spk.npz"%string, speaker_b. repeat split; reflexivity.
Defined.

(** X20, witness: interval 1. *)
Lemma interval_one_conditions_on_the_base_witness :
  ∃ evs,
    log (generate_audio_long (H := example_external never) example_files
           (example_kwargs 1 false "spk") fresh_world).2 = log fresh_world ++ evs ∧
    follows (anchor (Some speaker_b)) evs.
Proof.
  apply (interval_one_conditions_on_the_base (H := example_external never) example_files
           (example_kwargs 1 false "spk") fresh_world (Some speaker_b));
    try reflexivity.
  exists "dirB/spk.npz"%string, speaker_b. repeat split; reflexivity.
Defined.

(** X21, witness: interval 0. *)
Lemma interval_zero_conditions_on_the_previous_witness :
  ∃ evs,
    log (generate_audio_long (H := example_external never) example_files
           (example_kwargs 0 false "spk") fresh_world).2 = log fresh_world ++ evs ∧
    follows (drift (Some speaker_b)) evs.
Proof.
  apply (interval_zero_conditions_on_the_previous (H := example_external never)
           example_files (example_kwargs 0 false "spk") fresh_world (Some speaker_b));
    try reflexivity.
  exists "dirB/spk.npz"%string, speaker_b. repeat split; reflexivity.
Defined.

(** X22, witness: both switches on. *)
Lemma flipper_alternates_witness :
  ∃ evs,
    log (generate_audio_long (H := example_external never) example_files
           (switched_kwargs 1 false true true) fresh_world).2 = log fresh_world ++ evs ∧
    alternating (Some speaker_b) evs.
Proof.
  apply (flipper_alternates (H := example_external never) example_files
           (switched_kwargs 1 false true true) fresh_world (Some speaker_b));
    try reflexivity.
  exists "dirB/spk.npz"%string, speaker_b. repeat split; reflexivity.
Defined.

(** X23, witness: a dry run of three segments. *)
Lemma dry_run_generates_nothing_witness :
  ∃ evs name,
    log (generate_audio_long (H := example_external never) example_files
           (switched_kwargs 1 true false false) fresh_world).2 = log fresh_world ++ evs ∧
    Forall (λ e, prelude_event e ∨ e = EvCancelled) evs ∧
    flag_reads (generate_audio_long (H := example_external never) example_files
                  (switched_kwargs 1 true false false) fresh_world).2 = 1 ∧
    (generate_audio_long (H := example_external never) example_files
       (switched_kwargs 1 true false false) fresh_world).1 = Ok (Some ([], [], name)).
Proof.
  apply (dry_run_generates_nothing (H := example_external never) example_files
           (switched_kwargs 1 true false false) fresh_world (Some speaker_b));
    try reflexivity.
  exists "dirB/spk.npz"%string, speaker_b. repeat split; reflexivity.
Defined.

(** X24, witness: no text. *)
Lemma no_segment_raises_witness :
  (generate_audio_long (H := example_external never) example_files silent_kwargs
     fresh_world).1 = Raise ValueError.
Proof.
  apply (no_segment_raises (H := example_external never) example_files silent_kwargs
           fresh_world None); reflexivity.
Defined.

(** X25, witness: the second of three segments. *)
Lemma uncancelled_call_runs_every_stage_witness :
  generate_audio_barki (H := example_external never) "bb"
    (set_total_segments 3 (set_segment_number (SegNumber 2)
                             (example_kwargs 1 false "spk"))) fresh_world
  = (Ok (Audio []),
     World false false 6
       [EvGenerateTextSemantic "bb" (Some (HPName "spk"));
        EvGenerateCoarse (NdArray [2] [2; 7]%Z) (Some (HPName "spk"));
        EvGenerateFine (zeros 2 3) (Some (HPName "spk"));
        EvCodecDecode (zeros 8 3)]).
Proof.
  apply (uncancelled_call_runs_every_stage (H := example_external never) "bb"
           (set_total_segments 3 (set_segment_number (SegNumber 2)
                                    (example_kwargs 1 false "spk")))
           fresh_world false).
  - intros n Hn. reflexivity.
  - reflexivity.
Defined.
